(** * Shadowsocks relay core: credential manager, TCP relay, UDP session relay

    A shallow embedding of

    - [cred/manager.go]       ([Module Cred]),
    - [service/tcp.go]        ([Module TCPRelay]),
    - [service/udp_session.go] ([Module UDPSessionRelay]),
    - package [conn]          ([Module conn]),
    - [direct/tcp.go]         ([Module direct]),

    with the properties of the design document stated over it, and
    further properties of the code after them.

    Conventions.  A Go [int] is a [Z]; [[]byte] is a [list byte]; a Go map
    is an [option (gmap K V)], [None] being the nil map (reads see it as
    empty, [delete] ignores it, an assignment to it panics); a pointer that
    may be nil is an [option].  Calls into packages outside these files
    (JSON decoding, the cipher constructors, sockets, the router) are
    parameters of the model. *)

From Stdlib Require Import ZArith Lia List String.
From Stdlib.Strings Require Import Byte.
From stdpp Require Import base gmap strings list fin_maps.

Local Open Scope Z_scope.
Local Open Scope string_scope.
Local Open Scope list_scope.

#[global] Instance byte_eq_dec : EqDecision byte := Byte.byte_eq_dec.
#[global] Instance byte_countable : Countable byte :=
  inj_countable Byte.to_N Byte.of_N Byte.of_to_N.

(** [len(b)] of a slice, as a Go [int]. *)
Definition len {A : Type} (l : list A) : Z := Z.of_nat (length l).

(** ** Go maps, nil included *)

Section GoMap.
Context {K : Type} `{Countable K} {V : Type}.

(** [m[k]] as an rvalue: the nil map reads as empty. *)
Definition map_get (m : option (gmap K V)) (k : K) : option V :=
  match m with
  | Some g => g !! k
  | None => None
  end.

(** [m[k] = v]: [None] is the panic "assignment to entry in nil map". *)
Definition map_set (m : option (gmap K V)) (k : K) (v : V)
  : option (option (gmap K V)) :=
  match m with
  | Some g => Some (Some (<[k := v]> g))
  | None => None
  end.

(** [delete(m, k)]: a no-op on the nil map. *)
Definition map_del (m : option (gmap K V)) (k : K) : option (gmap K V) :=
  match m with
  | Some g => Some (delete k g)
  | None => None
  end.

(** The key set of a map; empty for the nil map. *)
Definition map_keys (m : option (gmap K V)) : gset K :=
  match m with
  | Some g => dom g
  | None => ∅
  end.
End GoMap.

(** * Go [int] arithmetic and slices *)

(** A Go [int] is 64 bits wide here; sums wrap around. *)
Definition wrap64 (z : Z) : Z := (z + 2 ^ 63) mod 2 ^ 64 - 2 ^ 63.
Definition int_add (a b : Z) : Z := wrap64 (a + b).
Definition int_sub (a b : Z) : Z := wrap64 (a - b).

(** [make([]byte, n)]: a zeroed slice; [None] is the panic for a negative
    length. *)
Definition make_bytes (n : Z) : option (list byte) :=
  if decide (0 <= n) then Some (repeat x00 (Z.to_nat n)) else None.

(** [b[lo:hi]] on a slice whose capacity is its length; [None] is the
    panic for bounds out of range. *)
Definition slice (b : list byte) (lo hi : Z) : option (list byte) :=
  if decide (0 <= lo /\ lo <= hi /\ hi <= len b)
  then Some (take (Z.to_nat (hi - lo)) (drop (Z.to_nat lo) b))
  else None.

(** * Packages [ss2022] and [maps]

    The parts of the repository's packages [ss2022] and [maps] that the
    credential manager uses; the hash function and the cipher constructor
    of [ss2022] are parameters further down. *)

Module ss2022.

(** [[IdentityHeaderLength]byte]: the identity hash of a uPSK. *)
Definition Hash : Type := list byte.

(** Modelled from the spec: the type [ServerUserCipherConfig] is
    declared outside these files.  The design document describes it as the
    user's pre-shared key material plus derived per-direction cipher state;
    the manager itself only reads its [Name]. *)
Record ServerUserCipherConfig : Type := {
  Name : string;
  cipherState : list byte
}.

#[global] Instance ServerUserCipherConfig_eq_dec : EqDecision ServerUserCipherConfig.
Proof. solve_decision. Defined.

(** [UserLookupMap]: [map[[IdentityHeaderLength]byte]*ServerUserCipherConfig]. *)
Abbreviation UserLookupMap := (option (gmap Hash ServerUserCipherConfig)).

(** Modelled from the spec: [CredStore] is declared outside these
    files.  It holds one [UserLookupMap] under a lock of its own;
    [ReplaceUserLookupMap] swaps the map and [UpdateUserLookupMap] runs a
    function on the current map, each inside the store's writer lock, which
    is free again when the call returns. *)
Record CredStore : Type := { ulm : UserLookupMap }.

(** Modelled from the spec: [CredStore.UpdateUserLookupMap(f)] invokes [f]
    on the store's current map.  [f] is given as a function that may panic
    ([None]). *)
Definition UpdateUserLookupMap (f : UserLookupMap -> option UserLookupMap)
    (c : CredStore) : option CredStore :=
  match f (ulm c) with
  | Some m => Some {| ulm := m |}
  | None => None
  end.

(** Modelled from the spec: [CredStore.ReplaceUserLookupMap(new)] swaps the
    store's map for [new]. *)
Definition ReplaceUserLookupMap (new : UserLookupMap) (c : CredStore) : CredStore :=
  {| ulm := new |}.

End ss2022.

Module maps.

(** Modelled from the spec: [Clone] of the repository's [maps] package
    yields a map with the same entries that shares no storage with its
    argument; maps being values here, the clone is the map itself. *)
Definition Clone {K : Type} `{Countable K} {V : Type} (m : option (gmap K V))
  : option (gmap K V) := m.

End maps.

(** * cred/manager.go *)

Module Cred.
Import ss2022.

Record cachedUserCredential : Type := {
  uPSK : list byte;
  uPSKHash : Hash
}.

#[global] Instance cachedUserCredential_eq_dec : EqDecision cachedUserCredential.
Proof. solve_decision. Defined.

Record UserCredential : Type := {
  Name : string;
  UPSK : list byte
}.

(** [sync.RWMutex], as seen between the statements of one goroutine. *)
Inductive RWMutex : Type :=
| Unlocked
| WriteLocked
| ReadLocked (readers : nat).

#[global] Instance RWMutex_eq_dec : EqDecision RWMutex.
Proof. solve_decision. Defined.

(** The errors the manager returns: its two sentinels (the second one
    wrapped with the username), [ss2022.PSKLengthError], its three
    [fmt.Errorf] messages, and the errors passed on from the cipher
    constructor, the file read and the JSON decoder. *)
Inductive error : Type :=
| ErrEmptyUsername
| ErrNonexistentUser (username : string)
| PSKLengthError (PSK : list byte) (ExpectedLength : Z)
| ErrUserExists (username : string)
| ErrSameUPSK (username : string)
| ErrDuplicateUPSK (first second : string)
| ErrCipherConfig (msg : string)
| ErrReadFile (path : string)
| ErrDecode (msg : string).

(** The fields of [ManagedServer] that carry state.  [tcp] and [udp] are
    the attached stores ([None]: nil pointer); [saveQueue] is the number of
    tokens in the capacity-1 save channel. *)
Record ManagedServer : Type := {
  pskLength : Z;
  tcp : option CredStore;
  udp : option CredStore;
  path : string;
  cachedContent : string;
  cachedCredMap : option (gmap string cachedUserCredential);
  cachedUserLookupMap : UserLookupMap;
  mu : RWMutex;
  saveQueue : nat
}.

Definition set_tcp (v : option CredStore) (s : ManagedServer) : ManagedServer :=
  {| pskLength := pskLength s; tcp := v; udp := udp s; path := path s;
     cachedContent := cachedContent s; cachedCredMap := cachedCredMap s;
     cachedUserLookupMap := cachedUserLookupMap s; mu := mu s;
     saveQueue := saveQueue s |}.

Definition set_udp (v : option CredStore) (s : ManagedServer) : ManagedServer :=
  {| pskLength := pskLength s; tcp := tcp s; udp := v; path := path s;
     cachedContent := cachedContent s; cachedCredMap := cachedCredMap s;
     cachedUserLookupMap := cachedUserLookupMap s; mu := mu s;
     saveQueue := saveQueue s |}.

Definition set_cachedContent (v : string) (s : ManagedServer) : ManagedServer :=
  {| pskLength := pskLength s; tcp := tcp s; udp := udp s; path := path s;
     cachedContent := v; cachedCredMap := cachedCredMap s;
     cachedUserLookupMap := cachedUserLookupMap s; mu := mu s;
     saveQueue := saveQueue s |}.

Definition set_cachedCredMap (v : option (gmap string cachedUserCredential))
    (s : ManagedServer) : ManagedServer :=
  {| pskLength := pskLength s; tcp := tcp s; udp := udp s; path := path s;
     cachedContent := cachedContent s; cachedCredMap := v;
     cachedUserLookupMap := cachedUserLookupMap s; mu := mu s;
     saveQueue := saveQueue s |}.

Definition set_cachedUserLookupMap (v : UserLookupMap) (s : ManagedServer)
  : ManagedServer :=
  {| pskLength := pskLength s; tcp := tcp s; udp := udp s; path := path s;
     cachedContent := cachedContent s; cachedCredMap := cachedCredMap s;
     cachedUserLookupMap := v; mu := mu s; saveQueue := saveQueue s |}.

Definition set_mu (v : RWMutex) (s : ManagedServer) : ManagedServer :=
  {| pskLength := pskLength s; tcp := tcp s; udp := udp s; path := path s;
     cachedContent := cachedContent s; cachedCredMap := cachedCredMap s;
     cachedUserLookupMap := cachedUserLookupMap s; mu := v;
     saveQueue := saveQueue s |}.

Definition set_saveQueue (v : nat) (s : ManagedServer) : ManagedServer :=
  {| pskLength := pskLength s; tcp := tcp s; udp := udp s; path := path s;
     cachedContent := cachedContent s; cachedCredMap := cachedCredMap s;
     cachedUserLookupMap := cachedUserLookupMap s; mu := mu s;
     saveQueue := v |}.

(** ** Outcomes of a call on a [ManagedServer]

    A call either returns, panics (a Go run-time panic, with the state it
    leaves behind), or blocks for ever on a mutex that nothing will
    release. *)
Inductive outcome (A : Type) : Type :=
| Returned (a : A) (s : ManagedServer)
| Panicked (s : ManagedServer)
| Blocked (s : ManagedServer).

Arguments Returned {A} a s.
Arguments Panicked {A} s.
Arguments Blocked {A} s.

Definition M (A : Type) : Type := ManagedServer -> outcome A.

Definition ret {A : Type} (a : A) : M A := fun s => Returned a s.

Definition bind {A B : Type} (m : M A) (k : A -> M B) : M B :=
  fun s =>
    match m s with
    | Returned a s' => k a s'
    | Panicked s' => Panicked s'
    | Blocked s' => Blocked s'
    end.

Definition get : M ManagedServer := fun s => Returned s s.
Definition modify (f : ManagedServer -> ManagedServer) : M unit :=
  fun s => Returned tt (f s).
Definition panic {A : Type} : M A := fun s => Panicked s.

Declare Scope go_scope.
Delimit Scope go_scope with go.
Notation "x <~ m ;; k" := (bind m (fun x => k))
  (at level 63, m at next level, right associativity) : go_scope.
Notation "m ;;; k" := (bind m (fun _ => k))
  (at level 63, right associativity) : go_scope.
Local Open Scope go_scope.

(** [s.mu.Lock()]: waits while the mutex is held in either mode. *)
Definition Lock : M unit := fun s =>
  match mu s with
  | Unlocked => Returned tt (set_mu WriteLocked s)
  | _ => Blocked s
  end.

(** [s.mu.Unlock()]: unlocking a mutex that is not write-locked is a fatal
    run-time error. *)
Definition Unlock : M unit := fun s =>
  match mu s with
  | WriteLocked => Returned tt (set_mu Unlocked s)
  | _ => Panicked s
  end.

(** [s.mu.RLock()]: waits while a writer holds the mutex. *)
Definition RLock : M unit := fun s =>
  match mu s with
  | Unlocked => Returned tt (set_mu (ReadLocked 1) s)
  | ReadLocked n => Returned tt (set_mu (ReadLocked (S n)) s)
  | WriteLocked => Blocked s
  end.

Definition RUnlock : M unit := fun s =>
  match mu s with
  | ReadLocked 1 => Returned tt (set_mu Unlocked s)
  | ReadLocked (S (S n)) => Returned tt (set_mu (ReadLocked (S n)) s)
  | _ => Panicked s
  end.

(** [GetCredential] *)
Definition GetCredential (username : string) : M (UserCredential * bool) :=
  RLock ;;;
  s <~ get ;;
  let cachedCred := map_get (cachedCredMap s) username in
  RUnlock ;;;
  match cachedCred with
  | None => ret ({| Name := EmptyString; UPSK := [] |}, false)
  | Some cc => ret ({| Name := username; UPSK := uPSK cc |}, true)
  end.

(** [enqueueSave]: a non-blocking send on the capacity-1 channel. *)
Definition enqueueSave : M unit := fun s =>
  match saveQueue s with
  | O => Returned tt (set_saveQueue 1 s)
  | _ => Returned tt s
  end.

(** [updateProdULM] *)
Definition updateProdULM (f : UserLookupMap -> option UserLookupMap) : M unit :=
  (s <~ get ;;
   match tcp s with
   | Some c =>
       match UpdateUserLookupMap f c with
       | Some c' => modify (set_tcp (Some c'))
       | None => panic
       end
   | None => ret tt
   end) ;;;
  (s <~ get ;;
   match udp s with
   | Some c =>
       match UpdateUserLookupMap f c with
       | Some c' => modify (set_udp (Some c'))
       | None => panic
       end
   | None => ret tt
   end).

(** [replaceProdULM] *)
Definition replaceProdULM : M unit :=
  (s <~ get ;;
   match tcp s with
   | Some c => modify (set_tcp (Some (ReplaceUserLookupMap (maps.Clone (cachedUserLookupMap s)) c)))
   | None => ret tt
   end) ;;;
  (s <~ get ;;
   match udp s with
   | Some c => modify (set_udp (Some (ReplaceUserLookupMap (maps.Clone (cachedUserLookupMap s)) c)))
   | None => ret tt
   end).

(** [s.udp != nil] *)
Definition udp_attached (s : ManagedServer) : bool :=
  match udp s with Some _ => true | None => false end.

Section Operations.

(** [ss2022.PSKHash] *)
Variable PSKHash : list byte -> Hash.

(** [ss2022.NewServerUserCipherConfig(username, uPSK, enableUDP)]: a
    cipher configuration, or the text of the error. *)
Variable NewServerUserCipherConfig :
  string -> list byte -> bool -> ServerUserCipherConfig + string.

(** [json.Decoder.Decode] into a [map[string][]byte], unknown fields
    disallowed: the decoded object, or the text of the error. *)
Variable decode : string -> gmap string (list byte) + string.

(** The order in which [range] visits the decoded object; Go leaves it
    unspecified. *)
Variable rangeOrder : gmap string (list byte) -> list (string * list byte).

(** [AddCredential] *)
Definition AddCredential (username : string) (uPSK : list byte) : M (option error) :=
  if decide (username = EmptyString) then ret (Some ErrEmptyUsername) else
  s <~ get ;;
  if decide (len uPSK ≠ pskLength s) then
    ret (Some (PSKLengthError uPSK (pskLength s)))
  else
  Lock ;;;
  s <~ get ;;
  match map_get (cachedCredMap s) username with
  | Some _ => Unlock ;;; ret (Some (ErrUserExists username))
  | None =>
      match NewServerUserCipherConfig username uPSK (udp_attached s) with
      | inr e => Unlock ;;; ret (Some (ErrCipherConfig e))
      | inl c =>
          let uc := {| uPSK := uPSK; uPSKHash := PSKHash uPSK |} in
          match map_set (cachedCredMap s) username uc with
          | None => panic
          | Some credMap =>
              modify (set_cachedCredMap credMap) ;;;
              s <~ get ;;
              match map_set (cachedUserLookupMap s) (uPSKHash uc) c with
              | None => panic
              | Some lookupMap =>
                  modify (set_cachedUserLookupMap lookupMap) ;;;
                  Unlock ;;;
                  enqueueSave ;;;
                  updateProdULM (fun m => map_set m (uPSKHash uc) c) ;;;
                  ret None
              end
          end
      end
  end.

(** [UpdateCredential].  [uc] points into [cachedCredMap], so the two
    assignments to its fields change the map's entry in place. *)
Definition UpdateCredential (username : string) (uPSK : list byte) : M (option error) :=
  s <~ get ;;
  if decide (len uPSK ≠ pskLength s) then
    ret (Some (PSKLengthError uPSK (pskLength s)))
  else
  Lock ;;;
  s <~ get ;;
  match cachedCredMap s, map_get (cachedCredMap s) username with
  | Some credMap, Some uc =>
      if decide (Cred.uPSK uc = uPSK) then
        Unlock ;;; ret (Some (ErrSameUPSK username))
      else
      match NewServerUserCipherConfig username uPSK (udp_attached s) with
      | inr e => Unlock ;;; ret (Some (ErrCipherConfig e))
      | inl c =>
          let oldUPSKHash := uPSKHash uc in
          let uc' := {| uPSK := uPSK; uPSKHash := PSKHash uPSK |} in
          modify (set_cachedCredMap (Some (<[username := uc']> credMap))) ;;;
          modify (fun s => set_cachedUserLookupMap
                             (map_del (cachedUserLookupMap s) oldUPSKHash) s) ;;;
          s <~ get ;;
          match map_set (cachedUserLookupMap s) (uPSKHash uc') c with
          | None => panic
          | Some lookupMap =>
              modify (set_cachedUserLookupMap lookupMap) ;;;
              Unlock ;;;
              enqueueSave ;;;
              updateProdULM (fun m => map_set (map_del m oldUPSKHash) (uPSKHash uc') c) ;;;
              ret None
          end
      end
  | _, _ => Unlock ;;; ret (Some (ErrNonexistentUser username))
  end.

(** [DeleteCredential] *)
Definition DeleteCredential (username : string) : M (option error) :=
  Lock ;;;
  s <~ get ;;
  match map_get (cachedCredMap s) username with
  | None => Unlock ;;; ret (Some (ErrNonexistentUser username))
  | Some uc =>
      modify (set_cachedCredMap (map_del (cachedCredMap s) username)) ;;;
      modify (fun s => set_cachedUserLookupMap
                         (map_del (cachedUserLookupMap s) (uPSKHash uc)) s) ;;;
      Unlock ;;;
      enqueueSave ;;;
      updateProdULM (fun m => Some (map_del m (uPSKHash uc))) ;;;
      ret None
  end.

(** The body of the [range] loop of [loadFromFile]: the two maps under
    construction are threaded through; the first failing entry ends the
    loop with its error. *)
Fixpoint buildMaps (udpOn : bool) (expected : Z)
    (entries : list (string * list byte))
    (userLookupMap : gmap Hash ServerUserCipherConfig)
    (credMap : gmap string cachedUserCredential)
  : error + (gmap Hash ServerUserCipherConfig * gmap string cachedUserCredential) :=
  match entries with
  | [] => inr (userLookupMap, credMap)
  | (username, uPSK) :: rest =>
      if decide (len uPSK ≠ expected) then inl (PSKLengthError uPSK expected)
      else
        let h := PSKHash uPSK in
        match userLookupMap !! h with
        | Some c => inl (ErrDuplicateUPSK (ss2022.Name c) username)
        | None =>
            match NewServerUserCipherConfig username uPSK udpOn with
            | inr e => inl (ErrCipherConfig e)
            | inl c =>
                buildMaps udpOn expected rest
                  (<[h := c]> userLookupMap)
                  (<[username := {| uPSK := uPSK; uPSKHash := h |}]> credMap)
            end
        end
  end.

(** [loadFromFile].  [fs] is the file system, a map from paths to file
    contents; [mmap.ReadFile] fails on a path it does not hold. *)
Definition loadFromFile (fs : gmap string string) : M (option error) :=
  s <~ get ;;
  match fs !! path s with
  | None => ret (Some (ErrReadFile (path s)))
  | Some content =>
      Lock ;;;
      s <~ get ;;
      if decide (content = cachedContent s) then ret None else
      match decode content with
      | inr e => ret (Some (ErrDecode e))
      | inl uPSKMap =>
          match buildMaps (udp_attached s) (pskLength s) (rangeOrder uPSKMap) ∅ ∅ with
          | inl e => ret (Some e)
          | inr (userLookupMap, credMap) =>
              modify (set_cachedContent content) ;;;
              modify (set_cachedUserLookupMap (Some userLookupMap)) ;;;
              modify (set_cachedCredMap (Some credMap)) ;;;
              Unlock ;;;
              ret None
          end
      end
  end.

(** [LoadFromFile] *)
Definition LoadFromFile (fs : gmap string string) : M (option error) :=
  r <~ loadFromFile fs ;;
  match r with
  | Some e => ret (Some e)
  | None => replaceProdULM ;;; ret None
  end.

(** The three mutators of the management API, as one call. *)
Inductive call : Type :=
| CallAdd (username : string) (uPSK : list byte)
| CallUpdate (username : string) (uPSK : list byte)
| CallDelete (username : string).

Definition run (c : call) : M (option error) :=
  match c with
  | CallAdd u k => AddCredential u k
  | CallUpdate u k => UpdateCredential u k
  | CallDelete u => DeleteCredential u
  end.

End Operations.

Arguments CallAdd username uPSK : clear implicits.
Arguments CallUpdate username uPSK : clear implicits.
Arguments CallDelete username : clear implicits.

(** The [uPSKHash] values held by the credentials of [cachedCredMap]. *)
Definition credHashes (m : option (gmap string cachedUserCredential)) : gset Hash :=
  match m with
  | Some g => map_img (uPSKHash <$> g)
  | None => ∅
  end.

(** Consistency of the two caches: the hashes held by the credentials are
    exactly the keys of [cachedUserLookupMap]. *)
Definition consistent (s : ManagedServer) : Prop :=
  credHashes (cachedCredMap s) = map_keys (cachedUserLookupMap s).

#[global] Instance consistent_dec s : Decision (consistent s).
Proof. unfold consistent. apply _. Defined.

(** The rule an error names, read against the call and the state it was
    made in. *)
Definition names_violated_rule (c : call) (s : ManagedServer) (e : error) : Prop :=
  match e with
  | ErrEmptyUsername =>
      exists k, c = CallAdd EmptyString k
  | PSKLengthError p n =>
      n = pskLength s /\ len p ≠ pskLength s /\
      exists u, c = CallAdd u p \/ c = CallUpdate u p
  | ErrNonexistentUser u =>
      map_get (cachedCredMap s) u = None /\
      ((exists k, c = CallUpdate u k) \/ c = CallDelete u)
  | _ => True
  end.

(** The errors that name one of the three rules: a username that is not
    empty, a uPSK of the configured length, a user that exists. *)
Definition rule_error (e : error) : Prop :=
  match e with
  | ErrEmptyUsername => True
  | PSKLengthError _ _ => True
  | ErrNonexistentUser _ => True
  | _ => False
  end.

(** ** Listing, saving, starting and registering *)

Section Listing.

(** The order in which [range] visits [cachedCredMap]. *)
Variable rangeCreds :
  gmap string cachedUserCredential -> list (string * cachedUserCredential).

(** [Credentials] *)
Definition Credentials : M (list UserCredential) :=
  RLock ;;;
  s <~ get ;;
  let ucs :=
    match cachedCredMap s with
    | Some g => (fun p => {| Name := p.1; UPSK := uPSK p.2 |}) <$> rangeCreds g
    | None => []
    end in
  RUnlock ;;;
  ret ucs.

End Listing.

(** The two ways [saveToFile] fails: [json.MarshalIndent] or
    [os.WriteFile] returned an error. *)
Inductive saveError : Type :=
| ErrMarshal (msg : string)
| ErrWriteFile (path : string).

Section Saving.

(** [json.MarshalIndent] of a [map[string][]byte] with four spaces of
    indentation: the text, or the text of the error. *)
Variable MarshalIndent : gmap string (list byte) -> string + string.

(** [saveToFile] on the file system [fs]; [writable] tells whether
    [os.WriteFile] succeeds.  It returns the file system it leaves.  The
    expression [&b[0]] panics on empty output. *)
Definition saveToFile (fs : gmap string string) (writable : bool)
  : M (option saveError * gmap string string) :=
  s <~ get ;;
  let uPSKMap : gmap string (list byte) :=
    match cachedCredMap s with
    | Some g => uPSK <$> g
    | None => ∅
    end in
  match MarshalIndent uPSKMap with
  | inr e => ret (Some (ErrMarshal e), fs)
  | inl b =>
      if writable then
        if decide (b = EmptyString) then panic
        else
          modify (set_cachedContent b) ;;;
          ret (None, <[path s := b]> fs)
      else ret (Some (ErrWriteFile (path s)), fs)
  end.

End Saving.

(** [SetTCPCredStore], [SetUDPCredStore] *)
Definition SetTCPCredStore (tcp : CredStore) : M unit := modify (set_tcp (Some tcp)).
Definition SetUDPCredStore (udp : CredStore) : M unit := modify (set_udp (Some udp)).

(** [Start], up to the goroutine it spawns for [dequeueSave]. *)
Definition Start : M unit := replaceProdULM.

(** Both attached stores hold the map that [cachedUserLookupMap] holds. *)
Definition stores_synced (s : ManagedServer) : Prop :=
  (forall c, tcp s = Some c -> ulm c = cachedUserLookupMap s) /\
  (forall c, udp s = Some c -> ulm c = cachedUserLookupMap s).

(** What [updateProdULM f] does to one attached store. *)
Definition store_updated (f : UserLookupMap -> option UserLookupMap)
    (before after : option CredStore) : Prop :=
  match before with
  | None => after = None
  | Some c => exists m, f (ulm c) = Some m /\ after = Some {| ulm := m |}
  end.

(** The length of [saveQueue] after the non-blocking send of
    [enqueueSave]. *)
Definition enqueued (n : nat) : nat :=
  match n with
  | O => 1%nat
  | _ => n
  end.

(** The value [GetCredential] returns for a user it does not find. *)
Definition notFound : UserCredential * bool :=
  ({| Name := EmptyString; UPSK := [] |}, false).

(** The credential that [loadFromFile] caches for a uPSK. *)
Definition credentialOf (PSKHash : list byte -> Hash) (k : list byte)
  : cachedUserCredential :=
  {| uPSK := k; uPSKHash := PSKHash k |}.

(** The errors of [RegisterServer]: the name is taken, or the first load
    failed. *)
Inductive registerError : Type :=
| ErrAlreadyRegistered (name : string)
| ErrLoadCredentials (name : string) (e : error).

Section Registration.

Variable PSKHash : list byte -> Hash.
Variable NewServerUserCipherConfig :
  string -> list byte -> bool -> ServerUserCipherConfig + string.
Variable decode : string -> gmap string (list byte) + string.
Variable rangeOrder : gmap string (list byte) -> list (string * list byte).

(** A sequence of calls of the management API; it ends at the first call
    that does not return. *)
Fixpoint runs (cs : list call) : M (list (option error)) :=
  match cs with
  | [] => ret []
  | c :: rest =>
      r <~ run PSKHash NewServerUserCipherConfig c ;;
      rs <~ runs rest ;;
      ret (r :: rs)
  end.

(** Whether one of the calls returned nil. *)
Definition anySucceeded (rs : list (option error)) : bool :=
  existsb (fun r => match r with None => true | Some _ => false end) rs.

(** The [ManagedServer] literal of [RegisterServer]. *)
Definition newServer (pskLength : Z) (path : string) : ManagedServer :=
  {| pskLength := pskLength;
     tcp := None;
     udp := None;
     path := path;
     cachedContent := EmptyString;
     cachedCredMap := None;
     cachedUserLookupMap := None;
     mu := Unlocked;
     saveQueue := 0 |}.

(** [Manager.RegisterServer] on the manager's [servers] map: the map it
    leaves and the server or the error it returns; [None] when the call
    does not return. *)
Definition RegisterServer (servers : gmap string ManagedServer)
    (name : string) (pskLength : Z) (path : string) (fs : gmap string string)
  : option (gmap string ManagedServer * (registerError + ManagedServer)) :=
  match servers !! name with
  | Some _ => Some (servers, inl (ErrAlreadyRegistered name))
  | None =>
      match loadFromFile PSKHash NewServerUserCipherConfig decode rangeOrder fs
              (newServer pskLength path) with
      | Returned (Some e) _ => Some (servers, inl (ErrLoadCredentials name e))
      | Returned None s => Some (<[name := s]> servers, inr s)
      | Panicked _ => None
      | Blocked _ => None
      end
  end.

End Registration.

End Cred.

(** * service/tcp.go *)

Module TCPRelay.

Definition initialPayloadWaitBufferSize : Z := 1280.

(** [initialPayloadWaitTimeout], in milliseconds. *)
Definition initialPayloadWaitTimeout : Z := 250.

(** [conn.Addr], [socks5.Addr]: a target address, opaque to the relay. *)
Definition Addr : Type := string.

(** The three ways [ReadZeroCopy] ends, as [handleConn] tells them apart:
    nil error (with the buffer as the reader left it and the payload
    length), [os.ErrDeadlineExceeded] (with the buffer as the reader left
    it: the reader writes into the slice it is given), any other error. *)
Inductive readResult : Type :=
| ReadOK (buf : list byte) (payloadLength : Z)
| ReadDeadlineExceeded (buf : list byte)
| ReadFailed.

(** [zerocopy.ReadWriter], the framed client connection that [Accept]
    returns. *)
Record ReadWriter : Type := {
  FrontHeadroom : Z;
  RearHeadroom : Z;
  MinPayloadBufferSizePerRead : Z;
  ReadZeroCopy : list byte -> Z -> Z -> readResult
}.

(** [zerocopy.TCPClient], the outbound client the router selects; [Dial]
    tells whether the remote connection could be made. *)
Record TCPClient : Type := {
  NativeInitialPayload : bool;
  Dial : Addr -> list byte -> bool
}.

(** What [s.server.Accept(clientConn)] returns: a framed connection with
    target address and initial payload, [socks5.ErrUDPAssociateHold], or
    another error. *)
Inductive acceptResult : Type :=
| Accepted (clientRW : ReadWriter) (targetAddr : Addr) (payload : list byte)
| AcceptHold
| AcceptFailed.

(** One accepted connection: the results of the calls [handleConn] makes
    on the socket, the server framing and the router. *)
Record conn : Type := {
  parseAddr_ok : bool;
  addrPort_ok : bool;
  accept : acceptResult;
  holdRead_nil_or_EOF : bool;
  getTCPClient : option TCPClient;
  setReadDeadline_ok : bool;
  resetReadDeadline_ok : bool
}.

Record TCPRelay : Type := {
  serverName : string;
  listenAddress : string;
  waitForInitialPayload : bool
}.

(** What [handleConn] does to the outside, in order. *)
Inductive event : Type :=
| EvHoldRead
| EvConnCloserDo
| EvMake (n : Z)
| EvSetReadDeadline (timeout : option Z)
| EvReadZeroCopy (bufLen payloadBufStart payloadBufLen : Z)
| EvDial (targetAddr : Addr) (payload : list byte)
| EvTwoWayRelay
| EvCloseRemote
| EvCloseClient
| EvPanic.

#[global] Instance event_eq_dec : EqDecision event.
Proof. solve_decision. Defined.

(** The size of the payload part of the wait buffer. *)
Definition payloadBufSizeOf (clientRW : ReadWriter) : Z :=
  if decide (MinPayloadBufferSizePerRead clientRW = 0)
  then initialPayloadWaitBufferSize
  else MinPayloadBufferSizePerRead clientRW.

(** The block guarded by [s.waitForInitialPayload && c.NativeInitialPayload()]:
    the events it causes and the payload to dial with, [None] when the
    handler returns (or panics) inside the block. *)
Definition initialPayloadWait (s : TCPRelay) (cn : conn) (c : TCPClient)
    (clientRW : ReadWriter) (payload : list byte)
  : list event * option (list byte) :=
  if waitForInitialPayload s && NativeInitialPayload c then
    let frontHeadroom := FrontHeadroom clientRW in
    let rearHeadroom := RearHeadroom clientRW in
    let payloadBufSize := payloadBufSizeOf clientRW in
    let n := int_add (int_add frontHeadroom payloadBufSize) rearHeadroom in
    match make_bytes n with
    | None => ([EvPanic], None)
    | Some payload =>
        if negb (setReadDeadline_ok cn) then
          ([EvMake n; EvSetReadDeadline (Some initialPayloadWaitTimeout)], None)
        else
          let evs := [EvMake n; EvSetReadDeadline (Some initialPayloadWaitTimeout);
                      EvReadZeroCopy (len payload) frontHeadroom payloadBufSize] in
          let reset (payload : list byte) :=
            if resetReadDeadline_ok cn
            then (evs ++ [EvSetReadDeadline None], Some payload)
            else (evs ++ [EvSetReadDeadline None], None) in
          match ReadZeroCopy clientRW payload frontHeadroom payloadBufSize with
          | ReadOK buf payloadLength =>
              match slice buf frontHeadroom (int_add frontHeadroom payloadLength) with
              | None => (evs ++ [EvPanic], None)
              | Some payload => reset payload
              end
          | ReadDeadlineExceeded buf => reset buf
          | ReadFailed => (evs, None)
          end
    end
  else ([], Some payload).

(** [handleConn]; the deferred [clientConn.Close()] ends every trace. *)
Definition handleConn (s : TCPRelay) (cn : conn) : list event :=
  (if negb (parseAddr_ok cn) then []
   else if negb (addrPort_ok cn) then []
   else
     match accept cn with
     | AcceptHold =>
         if holdRead_nil_or_EOF cn then [EvHoldRead]
         else [EvHoldRead; EvConnCloserDo]
     | AcceptFailed => [EvConnCloserDo]
     | Accepted clientRW targetAddr payload =>
         match getTCPClient cn with
         | None => []
         | Some c =>
             match initialPayloadWait s cn c clientRW payload with
             | (evs, None) => evs
             | (evs, Some payload) =>
                 evs ++ EvDial targetAddr payload ::
                   (if Dial c targetAddr payload
                    then [EvTwoWayRelay; EvCloseRemote]
                    else [])
             end
         end
     end) ++ [EvCloseClient].

(** The initial-payload wait took place: the handler read from the client
    before dialing. *)
Definition waited (tr : list event) : bool :=
  existsb (fun e => match e with EvReadZeroCopy _ _ _ => true | _ => false end) tr.

(** The [ReadZeroCopy] calls of a trace, each with the length of the
    buffer it was given, the payload start and the payload size; and the
    sizes of the buffers the trace allocates. *)
Definition reads (tr : list event) : list (Z * Z * Z) :=
  omap (fun e => match e with EvReadZeroCopy a b c => Some (a, b, c) | _ => None end) tr.

Definition allocated (tr : list event) : list Z :=
  omap (fun e => match e with EvMake n => Some n | _ => None end) tr.

(** The payloads of the [Dial] calls of a trace (there is at most one). *)
Definition dialed (tr : list event) : list (list byte) :=
  omap (fun e => match e with EvDial _ p => Some p | _ => None end) tr.

(** The connection [cn] with another initial payload from [Accept]. *)
Definition with_payload (payload : list byte) (cn : conn) : conn :=
  {| parseAddr_ok := parseAddr_ok cn;
     addrPort_ok := addrPort_ok cn;
     accept :=
       match accept cn with
       | Accepted clientRW targetAddr _ => Accepted clientRW targetAddr payload
       | r => r
       end;
     holdRead_nil_or_EOF := holdRead_nil_or_EOF cn;
     getTCPClient := getTCPClient cn;
     setReadDeadline_ok := setReadDeadline_ok cn;
     resetReadDeadline_ok := resetReadDeadline_ok cn |}.

(** The size the design document gives for the payload part of the wait
    buffer. *)
Definition spec_payloadBufSize (clientRW : ReadWriter) : Z :=
  Z.max (MinPayloadBufferSizePerRead clientRW) 1280.

(** ** Reading traces *)

(** How often an event occurs in a trace. *)
Definition occurrences (e : event) (tr : list event) : nat :=
  length (filter (fun x => x = e) tr).

(** The [Dial] calls of a trace that returned a remote connection, for
    the client that the router selected. *)
Definition connected (cn : conn) (tr : list event) : nat :=
  match getTCPClient cn with
  | None => 0%nat
  | Some c =>
      length (omap (fun e => match e with
                             | EvDial a p => if Dial c a p then Some e else None
                             | _ => None
                             end) tr)
  end.

(** Whether some [Dial] of the trace is made while a read deadline that
    the handler set on the client connection is still in force; [armed]
    tells whether one is in force when the trace starts. *)
Fixpoint dialsUnderDeadline (armed : bool) (tr : list event) : bool :=
  match tr with
  | [] => false
  | EvSetReadDeadline timeout :: rest =>
      dialsUnderDeadline (match timeout with Some _ => true | None => false end) rest
  | EvDial _ _ :: rest => armed || dialsUnderDeadline armed rest
  | _ :: rest => dialsUnderDeadline armed rest
  end.

End TCPRelay.

(** Concrete connections. *)

Module TCPDemo.
Import TCPRelay.

(** A framed reader with no headroom and no minimum read size, on which
    the client's first two bytes arrive in time. *)
Definition promptReader : ReadWriter :=
  {| FrontHeadroom := 0;
     RearHeadroom := 0;
     MinPayloadBufferSizePerRead := 0;
     ReadZeroCopy := fun b start _ =>
       ReadOK (take (Z.to_nat start) b ++ [x68; x69] ++ drop (Z.to_nat start + 2) b) 2 |}.

Definition nativeClient : TCPClient :=
  {| NativeInitialPayload := true; Dial := fun _ _ => true |}.

Definition relay : TCPRelay :=
  {| serverName := "in"; listenAddress := ":1080"; waitForInitialPayload := true |}.

(** A connection whose handshake already surfaced three bytes. *)
Definition surfaced : conn :=
  {| parseAddr_ok := true;
     addrPort_ok := true;
     accept := Accepted promptReader "example.com:443" [x01; x02; x03];
     holdRead_nil_or_EOF := true;
     getTCPClient := Some nativeClient;
     setReadDeadline_ok := true;
     resetReadDeadline_ok := true |}.

(** A framed reader that asks for at least 100 bytes per read; nothing
    arrives on it in time. *)
Definition reader100 : ReadWriter :=
  {| FrontHeadroom := 24;
     RearHeadroom := 16;
     MinPayloadBufferSizePerRead := 100;
     ReadZeroCopy := fun b _ _ => ReadDeadlineExceeded b |}.

Definition conn100 : conn :=
  {| parseAddr_ok := true;
     addrPort_ok := true;
     accept := Accepted reader100 "example.com:443" [];
     holdRead_nil_or_EOF := true;
     getTCPClient := Some nativeClient;
     setReadDeadline_ok := true;
     resetReadDeadline_ok := true |}.


(** A framed reader on which one byte arrives before the deadline
    passes: the byte is in the buffer, and the read fails. *)
Definition lateReader : ReadWriter :=
  {| FrontHeadroom := 0;
     RearHeadroom := 0;
     MinPayloadBufferSizePerRead := 4;
     ReadZeroCopy := fun b start _ =>
       ReadDeadlineExceeded
         (take (Z.to_nat start) b ++ [x68] ++ drop (Z.to_nat start + 1) b) |}.

Definition connLate : conn :=
  {| parseAddr_ok := true;
     addrPort_ok := true;
     accept := Accepted lateReader "example.com:443" [];
     holdRead_nil_or_EOF := true;
     getTCPClient := Some nativeClient;
     setReadDeadline_ok := true;
     resetReadDeadline_ok := true |}.

End TCPDemo.

(** * service/udp_session.go *)

Module UDPSessionRelay.

(** [socks5.Addr], [netip.AddrPort]: addresses, opaque to the relay. *)
Definition Addr : Type := string.

(** One borrow from [packetBufPool]: the [*[]byte] that the n-th [Get]
    returned.  The pool may hand out the same memory again after a [Put];
    each borrow is counted on its own. *)
Definition bufp : Type := nat.

Record queuedPacket : Type := {
  qp_bufp : bufp;
  qp_start : Z;
  qp_length : Z;
  qp_targetAddr : Addr
}.

(** [zerocopy.Packer], as far as the relay looks into it. *)
Record Packer : Type := {
  FrontHeadroom : Z;
  RearHeadroom : Z
}.

(** [session].  [natConnSendCh] is the content of the buffered channel,
    oldest packet first, and [sendChClosed] whether it has been closed;
    [csid] is the session ID captured by the session's two goroutines and
    [cachedTargetAddr] the local variable of its upstream worker. *)
Record session : Type := {
  csid : N;
  clientAddrPort : Addr;
  natConnMTU : Z;
  natConnSendCh : list queuedPacket;
  sendChClosed : bool;
  natConnPacker : Packer;
  natConnUseFixedTargetAddrPort : bool;
  serverConnPacker : Packer;
  maxClientPacketSize : Z;
  cachedTargetAddr : Addr
}.

Definition set_natConnSendCh (ch : list queuedPacket) (e : session) : session :=
  {| csid := csid e; clientAddrPort := clientAddrPort e; natConnMTU := natConnMTU e;
     natConnSendCh := ch; sendChClosed := sendChClosed e;
     natConnPacker := natConnPacker e;
     natConnUseFixedTargetAddrPort := natConnUseFixedTargetAddrPort e;
     serverConnPacker := serverConnPacker e;
     maxClientPacketSize := maxClientPacketSize e;
     cachedTargetAddr := cachedTargetAddr e |}.

Definition set_sendChClosed (v : bool) (e : session) : session :=
  {| csid := csid e; clientAddrPort := clientAddrPort e; natConnMTU := natConnMTU e;
     natConnSendCh := natConnSendCh e; sendChClosed := v;
     natConnPacker := natConnPacker e;
     natConnUseFixedTargetAddrPort := natConnUseFixedTargetAddrPort e;
     serverConnPacker := serverConnPacker e;
     maxClientPacketSize := maxClientPacketSize e;
     cachedTargetAddr := cachedTargetAddr e |}.

Definition set_clientAddrPort (a : Addr) (e : session) : session :=
  {| csid := csid e; clientAddrPort := a; natConnMTU := natConnMTU e;
     natConnSendCh := natConnSendCh e; sendChClosed := sendChClosed e;
     natConnPacker := natConnPacker e;
     natConnUseFixedTargetAddrPort := natConnUseFixedTargetAddrPort e;
     serverConnPacker := serverConnPacker e;
     maxClientPacketSize := maxClientPacketSize e;
     cachedTargetAddr := cachedTargetAddr e |}.

Definition set_cachedTargetAddr (a : Addr) (e : session) : session :=
  {| csid := csid e; clientAddrPort := clientAddrPort e; natConnMTU := natConnMTU e;
     natConnSendCh := natConnSendCh e; sendChClosed := sendChClosed e;
     natConnPacker := natConnPacker e;
     natConnUseFixedTargetAddrPort := natConnUseFixedTargetAddrPort e;
     serverConnPacker := serverConnPacker e;
     maxClientPacketSize := maxClientPacketSize e;
     cachedTargetAddr := a |}.

(** Who called [packetBufPool.Put]. *)
Inductive actor : Type :=
| ReceiveLoop
| UpstreamWorker.

#[global] Instance actor_eq_dec : EqDecision actor.
Proof. solve_decision. Defined.

(** [UDPSessionRelay].  [sessions] is the heap of session objects, a
    [*session] being an index into it; [table] is [s.table]; [gets]
    counts the calls of [packetBufPool.Get]; [puts] logs the calls of
    [packetBufPool.Put] and [sends] the sends that a send channel took,
    latest first; [warns] counts the calls of [s.logger.Warn] that this
    file makes. *)
Record state : Type := {
  mtu : Z;
  table : gmap N nat;
  sessions : list session;
  gets : nat;
  puts : list (actor * bufp);
  sends : list bufp;
  warns : nat
}.

Definition Put (who : actor) (b : bufp) (st : state) : state :=
  {| mtu := mtu st; table := table st; sessions := sessions st;
     gets := gets st; puts := (who, b) :: puts st; sends := sends st;
     warns := warns st |}.

Definition Get (st : state) : bufp * state :=
  (gets st,
   {| mtu := mtu st; table := table st; sessions := sessions st;
      gets := S (gets st); puts := puts st; sends := sends st;
      warns := warns st |}).

Definition Warn (st : state) : state :=
  {| mtu := mtu st; table := table st; sessions := sessions st;
     gets := gets st; puts := puts st; sends := sends st;
     warns := S (warns st) |}.

Definition set_table (t : gmap N nat) (st : state) : state :=
  {| mtu := mtu st; table := t; sessions := sessions st;
     gets := gets st; puts := puts st; sends := sends st; warns := warns st |}.

Definition set_sessions (l : list session) (st : state) : state :=
  {| mtu := mtu st; table := table st; sessions := l;
     gets := gets st; puts := puts st; sends := sends st; warns := warns st |}.

Definition logSend (b : bufp) (st : state) : state :=
  {| mtu := mtu st; table := table st; sessions := sessions st;
     gets := gets st; puts := puts st; sends := b :: sends st;
     warns := warns st |}.

(** How an iteration of a loop ends. *)
Inductive control : Type :=
| Continue
| Break
| Panic.

(** The three ways [ReadMsgUDPAddrPort] on [serverConn] ends, as the
    receive loop tells them apart. *)
Inductive readResult : Type :=
| ReadOK
| ReadClosed
| ReadFailed.

(** What the outbound client chosen by the router provides:
    [AddrPort()] and the outcome of [NewSession()]. *)
Record UDPClient : Type := {
  client_MTU : Z;
  client_useFixedTargetAddrPort : bool;
  newSession : option Packer
}.

(** One datagram on [serverConn]: the results of the calls the receive
    loop makes for it.  [getUDPClient] and the fields after it, up to
    [setReadDeadline_ok], are only consulted when the packet opens a
    session; [listenUDP_serr] tells whether [conn.ListenUDP] reports an
    error of a socket option with the socket it returns. *)
Record datagram : Type := {
  read : readResult;
  flags_ok : bool;
  dg_clientAddrPort : Addr;
  clientIs4 : bool;
  sessionInfo : option N;
  newUnpacker_ok : bool;
  unpack_ok : bool;
  dg_targetAddr : Addr;
  payloadStart : Z;
  payloadLength : Z;
  getUDPClient : option UDPClient;
  newPacker : option Packer;
  listenUDP_ok : bool;
  listenUDP_serr : bool;
  setReadDeadline_ok : bool;
  updateOobCache_ok : bool
}.

Section Relay.

(** Constants of package [service] declared outside this file. *)
Variable sendChannelCapacity : nat.
Variables IPv4HeaderLength IPv6HeaderLength UDPHeaderLength : Z.

(** The [select] at the end of the receive loop's body: a send that
    does not block.  A send on a closed channel panics. *)
Definition trySend (idx : nat) (entry : session) (pkt : queuedPacket)
    (st : state) : state * control :=
  if sendChClosed entry then (st, Panic)
  else if decide (length (natConnSendCh entry) < sendChannelCapacity)%nat then
    (logSend (qp_bufp pkt)
       (set_sessions
          (<[idx := set_natConnSendCh (natConnSendCh entry ++ [pkt]) entry]> (sessions st))
          st),
     Continue)
  else (Put ReceiveLoop (qp_bufp pkt) st, Continue).

(** One iteration of the receive loop of [Start].  A socket option that
    could not be set on the new [natConn], and out-of-band data that
    could not be processed, are warned about and the packet goes on. *)
Definition receiveIteration (dg : datagram) (st : state) : state * control :=
  let (packetBufp, st) := Get st in
  let drop := (Put ReceiveLoop packetBufp (Warn st), Continue) in
  match read dg with
  | ReadClosed => (Put ReceiveLoop packetBufp st, Break)
  | ReadFailed => drop
  | ReadOK =>
      if negb (flags_ok dg) then drop else
      match sessionInfo dg with
      | None => drop
      | Some csid =>
          let pkt := {| qp_bufp := packetBufp; qp_start := payloadStart dg;
                        qp_length := payloadLength dg;
                        qp_targetAddr := dg_targetAddr dg |} in
          match table st !! csid with
          | None =>
              if negb (newUnpacker_ok dg) then drop else
              if negb (unpack_ok dg) then drop else
              match getUDPClient dg with
              | None => drop
              | Some c =>
                  match newSession c with
                  | None => drop
                  | Some natConnPacker =>
                      match newPacker dg with
                      | None => drop
                      | Some serverConnPacker =>
                          if negb (listenUDP_ok dg) then drop else
                          let st := if listenUDP_serr dg then Warn st else st in
                          if negb (setReadDeadline_ok dg) then
                            (Put ReceiveLoop packetBufp (Warn st), Continue)
                          else
                          let entry :=
                            {| csid := csid;
                               clientAddrPort := dg_clientAddrPort dg;
                               natConnMTU := client_MTU c;
                               natConnSendCh := [];
                               sendChClosed := false;
                               natConnPacker := natConnPacker;
                               natConnUseFixedTargetAddrPort :=
                                 client_useFixedTargetAddrPort c;
                               serverConnPacker := serverConnPacker;
                               maxClientPacketSize :=
                                 if clientIs4 dg
                                 then int_sub (int_sub (mtu st) IPv4HeaderLength) UDPHeaderLength
                                 else int_sub (int_sub (mtu st) IPv6HeaderLength) UDPHeaderLength;
                               cachedTargetAddr := EmptyString |} in
                          let idx := length (sessions st) in
                          let st := set_table (<[csid := idx]> (table st))
                                      (set_sessions (sessions st ++ [entry]) st) in
                          let st := if updateOobCache_ok dg then st else Warn st in
                          trySend idx entry pkt st
                      end
                  end
              end
          | Some idx =>
              match sessions st !! idx with
              | None => (st, Panic)
              | Some entry =>
                  if negb (unpack_ok dg) then drop else
                  let entry := set_clientAddrPort (dg_clientAddrPort dg) entry in
                  let st := set_sessions (<[idx := entry]> (sessions st)) st in
                  let st := if updateOobCache_ok dg then st else Warn st in
                  trySend idx entry pkt st
              end
          end
      end
  end.

(** The results of the calls the upstream worker makes for one queued
    packet. *)
Record forwarding : Type := {
  pack_ok : bool;
  addrPort_ok : bool;
  write_ok : bool
}.

(** One iteration of the loop of [relayServerConnToNatConnGeneric] for
    the session at [idx].  On an empty channel that is still open the
    worker waits, and nothing changes. *)
Definition upstreamIteration (idx : nat) (fw : forwarding) (st : state)
  : state * control :=
  match sessions st !! idx with
  | None => (st, Break)
  | Some entry =>
      match natConnSendCh entry with
      | [] => if sendChClosed entry then (st, Break) else (st, Continue)
      | queuedPacket :: rest =>
          let entry := set_natConnSendCh rest entry in
          let st := set_sessions (<[idx := entry]> (sessions st)) st in
          let write (st : state) :=
            let st := if write_ok fw then st else Warn st in
            (Put UpstreamWorker (qp_bufp queuedPacket) st, Continue) in
          if negb (pack_ok fw) then
            (Put UpstreamWorker (qp_bufp queuedPacket) (Warn st), Continue)
          else if negb (natConnUseFixedTargetAddrPort entry)
                  && negb (bool_decide (cachedTargetAddr entry = qp_targetAddr queuedPacket))
          then
            if negb (addrPort_ok fw) then
              (Put UpstreamWorker (qp_bufp queuedPacket) (Warn st), Continue)
            else
              let entry := set_cachedTargetAddr (qp_targetAddr queuedPacket) entry in
              write (set_sessions (<[idx := entry]> (sessions st)) st)
          else write st
      end
  end.

(** The end of a session's downstream goroutine: under [s.mu], close
    the send channel and delete the table entry.  Closing a closed
    channel panics. *)
Definition teardown (idx : nat) (st : state) : state * control :=
  match sessions st !! idx with
  | None => (st, Panic)
  | Some entry =>
      if sendChClosed entry then (st, Panic)
      else
        (set_table (delete (csid entry) (table st))
           (set_sessions (<[idx := set_sendChClosed true entry]> (sessions st)) st),
         Break)
  end.

(** The goroutines of the relay take turns; each turn is one of the
    steps above. *)
Inductive action : Type :=
| Receive (dg : datagram)
| Upstream (idx : nat) (fw : forwarding)
| Teardown (idx : nat).

Definition exec (a : action) (st : state) : state * control :=
  match a with
  | Receive dg => receiveIteration dg st
  | Upstream idx fw => upstreamIteration idx fw st
  | Teardown idx => teardown idx st
  end.

(** A schedule, run until it ends or a step panics. *)
Fixpoint run (acts : list action) (st : state) : state * control :=
  match acts with
  | [] => (st, Continue)
  | a :: rest =>
      match exec a st with
      | (st', Panic) => (st', Panic)
      | (st', _) => run rest st'
      end
  end.

(** The relay as [NewUDPSessionRelay] builds it. *)
Definition init (mtu : Z) : state :=
  {| mtu := mtu; table := ∅; sessions := []; gets := 0; puts := [];
     sends := []; warns := 0 |}.

(** How often [who] has returned borrow [b] to the pool, how often a
    send channel has taken it, and how often it sits in one. *)
Definition returnedBy (who : actor) (b : bufp) (st : state) : nat :=
  length (filter (fun p => p = (who, b)) (puts st)).

Definition sent (b : bufp) (st : state) : nat :=
  length (filter (fun x => x = b) (sends st)).

Definition queuedIn (b : bufp) (e : session) : nat :=
  length (filter (fun q => qp_bufp q = b) (natConnSendCh e)).

Definition queued (b : bufp) (st : state) : nat :=
  sum_list_with (queuedIn b) (sessions st).

End Relay.

(** Every table entry points to a session that exists, whose send channel
    is open, and that was created for that session ID. *)
Definition table_ok (st : state) : Prop :=
  forall k idx, table st !! k = Some idx ->
    exists e, sessions st !! idx = Some e /\ sendChClosed e = false /\ csid e = k.

(** The account of one borrow [b].  Once borrowed, it was either returned
    by the receive loop or taken by a send channel, and never both; and
    one that a channel took is either still in the channel or was returned
    by the upstream worker, once. *)
Definition accounted (b : bufp) (st : state) : Prop :=
  (if decide (b < gets st) then
     returnedBy ReceiveLoop b st + sent b st = 1 /\
     returnedBy UpstreamWorker b st + queued b st = sent b st
   else
     returnedBy ReceiveLoop b st = 0 /\ sent b st = 0 /\
     returnedBy UpstreamWorker b st = 0 /\ queued b st = 0)%nat.

Definition Inv (st : state) : Prop :=
  table_ok st /\ forall b, accounted b st.

(** ** The downstream worker *)

(** How one iteration of the loop of [relayNatConnToServerConnGeneric]
    goes: where it fails, if it does. *)
Inductive reply : Type :=
| ReadDeadlineExceeded
| ReadError
| FlagsError
| UnpackError
| PackError
| WriteClosed
| WriteError
| Written.

Inductive downEvent : Type :=
| DMake (n : Z)
| DReadMsg (recvBufLen : Z)
| DUnpackInPlace (bufLen packetStart : Z)
| DPackInPlace (bufLen : Z)
| DWriteMsg
| DWarn
| DPanic.

Fixpoint downstreamLoop (frontHeadroom : Z) (packetBuf recvBuf : list byte)
    (replies : list reply) : list downEvent :=
  match replies with
  | [] => []
  | r :: rest =>
      let continue := downstreamLoop frontHeadroom packetBuf recvBuf rest in
      let unpack := DUnpackInPlace (len packetBuf) frontHeadroom in
      let pack := DPackInPlace (len packetBuf) in
      DReadMsg (len recvBuf) ::
      match r with
      | ReadDeadlineExceeded => []
      | ReadError => DWarn :: continue
      | FlagsError => DWarn :: continue
      | UnpackError => unpack :: DWarn :: continue
      | PackError => unpack :: pack :: DWarn :: continue
      | WriteClosed => [unpack; pack; DWriteMsg]
      | WriteError => unpack :: pack :: DWriteMsg :: DWarn :: continue
      | Written => unpack :: pack :: DWriteMsg :: continue
      end
  end.

(** [relayNatConnToServerConnGeneric] on the replies that arrive on
    [natConn]. *)
Definition relayNatConnToServerConnGeneric (entry : session) (replies : list reply)
  : list downEvent :=
  let serverFrontHeadroom := FrontHeadroom (serverConnPacker entry) in
  let serverRearHeadroom := RearHeadroom (serverConnPacker entry) in
  let clientFrontHeadroom := FrontHeadroom (natConnPacker entry) in
  let clientRearHeadroom := RearHeadroom (natConnPacker entry) in
  let frontHeadroom :=
    if decide (serverFrontHeadroom > clientFrontHeadroom)
    then int_sub serverFrontHeadroom clientFrontHeadroom else 0 in
  let rearHeadroom :=
    if decide (serverRearHeadroom > clientRearHeadroom)
    then int_sub serverRearHeadroom clientRearHeadroom else 0 in
  let n := int_add (int_add frontHeadroom (maxClientPacketSize entry)) rearHeadroom in
  match make_bytes n with
  | None => [DPanic]
  | Some packetBuf =>
      DMake n ::
      match slice packetBuf frontHeadroom
              (int_add frontHeadroom (maxClientPacketSize entry)) with
      | None => [DPanic]
      | Some recvBuf => downstreamLoop frontHeadroom packetBuf recvBuf replies
      end
  end.

(** The buffers a trace allocates. *)
Definition allocations (tr : list downEvent) : list Z :=
  omap (fun e => match e with DMake n => Some n | _ => None end) tr.

(** ** The send channels *)

(** The borrows in a send channel, oldest first. *)
Definition borrows (e : session) : list bufp := qp_bufp <$> natConnSendCh e.

(** Borrows in the order in which they were made: a later position
    holds a later borrow. *)
Definition in_arrival_order (l : list bufp) : Prop :=
  forall i j x y, (i < j)%nat -> l !! i = Some x -> l !! j = Some y -> (x < y)%nat.

(** A send channel holds at most [capacity] packets, in the order in
    which their buffers were borrowed, all of them among the first
    [gets] borrows. *)
Definition channel_ok (capacity gets : nat) (e : session) : Prop :=
  (length (natConnSendCh e) <= capacity)%nat /\
  in_arrival_order (borrows e) /\
  Forall (fun b => (b < gets)%nat) (borrows e).

Definition channels_ok (capacity : nat) (st : state) : Prop :=
  Forall (channel_ok capacity (gets st)) (sessions st).

(** A datagram of session [k] that the receive loop reads and unpacks
    without an error. *)
Definition arrives (k : N) (dg : datagram) : Prop :=
  read dg = ReadOK /\ flags_ok dg = true /\ sessionInfo dg = Some k /\
  unpack_ok dg = true.

(** A datagram with which every step of opening a session succeeds: the
    outbound client, its packer and the packer for the client side. *)
Definition opens (k : N) (dg : datagram) (c : UDPClient) (natPacker serverPacker : Packer)
  : Prop :=
  arrives k dg /\ newUnpacker_ok dg = true /\
  getUDPClient dg = Some c /\ newSession c = Some natPacker /\
  newPacker dg = Some serverPacker /\
  listenUDP_ok dg = true /\ setReadDeadline_ok dg = true.

(** A datagram that does not get as far as the send channel of a
    session: the read or its flags fail, the packet carries no session
    information or cannot be unpacked, or it is the first packet of its
    session and a step of opening the session fails. *)
Definition fails (dg : datagram) (st : state) : Prop :=
  read dg ≠ ReadOK \/ flags_ok dg = false \/ sessionInfo dg = None \/
  unpack_ok dg = false \/
  exists k, sessionInfo dg = Some k /\ table st !! k = None /\
    (newUnpacker_ok dg = false \/ getUDPClient dg = None \/
     (exists c, getUDPClient dg = Some c /\ newSession c = None) \/
     newPacker dg = None \/ listenUDP_ok dg = false \/
     setReadDeadline_ok dg = false).

(** The send channel of the datagram's session has no room: the channel
    of the session in the table holds [capacity] packets, or the session
    is to be opened with a channel of capacity zero. *)
Definition channelFull (capacity : nat) (dg : datagram) (st : state) : Prop :=
  exists k, sessionInfo dg = Some k /\
    match table st !! k with
    | Some idx => exists e, sessions st !! idx = Some e /\
                            (capacity <= length (natConnSendCh e))%nat
    | None => capacity = 0%nat
    end.


(** The number of iterations that the upstream worker of the session at
    [idx] makes in a schedule. *)
Fixpoint upstreamSteps (idx : nat) (acts : list action) : nat :=
  match acts with
  | [] => 0
  | Upstream i _ :: rest =>
      ((if decide (i = idx) then 1 else 0) + upstreamSteps idx rest)%nat
  | _ :: rest => upstreamSteps idx rest
  end.

(** The datagrams of a list whose out-of-band data [conn.UpdateOobCache]
    could not process. *)
Definition oobFailures (dgs : list datagram) : nat :=
  length (filter (fun dg => updateOobCache_ok dg = false) dgs).

(** Whether a reply ends the loop of the downstream worker. *)
Definition ends (r : reply) : bool :=
  match r with
  | ReadDeadlineExceeded => true
  | WriteClosed => true
  | _ => false
  end.

(** The lengths of the buffers that the reads of a trace are given. *)
Definition readLengths (tr : list downEvent) : list Z :=
  omap (fun e => match e with DReadMsg n => Some n | _ => None end) tr.

End UDPSessionRelay.

(** A concrete relay and schedule. *)

Module UDPDemo.
Import UDPSessionRelay.

Definition capacity : nat := 2.

Definition serverPacker : Packer := {| FrontHeadroom := 24; RearHeadroom := 16 |}.
Definition outboundPacker : Packer := {| FrontHeadroom := 8; RearHeadroom := 32 |}.

Definition outbound : UDPClient :=
  {| client_MTU := 1500;
     client_useFixedTargetAddrPort := false;
     newSession := Some outboundPacker |}.

(** A well-formed datagram of client session [k]. *)
Definition datagramOf (k : N) : datagram :=
  {| read := ReadOK;
     flags_ok := true;
     dg_clientAddrPort := "[::ffff:192.0.2.1]:5000";
     clientIs4 := true;
     sessionInfo := Some k;
     newUnpacker_ok := true;
     unpack_ok := true;
     dg_targetAddr := "example.com:53";
     payloadStart := 56;
     payloadLength := 100;
     getUDPClient := Some outbound;
     newPacker := Some serverPacker;
     listenUDP_ok := true;
     listenUDP_serr := false;
     setReadDeadline_ok := true;
     updateOobCache_ok := true |}.

(** A datagram whose flags report truncation. *)
Definition truncated : datagram :=
  {| read := ReadOK;
     flags_ok := false;
     dg_clientAddrPort := "[::ffff:192.0.2.1]:5000";
     clientIs4 := true;
     sessionInfo := Some 7%N;
     newUnpacker_ok := true;
     unpack_ok := true;
     dg_targetAddr := "example.com:53";
     payloadStart := 56;
     payloadLength := 100;
     getUDPClient := Some outbound;
     newPacker := Some serverPacker;
     listenUDP_ok := true;
     listenUDP_serr := false;
     setReadDeadline_ok := true;
     updateOobCache_ok := true |}.

(** A datagram of session 7 whose out-of-band data cannot be processed. *)
Definition oobFailed : datagram :=
  {| read := ReadOK;
     flags_ok := true;
     dg_clientAddrPort := "[::ffff:192.0.2.1]:5000";
     clientIs4 := true;
     sessionInfo := Some 7%N;
     newUnpacker_ok := true;
     unpack_ok := true;
     dg_targetAddr := "example.com:53";
     payloadStart := 56;
     payloadLength := 100;
     getUDPClient := Some outbound;
     newPacker := Some serverPacker;
     listenUDP_ok := true;
     listenUDP_serr := false;
     setReadDeadline_ok := true;
     updateOobCache_ok := false |}.

Definition packFails : forwarding :=
  {| pack_ok := false; addrPort_ok := true; write_ok := true |}.
Definition forwarded : forwarding :=
  {| pack_ok := true; addrPort_ok := true; write_ok := true |}.

(** Three datagrams of session 7 arrive while its worker is stalled, the
    channel holding two; a truncated one follows; the worker then fails to
    pack the first, the session is torn down, and the worker forwards the
    second from the closed channel. *)
Definition schedule : list action :=
  [Receive (datagramOf 7); Receive (datagramOf 7); Receive (datagramOf 7);
   Receive truncated; Upstream 0 packFails; Teardown 0; Upstream 0 forwarded].

Definition demoRun : state * control :=
  run capacity 20 40 8 schedule (init 1500).

(** The session that the first datagram opens. *)
Definition session7 : session :=
  {| csid := 7;
     clientAddrPort := "[::ffff:192.0.2.1]:5000";
     natConnMTU := 1500;
     natConnSendCh := [];
     sendChClosed := false;
     natConnPacker := outboundPacker;
     natConnUseFixedTargetAddrPort := false;
     serverConnPacker := serverPacker;
     maxClientPacketSize := 1472;
     cachedTargetAddr := EmptyString |}.

(** The packet that the receive loop queues for a datagram of
    [datagramOf] read into borrow [b]. *)
Definition packet (b : bufp) : queuedPacket :=
  {| qp_bufp := b; qp_start := 56; qp_length := 100;
     qp_targetAddr := "example.com:53" |}.

Definition relayRun : list action -> state -> state * control :=
  run capacity 20 40 8.

(** The relay after the first datagram of session 7, and after the first
    three: the channel holds two, the buffer of the third went back. *)
Definition opened : state := fst (relayRun [Receive (datagramOf 7)] (init 1500)).

Definition arrivals : list action :=
  [Receive (datagramOf 7); Receive (datagramOf 7); Receive (datagramOf 7)].

Definition filled : state := fst (relayRun arrivals (init 1500)).


End UDPDemo.

(** * Concrete instances, for evaluating the operations *)

Module CredDemo.
Import ss2022 Cred.
Local Open Scope go_scope.

(** A stand-in for [ss2022.PSKHash]: injective, and 32 bytes for a 16-byte key. *)
Definition demoPSKHash (k : list byte) : Hash := (k ++ k)%list.

(** A stand-in for [ss2022.NewServerUserCipherConfig] that never fails. *)
Definition demoCipherConfig (username : string) (k : list byte) (enableUDP : bool)
  : ServerUserCipherConfig + string :=
  inl {| ss2022.Name := username;
         ss2022.cipherState := if enableUDP then (k ++ k)%list else k |}.

Definition keyA : list byte := repeat x0a 16.
Definition keyB : list byte := repeat x0b 16.
Definition shortKey : list byte := repeat x0c 3.

(** A stand-in for the JSON decoder, on the three files used below:
    [alice.json] holds the object with the one member alice -> keyA,
    [short.json] an object whose key is 3 bytes long, and anything else is
    not JSON. *)
Definition demoDecode (content : string) : gmap string (list byte) + string :=
  if decide (content = "alice.json") then inl {[ "alice" := keyA ]}
  else if decide (content = "short.json") then inl {[ "carol" := shortKey ]}
  else inr "invalid character".

Definition demoRange (m : gmap string (list byte)) : list (string * list byte) :=
  map_to_list m.

(** The server [RegisterServer] builds before its first load, with both
    stores attached. *)
Definition fresh : ManagedServer :=
  {| pskLength := 16;
     tcp := Some {| ulm := None |};
     udp := Some {| ulm := None |};
     path := "/etc/ss/upsks.json";
     cachedContent := EmptyString;
     cachedCredMap := None;
     cachedUserLookupMap := None;
     mu := Unlocked;
     saveQueue := 0 |}.

Definition fsAlice : gmap string string := {[ "/etc/ss/upsks.json" := "alice.json" ]}.
Definition fsShort : gmap string string := {[ "/etc/ss/upsks.json" := "short.json" ]}.
Definition fsBroken : gmap string string := {[ "/etc/ss/upsks.json" := "{" ]}.

Definition demoLoad := LoadFromFile demoPSKHash demoCipherConfig demoDecode demoRange.
Definition demoAdd := AddCredential demoPSKHash demoCipherConfig.
Definition demoUpdate := UpdateCredential demoPSKHash demoCipherConfig.

Definition aliceCred : cachedUserCredential :=
  {| uPSK := keyA; uPSKHash := demoPSKHash keyA |}.

Definition cfg (username : string) : ServerUserCipherConfig :=
  {| ss2022.Name := username; ss2022.cipherState := (keyA ++ keyA)%list |}.

(** [fresh] after [LoadFromFile] has read [alice.json]. *)
Definition loaded : ManagedServer :=
  {| pskLength := 16;
     tcp := Some {| ulm := Some {[ demoPSKHash keyA := cfg "alice" ]} |};
     udp := Some {| ulm := Some {[ demoPSKHash keyA := cfg "alice" ]} |};
     path := "/etc/ss/upsks.json";
     cachedContent := "alice.json";
     cachedCredMap := Some {[ "alice" := aliceCred ]};
     cachedUserLookupMap := Some {[ demoPSKHash keyA := cfg "alice" ]};
     mu := Unlocked;
     saveQueue := 0 |}.

(** [loaded] after [AddCredential("bob", keyA)]: bob's configuration has
    taken the place of alice's under their common hash. *)
Definition withBob : ManagedServer :=
  {| pskLength := 16;
     tcp := Some {| ulm := Some {[ demoPSKHash keyA := cfg "bob" ]} |};
     udp := Some {| ulm := Some {[ demoPSKHash keyA := cfg "bob" ]} |};
     path := "/etc/ss/upsks.json";
     cachedContent := "alice.json";
     cachedCredMap := Some (<[ "bob" := aliceCred ]> {[ "alice" := aliceCred ]});
     cachedUserLookupMap := Some {[ demoPSKHash keyA := cfg "bob" ]};
     mu := Unlocked;
     saveQueue := 1 |}.

(** [withBob] after [DeleteCredential("bob")]. *)
Definition bobDeleted : ManagedServer :=
  {| pskLength := 16;
     tcp := Some {| ulm := Some ∅ |};
     udp := Some {| ulm := Some ∅ |};
     path := "/etc/ss/upsks.json";
     cachedContent := "alice.json";
     cachedCredMap := Some {[ "alice" := aliceCred ]};
     cachedUserLookupMap := Some ∅;
     mu := Unlocked;
     saveQueue := 1 |}.

(** [loaded] with [mu] held: what a failed or a repeated reload leaves. *)
Definition loadedLocked : ManagedServer := set_mu WriteLocked loaded.

(** [range] over [cachedCredMap], in the order of [map_to_list]. *)
Definition demoRangeCreds (m : gmap string cachedUserCredential)
  : list (string * cachedUserCredential) := map_to_list m.

(** A stand-in for [json.MarshalIndent] that is the inverse of
    [demoDecode] on the object of [alice.json]. *)
Definition demoMarshal (m : gmap string (list byte)) : string + string :=
  if decide (m = {[ "alice" := keyA ]}) then inl "alice.json"
  else inl "other.json".

Definition demoRegister :=
  RegisterServer demoPSKHash demoCipherConfig demoDecode demoRange.

(** What [RegisterServer] makes of [alice.json]: no store is attached yet,
    and the cipher configuration is built with UDP disabled. *)
Definition registered : ManagedServer :=
  {| pskLength := 16;
     tcp := None;
     udp := None;
     path := "/etc/ss/upsks.json";
     cachedContent := "alice.json";
     cachedCredMap := Some {[ "alice" := aliceCred ]};
     cachedUserLookupMap :=
       Some {[ demoPSKHash keyA :=
                 {| ss2022.Name := "alice"; ss2022.cipherState := keyA |} ]};
     mu := Unlocked;
     saveQueue := 0 |}.

(** [loaded] after [UpdateCredential("alice", keyB)]. *)
Definition aliceUpdated : ManagedServer :=
  {| pskLength := 16;
     tcp := Some {| ulm := Some {[ demoPSKHash keyB :=
              {| ss2022.Name := "alice"; ss2022.cipherState := (keyB ++ keyB)%list |} ]} |};
     udp := Some {| ulm := Some {[ demoPSKHash keyB :=
              {| ss2022.Name := "alice"; ss2022.cipherState := (keyB ++ keyB)%list |} ]} |};
     path := "/etc/ss/upsks.json";
     cachedContent := "alice.json";
     cachedCredMap :=
       Some {[ "alice" := {| uPSK := keyB; uPSKHash := demoPSKHash keyB |} ]};
     cachedUserLookupMap := Some {[ demoPSKHash keyB :=
              {| ss2022.Name := "alice"; ss2022.cipherState := (keyB ++ keyB)%list |} ]};
     mu := Unlocked;
     saveQueue := 1 |}.

Definition cfgB (username : string) : ServerUserCipherConfig :=
  {| ss2022.Name := username; ss2022.cipherState := (keyB ++ keyB)%list |}.

(** [loaded] after [AddCredential("bob", keyB)]. *)
Definition withBobB : ManagedServer :=
  {| pskLength := 16;
     tcp := Some {| ulm := Some (<[ demoPSKHash keyB := cfgB "bob" ]>
                                   {[ demoPSKHash keyA := cfg "alice" ]}) |};
     udp := Some {| ulm := Some (<[ demoPSKHash keyB := cfgB "bob" ]>
                                   {[ demoPSKHash keyA := cfg "alice" ]}) |};
     path := "/etc/ss/upsks.json";
     cachedContent := "alice.json";
     cachedCredMap :=
       Some (<[ "bob" := {| uPSK := keyB; uPSKHash := demoPSKHash keyB |} ]>
               {[ "alice" := aliceCred ]});
     cachedUserLookupMap := Some (<[ demoPSKHash keyB := cfgB "bob" ]>
                                    {[ demoPSKHash keyA := cfg "alice" ]});
     mu := Unlocked;
     saveQueue := 1 |}.

Definition demoRuns := runs demoPSKHash demoCipherConfig.

(** A burst of calls: bob is added, a user that does not exist is
    deleted, bob is deleted again. *)
Definition burst : list call :=
  [CallAdd "bob" keyB; CallDelete "nobody"; CallDelete "bob"].

(** [loaded] with a save pending. *)
Definition loadedPending : ManagedServer := set_saveQueue 1 loaded.

(** What [RegisterServer] makes of an empty credential file. *)
Definition registeredEmpty : ManagedServer :=
  set_mu WriteLocked (newServer 16 "/etc/ss/upsks.json").

Definition fsEmpty : gmap string string := {[ "/etc/ss/upsks.json" := EmptyString ]}.
End CredDemo.

(** * Package [conn]: dialers, socket addresses, batched writes *)

(** [byte(x)] for an unsigned [x]: the low 8 bits; and the value of a
    byte. *)
Definition byte_of_Z (x : Z) : byte :=
  match Byte.of_N (Z.to_N (Z.land x 255)) with
  | Some b => b
  | None => x00
  end.

Definition Z_of_byte (b : byte) : Z := Z.of_N (Byte.to_N b).

(** The parts of [net/netip] that package [conn] uses, as the Go
    documentation describes them: an [Addr] is the zero [Addr], an IPv4
    address of 4 bytes, or an IPv6 address of 16 bytes with a zone. *)
Module netip.

Inductive Addr : Type :=
| AddrZero
| Addr4 (a : list byte)
| Addr6 (a : list byte) (zone : string).

#[global] Instance Addr_eq_dec : EqDecision Addr.
Proof. solve_decision. Defined.

Definition AddrPort : Type := Addr * Z.

Definition Is4 (ip : Addr) : bool :=
  match ip with
  | Addr4 _ => true
  | _ => false
  end.

(** The prefix of an IPv4-mapped IPv6 address. *)
Definition v4InV6Prefix : list byte := repeat x00 10 ++ [xff; xff].

(** [As4] is only called on addresses for which [Is4] holds. *)
Definition As4 (ip : Addr) : list byte :=
  match ip with
  | Addr4 a => a
  | _ => repeat x00 4
  end.

Definition As16 (ip : Addr) : list byte :=
  match ip with
  | AddrZero => repeat x00 16
  | Addr4 a => v4InV6Prefix ++ a
  | Addr6 a _ => a
  end.

Definition AddrFrom4 (a : list byte) : Addr := Addr4 a.
Definition AddrFrom16 (a : list byte) : Addr := Addr6 a EmptyString.
Definition AddrPortFrom (ip : Addr) (port : Z) : AddrPort := (ip, port).

(** An address as a Go value can hold it: 4 or 16 bytes. *)
Definition wf (ip : Addr) : Prop :=
  match ip with
  | AddrZero => True
  | Addr4 a => length a = 4%nat
  | Addr6 a _ => length a = 16%nat
  end.

End netip.

Module conn.

(** [tfo.Dialer] and [tfo.ListenConfig], as far as [NewDialer] and
    [NewListenConfig] set them: [Control] is nil, or sets [SO_MARK] to
    the mark it holds. *)
Record Dialer : Type := {
  DisableTFO : bool;
  Control : option Z
}.

Record ListenConfig : Type := {
  lcDisableTFO : bool;
  lcControl : option Z
}.

Definition NewDialer (dialerTFO : bool) (dialerFwmark : Z) : Dialer :=
  {| DisableTFO := negb dialerTFO;
     Control := if decide (dialerFwmark ≠ 0) then Some dialerFwmark else None |}.

Definition NewListenConfig (listenerTFO : bool) (listenerFwmark : Z) : ListenConfig :=
  {| lcDisableTFO := negb listenerTFO;
     lcControl := if decide (listenerFwmark ≠ 0) then Some listenerFwmark else None |}.

(** [unix.RawSockaddrInet6] and [unix.RawSockaddrInet4].  [Port],
    [Flowinfo] and the addresses are the bytes in memory, which is how
    the code writes and reads them. *)
Record RawSockaddrInet6 : Type := {
  Family : Z;
  Port : list byte;
  Flowinfo : list byte;
  Addr : list byte;
  Scope_id : Z
}.

Record RawSockaddrInet4 : Type := {
  Family4 : Z;
  Port4 : list byte;
  Addr4 : list byte;
  Zero4 : list byte
}.

(** The zero value of [unix.RawSockaddrInet6]. *)
Definition zeroInet6 : RawSockaddrInet6 :=
  {| Family := 0; Port := repeat x00 2; Flowinfo := repeat x00 4;
     Addr := repeat x00 16; Scope_id := 0 |}.

Section Sockaddr.

(** Constants of [golang.org/x/sys/unix]. *)
Variables AF_INET AF_INET6 : Z.
Variables SizeofSockaddrInet4 SizeofSockaddrInet6 : Z.

(** The two bytes that the code stores through [p]: [byte(port >> 8)]
    and [byte(port)]. *)
Definition portBytes (port : Z) : list byte :=
  [byte_of_Z (Z.shiftr port 8); byte_of_Z port].

(** [uint16(p[0])<<8 + uint16(p[1])] *)
Definition portOf (p : list byte) : Z :=
  (Z.shiftl (Z_of_byte (nth 0 p x00)) 8 mod 2 ^ 16
   + Z_of_byte (nth 1 p x00)) mod 2 ^ 16.

Definition AddrPortToSockaddrValue (addrPort : netip.AddrPort)
  : RawSockaddrInet6 * Z :=
  let (addr, port) := addrPort in
  if netip.Is4 addr then
    ({| Family := AF_INET; Port := portBytes port;
        Flowinfo := netip.As4 addr;
        Addr := Addr zeroInet6; Scope_id := Scope_id zeroInet6 |},
     SizeofSockaddrInet4)
  else
    ({| Family := AF_INET6; Port := portBytes port;
        Flowinfo := Flowinfo zeroInet6;
        Addr := netip.As16 addr; Scope_id := Scope_id zeroInet6 |},
     SizeofSockaddrInet6).

(** The error of the two conversions back. *)
Inductive sockaddrError : Type :=
| BadSockaddrLength (namelen : Z).

Definition SockaddrValueToAddrPort (rsa6 : RawSockaddrInet6) (namelen : Z)
  : netip.AddrPort + sockaddrError :=
  let port := portOf (Port rsa6) in
  if decide (namelen = SizeofSockaddrInet4) then
    inl (netip.AddrPortFrom (netip.AddrFrom4 (Flowinfo rsa6)) port)
  else if decide (namelen = SizeofSockaddrInet6) then
    inl (netip.AddrPortFrom (netip.AddrFrom16 (Addr rsa6)) port)
  else inr (BadSockaddrLength namelen).

Definition AddrPortToSockaddrInet4 (addrPort : netip.AddrPort) : RawSockaddrInet4 :=
  let (addr, port) := addrPort in
  {| Family4 := AF_INET; Port4 := portBytes port;
     Addr4 := netip.As4 addr; Zero4 := repeat x00 8 |}.

Definition AddrPortToSockaddrInet6 (addrPort : netip.AddrPort) : RawSockaddrInet6 :=
  let (addr, port) := addrPort in
  {| Family := AF_INET6; Port := portBytes port;
     Flowinfo := Flowinfo zeroInet6;
     Addr := netip.As16 addr; Scope_id := Scope_id zeroInet6 |}.

(** What [name] points to. *)
Inductive sockaddr : Type :=
| NameInet4 (rsa4 : RawSockaddrInet4)
| NameInet6 (rsa6 : RawSockaddrInet6).

Definition AddrPortToSockaddr (addrPort : netip.AddrPort) : sockaddr * Z :=
  if netip.Is4 (fst addrPort) then
    (NameInet4 (AddrPortToSockaddrInet4 addrPort), SizeofSockaddrInet4)
  else
    (NameInet6 (AddrPortToSockaddrInet6 addrPort), SizeofSockaddrInet6).

(** [SockaddrToAddrPort]: [name] is cast to the struct that [namelen]
    selects.  Both structs start with the family and the port, and the
    address of a [RawSockaddrInet4] lies where a [RawSockaddrInet6] has
    [Flowinfo]; a [RawSockaddrInet6] read through a pointer to the
    shorter struct reaches past its end, [None]. *)
Definition SockaddrToAddrPort (name : sockaddr) (namelen : Z)
  : option (netip.AddrPort + sockaddrError) :=
  if decide (namelen = SizeofSockaddrInet4) then
    let (portp, addr) :=
      match name with
      | NameInet4 rsa4 => (Port4 rsa4, Addr4 rsa4)
      | NameInet6 rsa6 => (Port rsa6, Flowinfo rsa6)
      end in
    Some (inl (netip.AddrPortFrom (netip.AddrFrom4 addr) (portOf portp)))
  else if decide (namelen = SizeofSockaddrInet6) then
    match name with
    | NameInet4 _ => None
    | NameInet6 rsa6 =>
        Some (inl (netip.AddrPortFrom (netip.AddrFrom16 (Addr rsa6))
                     (portOf (Port rsa6))))
    end
  else Some (inr (BadSockaddrLength namelen)).

End Sockaddr.

Section ControlMessage.

Variables SizeofCmsghdr SizeofInet6Pktinfo SizeofPtr : Z.

(** [SocketControlMessageBufferSize]; in Go [&] binds tighter than [+],
    and [^] on an untyped constant is the complement of the integer. *)
Definition SocketControlMessageBufferSize : Z :=
  SizeofCmsghdr
  + Z.land (SizeofInet6Pktinfo + SizeofPtr - 1) (Z.lnot (SizeofPtr - 1)).

End ControlMessage.

(** ** [WriteMsgvec] *)

(** What one [sendmmsg] system call returns: the number of messages
    sent, [EAGAIN] or [EWOULDBLOCK], or another error number. *)
Inductive sysResult : Type :=
| SysSent (r0 : Z)
| SysAgain
| SysErrno (e : Z).

Inductive writeError : Type :=
| ErrSyscallConn
| ErrSendmmsg (e : Z)
| ErrRawConn (msg : string).

(** How a call of [WriteMsgvec] ends: it returns its error, it panics on
    [&msgvec[processed]], or it is still waiting for the socket to become
    writable when the script of system call results ends.  Each carries
    the [sendmmsg] calls made, latest first, as the index of the first
    message and the number of messages passed.  [perr] is the error with
    which [rawConn.Write] gives up waiting, if it does. *)
Inductive writeOutcome : Type :=
| WriteReturned (err : option writeError) (calls : list (Z * Z))
| WritePanicked (calls : list (Z * Z))
| WriteWaiting (calls : list (Z * Z)).

Definition callsOf (o : writeOutcome) : list (Z * Z) :=
  match o with
  | WriteReturned _ calls => calls
  | WritePanicked calls => calls
  | WriteWaiting calls => calls
  end.

(** The function passed to [rawConn.Write], called again until it
    reports done; [n] is [len(msgvec)]. *)
Fixpoint writeCallback (n : Z) (processed : Z) (err : option writeError)
    (calls : list (Z * Z)) (results : list sysResult) (perr : option string)
  : writeOutcome :=
  match results with
  | [] =>
      match perr with
      | Some msg =>
          WriteReturned (match err with
                         | None => Some (ErrRawConn msg)
                         | Some e => Some e
                         end) calls
      | None => WriteWaiting calls
      end
  | r :: rest =>
      if decide (0 <= processed < n) then
        let calls := (processed, int_sub n processed) :: calls in
        match r with
        | SysAgain => writeCallback n processed err calls rest perr
        | _ =>
            let err := match r with
                       | SysErrno e => Some (ErrSendmmsg e)
                       | _ => err
                       end in
            let r0 := match r with
                      | SysSent r0 => r0
                      | _ => 1
                      end in
            let processed := int_add processed r0 in
            if decide (processed >= n) then WriteReturned err calls
            else writeCallback n processed err calls rest perr
        end
      else WritePanicked calls
  end.

Definition WriteMsgvec (syscallConn_ok : bool) (n : Z) (results : list sysResult)
    (perr : option string) : writeOutcome :=
  if syscallConn_ok then writeCallback n 0 None [] results perr
  else WriteReturned (Some ErrSyscallConn) [].

(** The messages that the returned [sendmmsg] calls sent, and the
    messages dropped because a call failed. *)
Definition sentBy (results : list sysResult) : Z :=
  foldr (fun r acc => match r with SysSent r0 => r0 + acc | _ => acc end) 0 results.

Definition droppedBy (results : list sysResult) : Z :=
  foldr (fun r acc => match r with SysErrno _ => 1 + acc | _ => acc end) 0 results.

(** What the kernel guarantees for a call that was passed [vlen]
    messages: on success between 1 and [vlen] were sent. *)
Fixpoint kernelSane (n processed : Z) (results : list sysResult) : Prop :=
  match results with
  | [] => True
  | SysSent r0 :: rest =>
      1 <= r0 <= n - processed /\ kernelSane n (processed + r0) rest
  | SysAgain :: rest => kernelSane n processed rest
  | SysErrno _ :: rest => kernelSane n (processed + 1) rest
  end.

End conn.

(** * Package [direct] *)

Module direct.

(** [zerocopy.TCPClientInfo] and [zerocopy.TCPServerInfo]. *)
Record TCPClientInfo : Type := {
  Name : string;
  NativeInitialPayload : bool
}.

Inductive TCPConnCloser : Type :=
| JustClose.

Record TCPServerInfo : Type := {
  serverNativeInitialPayload : bool;
  DefaultTCPConnCloser : TCPConnCloser
}.

Record TCPClient : Type := {
  name : string;
  dialer : conn.Dialer
}.

Definition NewTCPClient (name : string) (dialerTFO : bool) (dialerFwmark : Z)
  : TCPClient :=
  {| name := name; dialer := conn.NewDialer dialerTFO dialerFwmark |}.

Definition TCPClient_Info (c : TCPClient) : TCPClientInfo :=
  {| Name := name c; NativeInitialPayload := negb (conn.DisableTFO (dialer c)) |}.

Record Socks5TCPClient : Type := {
  s5name : string;
  s5address : string;
  s5dialer : conn.Dialer
}.

Definition NewSocks5TCPClient (name address : string) (dialerTFO : bool)
    (dialerFwmark : Z) : Socks5TCPClient :=
  {| s5name := name; s5address := address;
     s5dialer := conn.NewDialer dialerTFO dialerFwmark |}.

Definition Socks5TCPClient_Info (c : Socks5TCPClient) : TCPClientInfo :=
  {| Name := s5name c; NativeInitialPayload := false |}.

(** The three servers' [Info]. *)
Definition TCPServer_Info : TCPServerInfo :=
  {| serverNativeInitialPayload := false; DefaultTCPConnCloser := JustClose |}.

(** What [Socks5TCPClient.Dial] does to the outside, in order: the call
    of the dialer with its address and payload ([None] is nil), the
    SOCKS5 handshake for the target, the write of the payload, and the
    close of the raw connection. *)
Inductive dialEvent : Type :=
| DvDial (network address : string) (payload : option (list byte))
| DvHandshake (targetAddr : string)
| DvWriteZeroCopy (b : list byte) (payloadStart payloadLength : Z)
| DvClose.

#[global] Instance dialEvent_eq_dec : EqDecision dialEvent.
Proof. solve_decision. Defined.

(** The results of the calls that [Dial] makes; [handshake_rw] tells
    whether a handshake that fails still returns a connection. *)
Record dialEnv : Type := {
  dial_ok : bool;
  handshake_ok : bool;
  handshake_rw : bool;
  write_ok : bool
}.

(** What [Dial] returns: whether [rawRW] and [rw] are non-nil, and
    whether [err] is. *)
Record dialResult : Type := {
  rawRW_set : bool;
  rw_set : bool;
  failed : bool
}.

(** [Socks5TCPClient.Dial] *)
Definition Socks5TCPClient_Dial (c : Socks5TCPClient) (env : dialEnv)
    (targetAddr : string) (payload : list byte) : list dialEvent * dialResult :=
  let dial := DvDial "tcp" (s5address c) None in
  if negb (dial_ok env) then
    ([dial], {| rawRW_set := false; rw_set := false; failed := true |})
  else if negb (handshake_ok env) then
    ([dial; DvHandshake targetAddr; DvClose],
     {| rawRW_set := true; rw_set := handshake_rw env; failed := true |})
  else if decide (len payload > 0) then
    let write := DvWriteZeroCopy payload 0 (len payload) in
    if negb (write_ok env) then
      ([dial; DvHandshake targetAddr; write; DvClose],
       {| rawRW_set := true; rw_set := true; failed := true |})
    else
      ([dial; DvHandshake targetAddr; write],
       {| rawRW_set := true; rw_set := true; failed := false |})
  else
    ([dial; DvHandshake targetAddr],
     {| rawRW_set := true; rw_set := true; failed := false |}).

(** [TCPClient.Dial]: the payload goes to the dialer. *)
Definition TCPClient_Dial (c : TCPClient) (env : dialEnv)
    (targetAddr : string) (payload : list byte) : list dialEvent * dialResult :=
  let dial := DvDial "tcp" targetAddr (Some payload) in
  if negb (dial_ok env) then
    ([dial], {| rawRW_set := false; rw_set := false; failed := true |})
  else
    ([dial], {| rawRW_set := true; rw_set := true; failed := false |}).

(** Whether the raw connection that a trace opened is still open at its
    end, and the [WriteZeroCopy] calls of a trace. *)
Definition leftOpen (env : dialEnv) (tr : list dialEvent) : bool :=
  dial_ok env
  && negb (existsb (fun e => match e with DvClose => true | _ => false end) tr).

Definition writes (tr : list dialEvent) : list (list byte * Z * Z) :=
  omap (fun e => match e with
                 | DvWriteZeroCopy b start n => Some (b, start, n)
                 | _ => None
                 end) tr.

End direct.

(** * Properties of the credential manager *)

Module CredProps.
Import ss2022 Cred.
Local Open Scope go_scope.

Ltac unfold_go :=
  unfold updateProdULM, replaceProdULM, UpdateUserLookupMap,
    ReplaceUserLookupMap, maps.Clone, udp_attached, map_set, map_get, map_del,
    enqueueSave, Lock, Unlock, RLock, RUnlock, bind, get, ret, modify, panic in *.

Ltac go_cases :=
  repeat (simpl in *; first
    [ discriminate
    | progress simplify_eq
    | case_decide
    | case_match ]).

(** ** Frame lemmas: what the helpers leave alone *)

Lemma updateProdULM_Returned f s a s' :
  updateProdULM f s = Returned a s' ->
  s' = set_udp (udp s') (set_tcp (tcp s') s).
Proof.
  destruct s. unfold_go. intros H. go_cases; reflexivity.
Qed.

Lemma replaceProdULM_total s :
  replaceProdULM s =
  Returned tt
    (set_udp (ReplaceUserLookupMap (cachedUserLookupMap s) <$> udp s)
       (set_tcp (ReplaceUserLookupMap (cachedUserLookupMap s) <$> tcp s) s)).
Proof.
  destruct s as [? [t|] [u|] ? ? ? ? ? ?]; reflexivity.
Qed.

Lemma GetCredential_Unlocked u s :
  mu s = Unlocked ->
  GetCredential u s =
  Returned
    match map_get (cachedCredMap s) u with
    | None => ({| Name := EmptyString; UPSK := [] |}, false)
    | Some cc => ({| Name := u; UPSK := uPSK cc |}, true)
    end s.
Proof.
  destruct s; simpl; intros ->. unfold GetCredential. unfold_go. simpl.
  case_match; reflexivity.
Qed.

Lemma GetCredential_WriteLocked u s :
  mu s = WriteLocked -> GetCredential u s = Blocked s.
Proof.
  destruct s; simpl; intros ->. reflexivity.
Qed.

Section Theorems.
Variable PSKHash : list byte -> Hash.
Variable NewServerUserCipherConfig :
  string -> list byte -> bool -> ServerUserCipherConfig + string.
Variable decode : string -> gmap string (list byte) + string.
Variable rangeOrder : gmap string (list byte) -> list (string * list byte).

Local Abbreviation AddCredential := (AddCredential PSKHash NewServerUserCipherConfig).
Local Abbreviation UpdateCredential := (UpdateCredential PSKHash NewServerUserCipherConfig).
Local Abbreviation loadFromFile :=
  (loadFromFile PSKHash NewServerUserCipherConfig decode rangeOrder).
Local Abbreviation LoadFromFile :=
  (LoadFromFile PSKHash NewServerUserCipherConfig decode rangeOrder).

(** What a successful [AddCredential] has done. *)
Lemma AddCredential_success (u : string) (k : list byte) (s s' : ManagedServer) :
  AddCredential u k s = Returned None s' ->
  u ≠ EmptyString /\ len k = pskLength s /\ mu s = Unlocked /\ mu s' = Unlocked /\
  exists g gl c,
    cachedCredMap s = Some g /\ g !! u = None /\
    cachedUserLookupMap s = Some gl /\
    NewServerUserCipherConfig u k (udp_attached s) = inl c /\
    cachedCredMap s' = Some (<[u := {| uPSK := k; uPSKHash := PSKHash k |}]> g) /\
    cachedUserLookupMap s' = Some (<[PSKHash k := c]> gl).
Proof.
  destruct s. unfold Cred.AddCredential. unfold_go. intros H.
  go_cases; (repeat split; [done..|]); eexists _, _, _; repeat split; eauto.
Qed.

Local Abbreviation run := (run PSKHash NewServerUserCipherConfig).

(** C8.  If [AddCredential(u, k)] returns nil, a [GetCredential(u)] made
    right after it returns the credential [(u, k)] and [true]. *)
Theorem AddCredential_then_GetCredential
    (u : string) (k : list byte) (s s' : ManagedServer) :
  AddCredential u k s = Returned None s' ->
  GetCredential u s' = Returned ({| Name := u; UPSK := k |}, true) s'.
Proof.
  intros H. apply AddCredential_success in H.
  destruct H as (_ & _ & _ & Hmu & g & gl & c & _ & _ & _ & _ & Hg' & _).
  rewrite (GetCredential_Unlocked _ _ Hmu), Hg'. simpl.
  by rewrite lookup_insert_eq.
Qed.

(** Every error return of a mutator hands back the state it was given. *)
Lemma run_error_state (c : call) (s s' : ManagedServer) (e : error) :
  run c s = Returned (Some e) s' -> s' = s.
Proof.
  destruct s, c; simpl;
    unfold Cred.AddCredential, Cred.UpdateCredential, DeleteCredential;
    unfold_go; intros H; go_cases; reflexivity.
Qed.

Lemma run_error_rule (c : call) (s s' : ManagedServer) (e : error) :
  run c s = Returned (Some e) s' -> names_violated_rule c s e.
Proof.
  destruct s, c; simpl;
    unfold Cred.AddCredential, Cred.UpdateCredential, DeleteCredential;
    unfold_go; intros H; go_cases; unfold names_violated_rule; simpl;
    eauto 10.
Qed.

(** The three violations are reported, each by its own error. *)
Lemma AddCredential_empty_username (k : list byte) (s : ManagedServer) :
  AddCredential EmptyString k s = Returned (Some ErrEmptyUsername) s.
Proof. reflexivity. Qed.

Lemma AddCredential_wrong_length (u : string) (k : list byte) (s : ManagedServer) :
  u ≠ EmptyString -> len k ≠ pskLength s ->
  AddCredential u k s = Returned (Some (PSKLengthError k (pskLength s))) s.
Proof.
  intros Hu Hk. unfold Cred.AddCredential. unfold_go.
  repeat case_decide; done.
Qed.

Lemma UpdateCredential_wrong_length (u : string) (k : list byte) (s : ManagedServer) :
  len k ≠ pskLength s ->
  UpdateCredential u k s = Returned (Some (PSKLengthError k (pskLength s))) s.
Proof.
  intros Hk. unfold Cred.UpdateCredential. unfold_go.
  repeat case_decide; done.
Qed.

Lemma UpdateCredential_nonexistent (u : string) (k : list byte) (s : ManagedServer) :
  mu s = Unlocked -> len k = pskLength s ->
  map_get (cachedCredMap s) u = None ->
  UpdateCredential u k s = Returned (Some (ErrNonexistentUser u)) s.
Proof.
  destruct s; simpl; intros -> Hk Hu. unfold Cred.UpdateCredential. unfold_go.
  simpl. case_decide; [done|]. simpl. rewrite Hu. by case_match.
Qed.

Lemma DeleteCredential_nonexistent (u : string) (s : ManagedServer) :
  mu s = Unlocked -> map_get (cachedCredMap s) u = None ->
  DeleteCredential u s = Returned (Some (ErrNonexistentUser u)) s.
Proof.
  destruct s; simpl; intros -> Hu. unfold DeleteCredential. unfold_go.
  simpl. by rewrite Hu.
Qed.

(** C7.  An error that [AddCredential], [UpdateCredential] or
    [DeleteCredential] returns comes with the state of before the call
    (both caches, both stores, the save queue), and an error for an empty
    username, a wrong uPSK length or a nonexistent user names a rule that
    the call has indeed violated.  And a call that violates one of these
    rules is answered so: it returns, with the state of before the call,
    one of these three errors, naming a rule that the call violates (for
    a user that does not exist, once the mutex is free). *)
Theorem mutator_error_names_rule_and_mutates_nothing (c : call) (s : ManagedServer) :
  (forall s' e, run c s = Returned (Some e) s' ->
     s' = s /\ names_violated_rule c s e) /\
  (forall e0, rule_error e0 -> names_violated_rule c s e0 ->
     mu s = Unlocked ->
     exists e, run c s = Returned (Some e) s /\
               rule_error e /\ names_violated_rule c s e) /\
  (forall e0, rule_error e0 -> names_violated_rule c s e0 ->
     (forall u, e0 ≠ ErrNonexistentUser u) ->
     exists e, run c s = Returned (Some e) s /\
               rule_error e /\ names_violated_rule c s e).
Proof.
  assert (forall e, run c s = Returned (Some e) s -> rule_error e ->
            exists e', run c s = Returned (Some e') s /\
                       rule_error e' /\ names_violated_rule c s e') as Hfound.
  { intros e Hrun He. exists e. split; [done|]. split; [done|].
    by eapply run_error_rule. }
  assert (forall u k, c = CallAdd u k -> len k ≠ pskLength s ->
            exists e', run c s = Returned (Some e') s /\
                       rule_error e' /\ names_violated_rule c s e') as Hadd.
  { intros u k -> Hk. destruct (decide (u = EmptyString)) as [->|Hu].
    - apply (Hfound ErrEmptyUsername); [apply AddCredential_empty_username | done].
    - apply (Hfound (PSKLengthError k (pskLength s)));
        [by apply AddCredential_wrong_length | done]. }
  assert (forall u k, c = CallUpdate u k -> len k ≠ pskLength s ->
            exists e', run c s = Returned (Some e') s /\
                       rule_error e' /\ names_violated_rule c s e') as Hupd.
  { intros u k -> Hk. apply (Hfound (PSKLengthError k (pskLength s)));
      [by apply UpdateCredential_wrong_length | done]. }
  split; [|split].
  - intros s' e H. split; [eapply run_error_state | eapply run_error_rule]; eauto.
  - intros e0 He0 Hrule Hmu. destruct e0; try done; simpl in Hrule.
    + destruct Hrule as [k ->].
      apply (Hfound ErrEmptyUsername); [apply AddCredential_empty_username | done].
    + destruct Hrule as (Hnone & [[k ->] | ->]).
      * destruct (decide (len k = pskLength s)) as [Hk | Hk]; [|by eapply Hupd].
        apply (Hfound (ErrNonexistentUser username));
          [by apply UpdateCredential_nonexistent | done].
      * apply (Hfound (ErrNonexistentUser username));
          [by apply DeleteCredential_nonexistent | done].
    + destruct Hrule as (_ & Hk & u & [Hc | Hc]); eauto.
  - intros e0 He0 Hrule Hnot. destruct e0; try done; simpl in Hrule.
    + destruct Hrule as [k ->].
      apply (Hfound ErrEmptyUsername); [apply AddCredential_empty_username | done].
    + by destruct (Hnot username).
    + destruct Hrule as (_ & Hk & u & [Hc | Hc]); eauto.
Qed.

(** C10.  [UpdateCredential(u, k)] with [k] the uPSK that [u] already
    has returns an error and leaves the whole state as it was; when [k]
    has the configured length the error is the one for an unchanged
    uPSK, distinct from the length and nonexistent-user errors. *)
Theorem UpdateCredential_same_uPSK_is_error
    (u : string) (uc : cachedUserCredential) (s : ManagedServer) :
  mu s = Unlocked ->
  map_get (cachedCredMap s) u = Some uc ->
  exists e,
    UpdateCredential u (uPSK uc) s = Returned (Some e) s /\
    (len (uPSK uc) = pskLength s -> e = ErrSameUPSK u).
Proof.
  destruct s; simpl; intros -> Hu. unfold Cred.UpdateCredential. unfold_go.
  simpl. case_decide.
  - eexists; split; [reflexivity | done].
  - simpl. rewrite Hu. case_match; [|done].
    case_decide; [|done]. eexists; split; [reflexivity | done].
Qed.

(** ** Reloading *)

(** The two ways [LoadFromFile] returns an error: the file could not be
    read, and nothing was touched; or a later step failed, and then the
    only change is that [mu] is still held. *)
Lemma LoadFromFile_error_cases (fs : gmap string string) (s s' : ManagedServer) (e : error) :
  LoadFromFile fs s = Returned (Some e) s' ->
  (fs !! path s = None /\ s' = s) \/
  (is_Some (fs !! path s) /\ mu s = Unlocked /\ s' = set_mu WriteLocked s).
Proof.
  destruct s. unfold Cred.LoadFromFile, Cred.loadFromFile. unfold_go.
  intros H. go_cases; eauto.
Qed.

(** The cached maps, the cached content and both stores survive every
    error return of [LoadFromFile]. *)
Lemma LoadFromFile_error_keeps_data (fs : gmap string string) (s s' : ManagedServer) (e : error) :
  LoadFromFile fs s = Returned (Some e) s' ->
  cachedContent s' = cachedContent s /\
  cachedCredMap s' = cachedCredMap s /\
  cachedUserLookupMap s' = cachedUserLookupMap s /\
  tcp s' = tcp s /\ udp s' = udp s /\ saveQueue s' = saveQueue s.
Proof.
  intros H. apply LoadFromFile_error_cases in H.
  destruct H as [[_ ->] | (_ & _ & ->)]; done.
Qed.

Lemma LoadFromFile_WriteLocked (fs : gmap string string) (s : ManagedServer) :
  mu s = WriteLocked -> is_Some (fs !! path s) ->
  LoadFromFile fs s = Blocked s.
Proof.
  destruct s; simpl; intros -> [content Hc].
  unfold Cred.LoadFromFile, Cred.loadFromFile. unfold_go. simpl.
  by rewrite Hc.
Qed.

Lemma AddCredential_WriteLocked (u : string) (k : list byte) (s : ManagedServer) :
  mu s = WriteLocked -> u ≠ EmptyString -> len k = pskLength s ->
  AddCredential u k s = Blocked s.
Proof.
  destruct s; simpl; intros -> Hu Hk. unfold Cred.AddCredential. unfold_go.
  simpl. repeat case_decide; done.
Qed.

(** C2.  When [LoadFromFile] has read the file and then returns an error
    (undecodable content, a uPSK of the wrong length, a duplicate hash, a
    cipher configuration that cannot be built), the caches and stores
    are as before but [mu] is left write-locked: [GetCredential],
    [AddCredential] and a retried [LoadFromFile] then wait on it for
    ever. *)
Theorem LoadFromFile_error_leaves_mu_locked
    (fs : gmap string string) (s s' : ManagedServer) (e : error) :
  is_Some (fs !! path s) ->
  LoadFromFile fs s = Returned (Some e) s' ->
  s' = set_mu WriteLocked s /\
  (forall u, GetCredential u s' = Blocked s') /\
  (forall u k, u ≠ EmptyString -> len k = pskLength s' -> AddCredential u k s' = Blocked s') /\
  LoadFromFile fs s' = Blocked s'.
Proof.
  intros Hfs H. apply LoadFromFile_error_cases in H.
  destruct H as [[Hnone _] | (_ & _ & ->)].
  { rewrite Hnone in Hfs. by destruct Hfs. }
  split; [done|]. split; [|split].
  - intros u. by apply GetCredential_WriteLocked.
  - intros u k Hu Hk. by apply AddCredential_WriteLocked.
  - by apply LoadFromFile_WriteLocked.
Qed.

(** C4.  After a [LoadFromFile] that returned nil, a second one on the
    same file system either waits for ever on [mu] (the first one took
    the unchanged-content exit), or takes that exit itself: it returns
    nil with the caches and stores untouched but [mu] write-locked, so
    that a [GetCredential] that returned before now waits for ever. *)
Theorem LoadFromFile_again_leaves_mu_locked
    (fs : gmap string string) (s0 s1 : ManagedServer) :
  LoadFromFile fs s0 = Returned None s1 ->
  LoadFromFile fs s1 = Blocked s1 \/
  (mu s1 = Unlocked /\
   LoadFromFile fs s1 = Returned None (set_mu WriteLocked s1) /\
   forall u, GetCredential u (set_mu WriteLocked s1) = Blocked (set_mu WriteLocked s1)).
Proof.
  destruct s0. unfold Cred.LoadFromFile, Cred.loadFromFile. unfold_go.
  intros H. go_cases; eauto.
Qed.

(** ** Consistency of the two caches *)

Lemma buildMaps_consistent (udpOn : bool) (expected : Z)
    (entries : list (string * list byte))
    (lm lm' : gmap Hash ServerUserCipherConfig)
    (cm cm' : gmap string cachedUserCredential) :
  NoDup entries.*1 ->
  (forall u, u ∈ entries.*1 -> cm !! u = None) ->
  map_img (SA := gset Hash) (uPSKHash <$> cm) = dom lm ->
  buildMaps PSKHash NewServerUserCipherConfig udpOn expected entries lm cm
    = inr (lm', cm') ->
  map_img (SA := gset Hash) (uPSKHash <$> cm') = dom lm'.
Proof.
  revert lm cm. induction entries as [|[u k] rest IH]; intros lm cm Hnd Hfresh Hc; simpl.
  - intros [= <- <-]. done.
  - case_decide; [done|].
    destruct (lm !! PSKHash k) eqn:Hh; [done|].
    destruct NewServerUserCipherConfig as [c|]; [|done].
    apply IH.
    + by inversion Hnd.
    + intros u' Hu'. rewrite lookup_insert_ne.
      * apply Hfresh. simpl. by right.
      * inversion Hnd; subst. intros ->. done.
    + rewrite fmap_insert, map_img_insert_notin_L, dom_insert_L, Hc; [done|].
      rewrite lookup_fmap, Hfresh; [done|]. simpl. by left.
Qed.

(** A [LoadFromFile] that rebuilds the caches makes them consistent,
    whatever order [range] visits the decoded object in. *)
Lemma LoadFromFile_rebuild_consistent (fs : gmap string string) (s s' : ManagedServer) :
  (forall m, rangeOrder m ≡ₚ map_to_list m) ->
  LoadFromFile fs s = Returned None s' ->
  fs !! path s ≠ Some (cachedContent s) ->
  consistent s'.
Proof.
  intros Hperm. destruct s. unfold Cred.LoadFromFile, Cred.loadFromFile. unfold_go.
  intros H Hne. go_cases; try done;
    match goal with
    | Hb : buildMaps _ _ _ _ _ _ _ = inr _ |- _ =>
        unfold consistent; simpl;
        eapply buildMaps_consistent; [ | | | exact Hb];
        [ rewrite Hperm; apply NoDup_fst_map_to_list
        | done
        | by rewrite fmap_empty, map_img_empty_L, dom_empty_L ]
    end.
Qed.

(** [AddCredential] keeps the caches consistent. *)
Lemma AddCredential_consistent (u : string) (k : list byte) (s s' : ManagedServer) :
  consistent s ->
  AddCredential u k s = Returned None s' ->
  consistent s'.
Proof.
  unfold consistent. intros Hc H. apply AddCredential_success in H.
  destruct H as (_ & _ & _ & _ & g & gl & c & Hg & Hgu & Hgl & _ & -> & ->).
  rewrite Hg, Hgl in Hc. simpl in *.
  rewrite fmap_insert, map_img_insert_notin_L, dom_insert_L, Hc; [done|].
  by rewrite lookup_fmap, Hgu.
Qed.

(** [DeleteCredential] removes the hash of the deleted user from
    [cachedUserLookupMap] even when another user still holds it. *)
Lemma DeleteCredential_shared_hash (u v : string) (uc vc : cachedUserCredential)
    (s s' : ManagedServer) :
  u ≠ v ->
  map_get (cachedCredMap s) u = Some uc ->
  map_get (cachedCredMap s) v = Some vc ->
  uPSKHash uc = uPSKHash vc ->
  DeleteCredential u s = Returned None s' ->
  ¬ consistent s'.
Proof.
  intros Huv Hu Hv Hh. destruct s. unfold DeleteCredential. unfold_go.
  intros H. unfold consistent.
  assert (forall (g : gmap string cachedUserCredential) (X : gset Hash),
    g !! u = Some uc -> g !! v = Some vc -> uPSKHash vc ∉ X ->
    map_img (uPSKHash <$> delete u g) ≠ X) as Hkey.
  { intros g X _ Hgv Hnot Heq. apply Hnot. rewrite <- Heq.
    apply elem_of_map_img. exists v.
    rewrite lookup_fmap, lookup_delete_ne, Hgv; done. }
  go_cases; try (apply Hkey; [done..|]);
    first [ apply not_elem_of_empty
          | rewrite <- Hh, not_elem_of_dom; apply lookup_delete_eq ].
Qed.

End Theorems.
End CredProps.

(** * The properties at concrete inputs *)

Module CredWitness.
Import ss2022 Cred CredDemo CredProps.
Local Open Scope go_scope.

Lemma fresh_loads : demoLoad fsAlice fresh = Returned None loaded.
Proof. vm_compute. reflexivity. Qed.

(** C6.  The caches are consistent after loading [alice.json] and after
    [AddCredential("bob", keyA)], which is accepted although alice holds
    [keyA]; [DeleteCredential("bob")] then removes the common hash from
    [cachedUserLookupMap] while alice's credential stays in
    [cachedCredMap], and the caches are no longer consistent. *)
Theorem DeleteCredential_breaks_consistency :
  demoLoad fsAlice fresh = Returned None loaded /\ consistent loaded /\
  demoAdd "bob" keyA loaded = Returned None withBob /\ consistent withBob /\
  DeleteCredential "bob" withBob = Returned None bobDeleted /\
  ¬ consistent bobDeleted /\
  map_get (cachedCredMap bobDeleted) "alice" = Some aliceCred /\
  map_get (cachedUserLookupMap bobDeleted) (uPSKHash aliceCred) = None.
Proof.
  split; [vm_compute; reflexivity |].
  split; [apply (bool_decide_unpack _); vm_compute; exact I |].
  split; [vm_compute; reflexivity |].
  split; [apply (bool_decide_unpack _); vm_compute; exact I |].
  split; [vm_compute; reflexivity |].
  split; [apply (bool_decide_eq_false_1 _); vm_compute; reflexivity |].
  split; vm_compute; reflexivity.
Qed.

Lemma loaded_adds_bob : demoAdd "bob" keyA loaded = Returned None withBob.
Proof. vm_compute. reflexivity. Qed.

(** C8 at [loaded]: bob is added with [keyA] and read back. *)
Lemma AddCredential_then_GetCredential_witness :
  demoAdd "bob" keyA loaded = Returned None withBob /\
  GetCredential "bob" withBob
    = Returned ({| Name := "bob"; UPSK := keyA |}, true) withBob.
Proof.
  split; [vm_compute; reflexivity |].
  apply (AddCredential_then_GetCredential demoPSKHash demoCipherConfig
           "bob" keyA loaded withBob).
  vm_compute. reflexivity.
Defined.

(** C7 at [loaded]: deleting a user that does not exist. *)
Lemma mutator_error_witness :
  DeleteCredential "nobody" loaded
    = Returned (Some (ErrNonexistentUser "nobody")) loaded /\
  exists e,
    DeleteCredential "nobody" loaded = Returned (Some e) loaded /\
    rule_error e /\ names_violated_rule (CallDelete "nobody") loaded e.
Proof.
  split; [vm_compute; reflexivity |].
  apply (proj1 (proj2 (mutator_error_names_rule_and_mutates_nothing
                         demoPSKHash demoCipherConfig (CallDelete "nobody") loaded))
           (ErrNonexistentUser "nobody")).
  - exact I.
  - split; [vm_compute; reflexivity | right; reflexivity].
  - reflexivity.
Defined.

(** C10 at [loaded]: alice is updated to the uPSK she has. *)
Lemma UpdateCredential_same_uPSK_witness :
  exists e,
    demoUpdate "alice" keyA loaded = Returned (Some e) loaded /\
    (len keyA = pskLength loaded -> e = ErrSameUPSK "alice").
Proof.
  apply (UpdateCredential_same_uPSK_is_error demoPSKHash demoCipherConfig
           "alice" aliceCred loaded).
  - reflexivity.
  - vm_compute. reflexivity.
Defined.

(** C2 at [loaded]: the credential file has become undecodable. *)
Lemma LoadFromFile_error_witness :
  demoLoad fsBroken loaded
    = Returned (Some (ErrDecode "invalid character")) loadedLocked /\
  (loadedLocked = set_mu WriteLocked loaded /\
   (forall u, GetCredential u loadedLocked = Blocked loadedLocked) /\
   (forall u k, u ≠ EmptyString -> len k = pskLength loadedLocked ->
      demoAdd u k loadedLocked = Blocked loadedLocked) /\
   demoLoad fsBroken loadedLocked = Blocked loadedLocked).
Proof.
  split; [vm_compute; reflexivity |].
  apply (LoadFromFile_error_leaves_mu_locked demoPSKHash demoCipherConfig
           demoDecode demoRange fsBroken loaded loadedLocked
           (ErrDecode "invalid character")).
  - exists "{". vm_compute. reflexivity.
  - vm_compute. reflexivity.
Defined.

(** The same happens for a file whose one uPSK has the wrong length. *)
Example LoadFromFile_short_key :
  demoLoad fsShort loaded
    = Returned (Some (PSKLengthError shortKey 16)) loadedLocked /\
  GetCredential "alice" loaded
    = Returned ({| Name := "alice"; UPSK := keyA |}, true) loaded /\
  GetCredential "alice" loadedLocked = Blocked loadedLocked.
Proof. repeat (split; [vm_compute; reflexivity |]). vm_compute. reflexivity. Qed.

(** C4 at [fresh]: [alice.json] is loaded twice. *)
Lemma LoadFromFile_again_witness :
  demoLoad fsAlice fresh = Returned None loaded /\
  (demoLoad fsAlice loaded = Blocked loaded \/
   (mu loaded = Unlocked /\
    demoLoad fsAlice loaded = Returned None (set_mu WriteLocked loaded) /\
    forall u, GetCredential u (set_mu WriteLocked loaded)
                = Blocked (set_mu WriteLocked loaded))).
Proof.
  split; [vm_compute; reflexivity |].
  apply (LoadFromFile_again_leaves_mu_locked demoPSKHash demoCipherConfig
           demoDecode demoRange fsAlice fresh loaded).
  vm_compute. reflexivity.
Defined.

(** The second load of the unchanged file does return, with [mu] held. *)
Example LoadFromFile_again_evaluated :
  demoLoad fsAlice fresh = Returned None loaded /\
  demoLoad fsAlice loaded = Returned None loadedLocked /\
  loadedLocked ≠ loaded /\
  GetCredential "alice" loaded
    = Returned ({| Name := "alice"; UPSK := keyA |}, true) loaded /\
  GetCredential "alice" loadedLocked = Blocked loadedLocked.
Proof.
  split; [vm_compute; reflexivity |].
  split; [vm_compute; reflexivity |].
  split; [intros H; apply (f_equal mu) in H; discriminate H |].
  split; vm_compute; reflexivity.
Qed.

End CredWitness.

(** * Properties of the TCP relay *)

Module TCPRelayProps.
Import TCPRelay TCPDemo.

Lemma wrap64_small (z : Z) : - 2 ^ 63 <= z < 2 ^ 63 -> wrap64 z = z.
Proof.
  intros Hz. unfold wrap64.
  rewrite Z.mod_small by lia. lia.
Qed.

Lemma len_make_bytes (n : Z) (b : list byte) : make_bytes n = Some b -> len b = n.
Proof.
  unfold make_bytes, len. case_decide; [|done]. intros [= <-].
  rewrite repeat_length. lia.
Qed.

(** With waiting enabled and an outbound client that takes the initial
    payload natively, the block runs whatever [Accept] returned, and what
    [Accept] returned is lost: the handler behaves as if it had been nil. *)
Lemma handleConn_discards_Accept_payload (s : TCPRelay) (cn : conn) (c : TCPClient)
    (payload : list byte) :
  waitForInitialPayload s = true ->
  getTCPClient cn = Some c ->
  NativeInitialPayload c = true ->
  handleConn s (with_payload payload cn) = handleConn s (with_payload [] cn).
Proof.
  intros Hw Hc Hn. unfold handleConn, with_payload; simpl.
  destruct (accept cn); try reflexivity.
  rewrite Hc. unfold initialPayloadWait. rewrite Hw, Hn. reflexivity.
Qed.




(** [handleConn] itself makes no test of the payload that [Accept]
    returned: at a relay that has the flag set although its server
    surfaces payload, a connection whose [Accept] returned the three
    bytes 01 02 03 goes through the wait, and [Dial] is called with the
    two bytes read during the wait. *)
Example handleConn_waits_despite_Accept_payload :
  handleConn relay surfaced =
    [EvMake 1280; EvSetReadDeadline (Some 250); EvReadZeroCopy 1280 0 1280;
     EvSetReadDeadline None; EvDial "example.com:443" [x68; x69];
     EvTwoWayRelay; EvCloseRemote; EvCloseClient] /\
  waited (handleConn relay surfaced) = true /\
  dialed (handleConn relay surfaced) ≠ [[x01; x02; x03]].
Proof.
  assert (handleConn relay surfaced =
    [EvMake 1280; EvSetReadDeadline (Some 250); EvReadZeroCopy 1280 0 1280;
     EvSetReadDeadline None; EvDial "example.com:443" [x68; x69];
     EvTwoWayRelay; EvCloseRemote; EvCloseClient]) as E
    by (vm_compute; reflexivity).
  rewrite E. split; [reflexivity |]. split; [reflexivity |]. discriminate.
Qed.

Lemma conn100_trace :
  handleConn relay conn100 =
    [EvMake 140; EvSetReadDeadline (Some 250); EvReadZeroCopy 140 24 100;
     EvSetReadDeadline None; EvDial "example.com:443" (repeat x00 140);
     EvTwoWayRelay; EvCloseRemote; EvCloseClient].
Proof. vm_compute. reflexivity. Qed.

(** C3 as stated fails: for a reader whose minimum is 100, between 0 and
    1280, the payload part of the wait buffer is 100 bytes, not
    max(100, 1280) = 1280, and the buffer is 24 + 100 + 16 bytes long. *)
Lemma payloadBufSize_is_not_max :
  0 < MinPayloadBufferSizePerRead reader100 < 1280 /\
  waited (handleConn relay conn100) = true /\
  payloadBufSizeOf reader100 = 100 /\
  payloadBufSizeOf reader100 ≠ spec_payloadBufSize reader100 /\
  payloadBufSizeOf reader100 ≠ 1280 /\
  reads (handleConn relay conn100) = [(140, 24, 100)] /\
  reads (handleConn relay conn100) ≠ [(24 + 1280 + 16, 24, 1280)] /\
  allocated (handleConn relay conn100) = [140].
Proof.
  rewrite conn100_trace.
  split; [simpl; lia |].
  split; [reflexivity |].
  split; [reflexivity |].
  split; [vm_compute; discriminate |].
  split; [vm_compute; discriminate |].
  split; [reflexivity |].
  split; [simpl; discriminate | reflexivity].
Qed.

(** C3, amended.  When the relay performs the initial-payload wait, the
    buffer it allocates and reads into has size
    [frontHeadroom + payloadBufSize + rearHeadroom], where [payloadBufSize]
    is [MinPayloadBufferSizePerRead] when that is not zero and 1280 when it
    is; a reader whose minimum is positive and below 1280 gets a payload
    part of that minimum. *)
Theorem wait_buffer_size (s : TCPRelay) (cn : conn) (clientRW : ReadWriter)
    (targetAddr : Addr) (payload : list byte) :
  accept cn = Accepted clientRW targetAddr payload ->
  0 <= FrontHeadroom clientRW < 2 ^ 61 ->
  0 <= RearHeadroom clientRW < 2 ^ 61 ->
  0 <= MinPayloadBufferSizePerRead clientRW < 2 ^ 61 ->
  waited (handleConn s cn) = true ->
  let payloadBufSize :=
    if decide (MinPayloadBufferSizePerRead clientRW = 0) then 1280
    else MinPayloadBufferSizePerRead clientRW in
  let bufLen := FrontHeadroom clientRW + payloadBufSize + RearHeadroom clientRW in
  allocated (handleConn s cn) = [bufLen] /\
  reads (handleConn s cn) = [(bufLen, FrontHeadroom clientRW, payloadBufSize)] /\
  (0 < MinPayloadBufferSizePerRead clientRW < 1280 ->
   payloadBufSize = MinPayloadBufferSizePerRead clientRW).
Proof.
  intros Hacc Hf Hr Hm Hw payloadBufSize bufLen.
  assert (payloadBufSizeOf clientRW = payloadBufSize) as Hpbs by reflexivity.
  assert (0 < payloadBufSize < 2 ^ 61) as Hrange.
  { unfold payloadBufSize. case_decide; lia. }
  assert (int_add (int_add (FrontHeadroom clientRW) payloadBufSize) (RearHeadroom clientRW)
          = bufLen) as Hsum.
  { unfold int_add, bufLen. rewrite (wrap64_small (_ + payloadBufSize)) by lia.
    apply wrap64_small. lia. }
  split; [| split; [| unfold payloadBufSize; case_decide; lia]];
    revert Hw; unfold handleConn, initialPayloadWait;
    rewrite Hacc, Hpbs, Hsum;
    (destruct (parseAddr_ok cn), (addrPort_ok cn); simpl; try discriminate);
    (destruct (getTCPClient cn) as [c|]; [| discriminate]);
    (destruct (waitForInitialPayload s && NativeInitialPayload c);
       [| simpl; destruct (Dial c targetAddr payload); discriminate]);
    (destruct (make_bytes bufLen) as [buf|] eqn:Hmk; [| discriminate]);
    apply len_make_bytes in Hmk; rewrite Hmk;
    (destruct (setReadDeadline_ok cn); simpl; [| discriminate]);
    (destruct (ReadZeroCopy clientRW buf _ _) as [b' pl|b'|]; simpl;
       [ destruct (slice b' _ _) as [p'|]; simpl;
           [ destruct (resetReadDeadline_ok cn); simpl;
               [ destruct (Dial c targetAddr p') |] |]
       | destruct (resetReadDeadline_ok cn); simpl;
           [ destruct (Dial c targetAddr b') |]
       | ]);
    reflexivity.
Qed.

(** C3, amended, at [conn100]. *)
Lemma wait_buffer_size_witness :
  let payloadBufSize :=
    if decide (MinPayloadBufferSizePerRead reader100 = 0) then 1280
    else MinPayloadBufferSizePerRead reader100 in
  let bufLen := FrontHeadroom reader100 + payloadBufSize + RearHeadroom reader100 in
  allocated (handleConn relay conn100) = [bufLen] /\
  reads (handleConn relay conn100) = [(bufLen, FrontHeadroom reader100, payloadBufSize)] /\
  (0 < MinPayloadBufferSizePerRead reader100 < 1280 ->
   payloadBufSize = MinPayloadBufferSizePerRead reader100).
Proof.
  apply (wait_buffer_size relay conn100 reader100 "example.com:443" []).
  - reflexivity.
  - simpl; lia.
  - simpl; lia.
  - simpl; lia.
  - vm_compute. reflexivity.
Defined.

End TCPRelayProps.

(** * Properties of the UDP session relay *)

Module UDPSessionRelayProps.
Import UDPSessionRelay UDPDemo.
Local Open Scope nat_scope.

(** ** The downstream worker's buffer *)

Lemma wrap64_id (z : Z) : (- 2 ^ 63 <= z < 2 ^ 63)%Z -> wrap64 z = z.
Proof.
  intros Hz. unfold wrap64. rewrite Z.mod_small by lia. lia.
Qed.

Lemma downstreamLoop_allocates_nothing (frontHeadroom : Z)
    (packetBuf recvBuf : list byte) (replies : list reply) :
  allocations (downstreamLoop frontHeadroom packetBuf recvBuf replies) = [].
Proof.
  induction replies as [|r rest IH]; [done|].
  destruct r; simpl; unfold allocations in *; simpl; done.
Qed.

(** C9.  The downstream worker of a session allocates one buffer and no
    other, of length [frontHeadroom + maxClientPacketSize + rearHeadroom],
    the two headrooms being the differences between the server-side and
    the outbound packer's headrooms where these are positive, and zero
    otherwise. *)
Theorem downstream_worker_allocates_one_buffer (entry : session) (replies : list reply) :
  (0 <= FrontHeadroom (serverConnPacker entry) < 2 ^ 61)%Z ->
  (0 <= RearHeadroom (serverConnPacker entry) < 2 ^ 61)%Z ->
  (0 <= FrontHeadroom (natConnPacker entry) < 2 ^ 61)%Z ->
  (0 <= RearHeadroom (natConnPacker entry) < 2 ^ 61)%Z ->
  (0 <= maxClientPacketSize entry < 2 ^ 61)%Z ->
  let frontHeadroom :=
    Z.max (FrontHeadroom (serverConnPacker entry) - FrontHeadroom (natConnPacker entry)) 0 in
  let rearHeadroom :=
    Z.max (RearHeadroom (serverConnPacker entry) - RearHeadroom (natConnPacker entry)) 0 in
  allocations (relayNatConnToServerConnGeneric entry replies)
    = [(frontHeadroom + maxClientPacketSize entry + rearHeadroom)%Z].
Proof.
  intros HsF HsR HcF HcR Hmax frontHeadroom rearHeadroom.
  unfold relayNatConnToServerConnGeneric.
  set (fh := if decide (_ > _)%Z then _ else 0%Z).
  set (rh := if decide (_ > _)%Z then _ else 0%Z).
  assert (fh = frontHeadroom) as ->.
  { unfold fh, frontHeadroom, int_sub. case_decide; [rewrite wrap64_id|]; lia. }
  assert (rh = rearHeadroom) as ->.
  { unfold rh, rearHeadroom, int_sub. case_decide; [rewrite wrap64_id|]; lia. }
  assert (0 <= frontHeadroom < 2 ^ 61)%Z by (unfold frontHeadroom; lia).
  assert (0 <= rearHeadroom < 2 ^ 61)%Z by (unfold rearHeadroom; lia).
  unfold int_add. rewrite (wrap64_id (frontHeadroom + _)) by lia.
  rewrite wrap64_id by lia.
  unfold make_bytes. case_decide; [|lia].
  unfold slice. case_decide as Hs.
  - unfold allocations; simpl. fold (allocations (downstreamLoop frontHeadroom
      (repeat x00 (Z.to_nat (frontHeadroom + maxClientPacketSize entry + rearHeadroom)))
      (take (Z.to_nat (frontHeadroom + maxClientPacketSize entry - frontHeadroom))
         (drop (Z.to_nat frontHeadroom)
            (repeat x00 (Z.to_nat (frontHeadroom + maxClientPacketSize entry + rearHeadroom)))))
      replies)).
    by rewrite downstreamLoop_allocates_nothing.
  - exfalso. apply Hs. unfold len. rewrite repeat_length. lia.
Qed.

(** ** Accounting for the packet buffers *)

Lemma returnedBy_Put (who who' : actor) (b b' : bufp) (st : state) :
  returnedBy who b (Put who' b' st)
    = (if decide (who' = who) then if decide (b' = b) then 1 else 0 else 0)
      + returnedBy who b st.
Proof.
  unfold returnedBy; simpl. rewrite filter_cons.
  repeat case_decide; simplify_eq; done.
Qed.

Lemma sent_logSend (b b' : bufp) (st : state) :
  sent b (logSend b' st) = (if decide (b' = b) then 1 else 0) + sent b st.
Proof.
  unfold sent; simpl. rewrite filter_cons. by case_decide.
Qed.

Lemma queued_insert (b : bufp) (idx : nat) (e e' : session) (l : list session) :
  l !! idx = Some e ->
  sum_list_with (queuedIn b) (<[idx := e']> l) + queuedIn b e
    = sum_list_with (queuedIn b) l + queuedIn b e'.
Proof.
  revert idx. induction l as [|x l IH]; intros [|idx] Hl; simplify_eq/=.
  - lia.
  - specialize (IH _ Hl). lia.
Qed.

Lemma queuedIn_push (b : bufp) (pkt : queuedPacket) (e : session) :
  queuedIn b (set_natConnSendCh (natConnSendCh e ++ [pkt]) e)
    = queuedIn b e + (if decide (qp_bufp pkt = b) then 1 else 0).
Proof.
  unfold queuedIn; simpl. rewrite filter_app, length_app, filter_cons.
  by case_decide.
Qed.

Lemma queuedIn_pop (b : bufp) (pkt : queuedPacket) (rest : list queuedPacket) (e : session) :
  natConnSendCh e = pkt :: rest ->
  queuedIn b e
    = queuedIn b (set_natConnSendCh rest e) + (if decide (qp_bufp pkt = b) then 1 else 0).
Proof.
  unfold queuedIn; simpl. intros ->. rewrite filter_cons.
  case_decide; simpl; lia.
Qed.

Lemma table_ok_insert (st : state) (idx : nat) (e e' : session) :
  table_ok st ->
  sessions st !! idx = Some e ->
  sendChClosed e' = sendChClosed e -> csid e' = csid e ->
  table_ok (set_sessions (<[idx := e']> (sessions st)) st).
Proof.
  intros Hok He Hc Hk k i Hki. simpl in *.
  destruct (Hok k i Hki) as (x & Hx & Hopen & Hcsid).
  destruct (decide (i = idx)) as [-> | Hne].
  - exists e'. simplify_eq. split; [|split; congruence].
    apply list_lookup_insert_eq. by eapply lookup_lt_Some.
  - exists x. by rewrite list_lookup_insert_ne.
Qed.

Section Accounting.
Variable sendChannelCapacity : nat.
Variables IPv4HeaderLength IPv6HeaderLength UDPHeaderLength : Z.

Local Abbreviation trySend := (trySend sendChannelCapacity).
Local Abbreviation receiveIteration :=
  (receiveIteration sendChannelCapacity IPv4HeaderLength IPv6HeaderLength UDPHeaderLength).
Local Abbreviation exec :=
  (exec sendChannelCapacity IPv4HeaderLength IPv6HeaderLength UDPHeaderLength).
Local Abbreviation run :=
  (run sendChannelCapacity IPv4HeaderLength IPv6HeaderLength UDPHeaderLength).

(** A receive-loop iteration that returns its buffer itself. *)
Lemma drop_Inv (st0 st : state) :
  Inv st0 ->
  gets st = S (gets st0) -> puts st = puts st0 -> sends st = sends st0 ->
  table st = table st0 -> sessions st = sessions st0 ->
  Inv (Put ReceiveLoop (gets st0) st).
Proof.
  intros [Hok Hacc] Hg Hp Hs Ht Hss. split.
  - intros k idx. simpl. rewrite Ht, Hss. apply Hok.
  - intros b. specialize (Hacc b). unfold accounted in *.
    rewrite !returnedBy_Put. unfold returnedBy, sent, queued in *. simpl.
    rewrite Hg, Hp, Hs, Hss.
    repeat case_decide; simplify_eq; lia.
Qed.

(** The non-blocking send at the end of an iteration, for the buffer
    borrowed at its start. *)
Lemma trySend_Inv (st0 st st' : state) (idx : nat) (entry : session)
    (pkt : queuedPacket) (c : control) :
  Inv st0 ->
  gets st = S (gets st0) -> puts st = puts st0 -> sends st = sends st0 ->
  (forall b, queued b st = queued b st0) ->
  table_ok st ->
  sessions st !! idx = Some entry ->
  sendChClosed entry = false ->
  qp_bufp pkt = gets st0 ->
  trySend idx entry pkt st = (st', c) ->
  c = Continue /\ Inv st'.
Proof.
  intros [_ Hacc] Hg Hp Hs Hq Hok He Hopen Hb. unfold UDPSessionRelay.trySend.
  rewrite Hopen. case_decide; intros [= <- <-]; (split; [done|]).
  - split.
    + apply (table_ok_insert st idx entry); done.
    + intros b. specialize (Hacc b). specialize (Hq b). unfold accounted in *.
      rewrite !sent_logSend.
      pose proof (queued_insert b idx entry
                    (set_natConnSendCh (natConnSendCh entry ++ [pkt]) entry)
                    (sessions st) He) as Hins.
      rewrite queuedIn_push in Hins.
      unfold returnedBy, sent, queued in *. simpl. rewrite Hg, Hp, Hs, Hb.
      rewrite Hb in Hins.
      repeat case_decide; simplify_eq; lia.
  - split.
    + intros k i. simpl. apply Hok.
    + intros b. specialize (Hacc b). specialize (Hq b). unfold accounted in *.
      rewrite !returnedBy_Put. unfold returnedBy, sent, queued in *. simpl.
      rewrite Hg, Hp, Hs, Hb.
      repeat case_decide; simplify_eq; lia.
Qed.

(** On a full send channel the packet is dropped: the receive loop
    returns the buffer itself and goes on to the next datagram. *)
Lemma trySend_full (idx : nat) (entry : session) (pkt : queuedPacket) (st : state) :
  sendChClosed entry = false ->
  sendChannelCapacity <= length (natConnSendCh entry) ->
  trySend idx entry pkt st = (Put ReceiveLoop (qp_bufp pkt) st, Continue).
Proof.
  intros Hopen Hfull. unfold UDPSessionRelay.trySend. rewrite Hopen.
  case_decide; [lia | done].
Qed.

Lemma receiveIteration_Inv (dg : datagram) (st st' : state) (c : control) :
  Inv st ->
  receiveIteration dg st = (st', c) ->
  c ≠ Panic /\ gets st' = S (gets st) /\ Inv st'.
Proof.
  intros HI. pose proof HI as [Hok Hacc].
  unfold UDPSessionRelay.receiveIteration, Get.
  set (st1 := {| mtu := mtu st; table := table st; sessions := sessions st;
                 gets := S (gets st); puts := puts st; sends := sends st;
                 warns := warns st |}).
  assert (Inv (Put ReceiveLoop (gets st) st1)) as Hd1
    by (apply drop_Inv; done).
  assert (Inv (Put ReceiveLoop (gets st) (Warn st1))) as Hd2
    by (apply drop_Inv; done).
  assert (forall idx entry pkt st2,
    trySend idx entry pkt st2 = (st', c) ->
    gets st2 = S (gets st) -> puts st2 = puts st -> sends st2 = sends st ->
    (forall b, queued b st2 = queued b st) ->
    table_ok st2 -> sessions st2 !! idx = Some entry ->
    sendChClosed entry = false -> qp_bufp pkt = gets st ->
    c ≠ Panic /\ gets st' = S (gets st) /\ Inv st') as Hsend.
  { intros idx entry pkt st2 Heq Hg Hp Hs Hq Hok2 He Hopen Hb.
    pose proof Heq as Hgets.
    eapply (trySend_Inv st st2) in Heq as [-> HI']; eauto.
    split; [done|]. split; [|done].
    revert Hgets. unfold UDPSessionRelay.trySend. rewrite Hopen.
    case_decide; intros [= <-]; done. }
  assert (Inv (Put ReceiveLoop (gets st) (Warn (Warn st1)))) as Hd3
    by (apply drop_Inv; done).
  destruct (read dg); [| intros [= <- <-]; done | intros [= <- <-]; done].
  destruct (flags_ok dg); simpl; [| intros [= <- <-]; done].
  destruct (sessionInfo dg) as [k|]; [| intros [= <- <-]; done].
  destruct (table st !! k) as [idx|] eqn:Hk.
  - destruct (Hok k idx Hk) as (e & He & Hopen & Hcsid). rewrite He.
    destruct (unpack_ok dg); simpl; [| intros [= <- <-]; done].
    assert (forall b, sum_list_with (queuedIn b)
                        (<[idx := set_clientAddrPort (dg_clientAddrPort dg) e]> (sessions st))
                      = queued b st) as Hq.
    { intros b. unfold queued.
      pose proof (queued_insert b idx e (set_clientAddrPort (dg_clientAddrPort dg) e)
                    (sessions st) He) as Hins.
      unfold queuedIn in *; simpl in *. lia. }
    assert (table_ok (set_sessions
              (<[idx := set_clientAddrPort (dg_clientAddrPort dg) e]> (sessions st1)) st1))
      as Hok1 by (apply (table_ok_insert st1 idx e); done).
    assert (<[idx := set_clientAddrPort (dg_clientAddrPort dg) e]> (sessions st) !! idx
            = Some (set_clientAddrPort (dg_clientAddrPort dg) e)) as Hidx
      by (apply list_lookup_insert_eq; by eapply lookup_lt_Some).
    destruct (updateOobCache_ok dg); intros Hts;
      apply (Hsend _ _ _ _ Hts); done.
  - destruct (newUnpacker_ok dg); simpl; [| intros [= <- <-]; done].
    destruct (unpack_ok dg); simpl; [| intros [= <- <-]; done].
    destruct (getUDPClient dg) as [cl|]; [| intros [= <- <-]; done].
    destruct (newSession cl) as [np|]; [| intros [= <- <-]; done].
    destruct (newPacker dg) as [sp|]; [| intros [= <- <-]; done].
    destruct (listenUDP_ok dg); simpl; [| intros [= <- <-]; done].
    destruct (setReadDeadline_ok dg); simpl;
      [| destruct (listenUDP_serr dg); intros [= <- <-]; done].
    match goal with |- trySend _ ?entry _ _ = _ -> _ => set (e := entry) end.
    assert (forall b, sum_list_with (queuedIn b) (sessions st ++ [e]) = queued b st) as Hq.
    { intros b. unfold queued. rewrite sum_list_with_app. simpl.
      change (queuedIn b e + 0) with 0. lia. }
    assert (forall k' i, <[k := length (sessions st)]> (table st) !! k' = Some i ->
              exists x, (sessions st ++ [e]) !! i = Some x /\
                        sendChClosed x = false /\ csid x = k') as Hok1.
    { intros k' i. rewrite lookup_insert. case_decide.
      - intros [= <-]. subst k'. exists e. split; [|done].
        rewrite lookup_app_r by lia. by rewrite Nat.sub_diag.
      - intros Hk'. destruct (Hok k' i Hk') as (x & Hx & ? & ?).
        exists x. split; [|done]. by apply lookup_app_l_Some. }
    assert ((sessions st ++ [e]) !! length (sessions st) = Some e) as Hidx
      by (rewrite lookup_app_r by lia; by rewrite Nat.sub_diag).
    destruct (listenUDP_serr dg), (updateOobCache_ok dg); intros Hts;
      apply (Hsend _ _ _ _ Hts); done.
Qed.

(** An iteration of the receive loop disposes of the buffer it borrowed
    in one of two ways: it returns it to the pool, or a send channel takes
    it. *)
Lemma receiveIteration_returns_or_sends (dg : datagram) (st st' : state) (c : control) :
  receiveIteration dg st = (st', c) ->
  c ≠ Panic ->
  (puts st' = (ReceiveLoop, gets st) :: puts st /\ sends st' = sends st) \/
  (puts st' = puts st /\ sends st' = gets st :: sends st).
Proof.
  unfold UDPSessionRelay.receiveIteration, UDPSessionRelay.trySend, Get.
  intros H Hc. repeat case_match; simplify_eq; simpl; auto.
Qed.

Lemma upstreamIteration_Inv (idx : nat) (fw : forwarding) (st st' : state) (c : control) :
  Inv st ->
  upstreamIteration idx fw st = (st', c) ->
  c ≠ Panic /\ gets st' = gets st /\ Inv st'.
Proof.
  intros HI. pose proof HI as [Hok Hacc]. unfold upstreamIteration.
  destruct (sessions st !! idx) as [e|] eqn:He; [| intros [= <- <-]; done].
  destruct (natConnSendCh e) as [|pkt rest] eqn:Hch.
  { destruct (sendChClosed e); intros [= <- <-]; done. }
  set (e1 := set_natConnSendCh rest e).
  set (st1 := set_sessions (<[idx := e1]> (sessions st)) st).
  assert (forall st2,
    gets st2 = gets st -> puts st2 = puts st -> sends st2 = sends st ->
    table st2 = table st ->
    (exists e2, sessions st2 = <[idx := e2]> (sessions st) /\
                natConnSendCh e2 = rest /\ sendChClosed e2 = sendChClosed e /\
                csid e2 = csid e) ->
    Inv (Put UpstreamWorker (qp_bufp pkt) st2)) as Hput.
  { intros st2 Hg Hp Hs Ht (e2 & Hss & Hrest & Hc2 & Hk2). split.
    - intros k i Hki. simpl in *. rewrite Ht in Hki. rewrite Hss.
      destruct (Hok k i Hki) as (x & Hx & Hopen & Hcsid).
      destruct (decide (i = idx)) as [-> | Hne].
      + exists e2. simplify_eq. split; [|split; congruence].
        apply list_lookup_insert_eq. by eapply lookup_lt_Some.
      + exists x. by rewrite list_lookup_insert_ne.
    - intros b. specialize (Hacc b). unfold accounted in *.
      rewrite !returnedBy_Put.
      pose proof (queued_insert b idx e e2 (sessions st) He) as Hins.
      rewrite (queuedIn_pop b pkt rest e Hch) in Hins.
      assert (queuedIn b e2 = queuedIn b (set_natConnSendCh rest e)) as Heq
        by (unfold queuedIn; simpl; by rewrite Hrest).
      unfold returnedBy, sent, queued in *. simpl. rewrite Hg, Hp, Hs, Hss.
      repeat case_decide; simplify_eq; lia. }
  assert (Inv (Put UpstreamWorker (qp_bufp pkt) st1)) as H1
    by (apply Hput; try done; exists e1; done).
  assert (Inv (Put UpstreamWorker (qp_bufp pkt) (Warn st1))) as H2
    by (apply Hput; try done; exists e1; done).
  assert (forall a, Inv (Put UpstreamWorker (qp_bufp pkt)
            (set_sessions (<[idx := set_cachedTargetAddr a e1]> (sessions st1)) st1))) as H3.
  { intros a. apply Hput; try done. exists (set_cachedTargetAddr a e1).
    simpl. by rewrite list_insert_insert_eq. }
  assert (forall a, Inv (Put UpstreamWorker (qp_bufp pkt)
            (Warn (set_sessions (<[idx := set_cachedTargetAddr a e1]> (sessions st1)) st1)))) as H4.
  { intros a. apply Hput; try done. exists (set_cachedTargetAddr a e1).
    simpl. by rewrite list_insert_insert_eq. }
  destruct (pack_ok fw); simpl; [| intros [= <- <-]; done].
  destruct (negb (natConnUseFixedTargetAddrPort e) && _); simpl.
  - destruct (addrPort_ok fw); simpl; [| intros [= <- <-]; done].
    destruct (write_ok fw); intros [= <- <-]; done.
  - destruct (write_ok fw); intros [= <- <-]; done.
Qed.


Lemma teardown_Inv (idx : nat) (st st' : state) (c : control) :
  Inv st ->
  teardown idx st = (st', c) ->
  c ≠ Panic ->
  gets st' = gets st /\ Inv st'.
Proof.
  intros [Hok Hacc]. unfold teardown.
  destruct (sessions st !! idx) as [e|] eqn:He; [| intros [= <- <-]; done].
  destruct (sendChClosed e) eqn:Hopen; intros [= <- <-]; [done|].
  intros _. split; [done|]. split.
  - intros k i. simpl. rewrite lookup_delete. case_decide; [done|].
    intros Hki. destruct (Hok k i Hki) as (x & Hx & Hxo & Hxk).
    destruct (decide (i = idx)) as [-> | Hne]; [congruence|].
    exists x. by rewrite list_lookup_insert_ne.
  - intros b. specialize (Hacc b). unfold accounted in *.
    pose proof (queued_insert b idx e (set_sendChClosed true e) (sessions st) He) as Hins.
    unfold returnedBy, sent, queued, queuedIn in *. simpl in *.
    repeat case_decide; lia.
Qed.

(** The only step that can panic is the teardown of a session that does
    not exist or whose channel is closed already, which no goroutine
    performs: a session's downstream goroutine ends once. *)
Lemma exec_no_panic (a : action) (st : state) :
  Inv st ->
  (forall idx, a = Teardown idx ->
     exists e, sessions st !! idx = Some e /\ sendChClosed e = false) ->
  snd (exec a st) ≠ Panic.
Proof.
  intros HI Hen. destruct a as [dg | idx fw | idx]; simpl.
  - destruct (receiveIteration dg st) as [st' c] eqn:E.
    by apply receiveIteration_Inv in E as [? _].
  - destruct (upstreamIteration idx fw st) as [st' c] eqn:E.
    by apply upstreamIteration_Inv in E as [? _].
  - destruct (Hen idx eq_refl) as (e & He & Hopen).
    unfold teardown. by rewrite He, Hopen.
Qed.

Lemma init_Inv (mtu : Z) : Inv (init mtu).
Proof.
  split.
  - intros k idx. unfold init; simpl. by rewrite lookup_empty.
  - intros b. unfold accounted.
    destruct (decide (b < gets (init mtu))) as [Hlt|_]; [simpl in Hlt; lia | done].
Qed.

Lemma run_Inv (acts : list action) (st st' : state) (c : control) :
  Inv st ->
  run acts st = (st', c) ->
  c ≠ Panic ->
  Inv st'.
Proof.
  revert st. induction acts as [|a rest IH]; intros st HI; simpl.
  - intros [= <- <-]. done.
  - destruct (exec a st) as [st1 c1] eqn:Hex.
    assert (c1 ≠ Panic -> Inv st1) as Hstep.
    { destruct a; simpl in Hex.
      - apply receiveIteration_Inv in Hex; [tauto | done].
      - apply upstreamIteration_Inv in Hex; [tauto | done].
      - intros Hc. eapply teardown_Inv in Hex; [tauto | done | done]. }
    destruct c1; [ eauto | eauto | intros [= <- <-]; done ].
Qed.

(** ** What one iteration of the receive loop does with its buffer *)

(** A datagram that fails on its way, and one that does not. *)
#[local] Ltac pick_failure :=
  first
    [ by left | by (right; left) | by (do 2 right; left) | by (do 3 right; left)
    | do 4 right; eexists; (split; [done|]); (split; [done|]);
      first
        [ by left | by (right; left)
        | by (do 2 right; left; eexists; split)
        | by (do 3 right; left) | by (do 4 right; left) | by (do 5 right) ] ].
#[local] Ltac does_fail :=
  left; simpl; (split; [pick_failure|]);
  do 5 (split; [done|]);
  first [ by (left; repeat split) | right; repeat split; (done || lia) ].
#[local] Ltac not_fails :=
  intros [?|[?|[?|[?|(? & ? & ? & [?|[?|[(? & ? & ?)|[?|[?|?]]]]])]]]];
  simplify_eq; congruence.

(** The three ways an iteration of the receive loop ends: the datagram
    fails and the loop returns the buffer, leaving the sessions alone;
    the send channel is full and the loop returns the buffer; or the
    channel takes the buffer. *)
Lemma receiveIteration_outcome (dg : datagram) (st st' : state) (c : control) :
  table_ok st ->
  receiveIteration dg st = (st', c) ->
  (fails dg st /\
   table st' = table st /\ sessions st' = sessions st /\
   puts st' = (ReceiveLoop, gets st) :: puts st /\ sends st' = sends st /\
   gets st' = S (gets st) /\
   (read dg = ReadClosed /\ c = Break /\ warns st' = warns st \/
    read dg ≠ ReadClosed /\ c = Continue /\ warns st < warns st')) \/
  (~ fails dg st /\ channelFull sendChannelCapacity dg st /\ c = Continue /\
   puts st' = (ReceiveLoop, gets st) :: puts st /\ sends st' = sends st) \/
  (~ fails dg st /\ ~ channelFull sendChannelCapacity dg st /\ c = Continue /\
   puts st' = puts st /\ sends st' = gets st :: sends st).
Proof.
  intros Hok. unfold UDPSessionRelay.receiveIteration, Get, UDPSessionRelay.trySend,
    fails, channelFull.
  destruct (read dg) eqn:Hread;
    [| intros [= <- <-]; does_fail
     | intros [= <- <-]; does_fail].
  destruct (flags_ok dg) eqn:Hflags; simpl;
    [| intros [= <- <-]; does_fail].
  destruct (sessionInfo dg) as [k|] eqn:Hk;
    [| intros [= <- <-]; does_fail].
  destruct (table st !! k) as [idx|] eqn:Htable.
  - destruct (Hok k idx Htable) as (e & He & Hopen & _). rewrite He.
    destruct (unpack_ok dg) eqn:Hunpack; simpl;
      [| intros [= <- <-]; does_fail].
    rewrite Hopen. case_decide as Hroom; simpl in Hroom.
    + destruct (updateOobCache_ok dg); intros [= <- <-]; right; right; simpl;
        (split; [not_fails|]); (split; [|done]);
        intros (k0 & [= <-] & Hfull); rewrite Htable in Hfull;
        destruct Hfull as (e0 & He0 & Hlen); simplify_eq; lia.
    + destruct (updateOobCache_ok dg); intros [= <- <-]; right; left; simpl;
        (split; [not_fails|]); (split; [|done]);
        exists k; (split; [done|]); rewrite Htable; exists e; (split; [done|]); lia.
  - destruct (newUnpacker_ok dg) eqn:Hnew; simpl;
      [| intros [= <- <-]; does_fail].
    destruct (unpack_ok dg) eqn:Hunpack; simpl;
      [| intros [= <- <-]; does_fail].
    destruct (getUDPClient dg) as [cl|] eqn:Hcl;
      [| intros [= <- <-]; does_fail].
    destruct (newSession cl) as [np|] eqn:Hnp;
      [| intros [= <- <-]; does_fail].
    destruct (newPacker dg) as [sp|] eqn:Hsp;
      [| intros [= <- <-]; does_fail].
    destruct (listenUDP_ok dg) eqn:Hlisten; simpl;
      [| intros [= <- <-]; does_fail].
    destruct (setReadDeadline_ok dg) eqn:Hdl; simpl;
      [| destruct (listenUDP_serr dg); intros [= <- <-]; does_fail].
    case_decide as Hroom; simpl in Hroom.
    + destruct (listenUDP_serr dg), (updateOobCache_ok dg); intros [= <- <-];
        right; right; simpl;
        (split; [not_fails|]); (split; [|done]);
        intros (k0 & [= <-] & Hfull); rewrite Htable in Hfull; lia.
    + destruct (listenUDP_serr dg), (updateOobCache_ok dg); intros [= <- <-];
        right; left; simpl;
        (split; [not_fails|]); (split; [|done]);
        exists k; (split; [done|]); rewrite Htable; lia.
Qed.

(** ** A queued packet on its way to the upstream worker *)










Lemma upstreamSteps_only (idx : nat) (fws : list forwarding) :
  upstreamSteps idx (Upstream idx <$> fws) = length fws.
Proof.
  induction fws as [|fw fws IH]; [done|].
  cbn [fmap list_fmap upstreamSteps]. rewrite decide_True by done.
  simpl. f_equal. exact IH.
Qed.





End Accounting.

(** The schedule of [UDPDemo]: buffers 0 and 1 go through the channel and
    come back from the worker, buffer 2 finds the channel full and buffer
    3 is truncated, and both come back from the receive loop. *)
Example demoRun_puts :
  puts (fst demoRun)
    = [(UpstreamWorker, 1); (UpstreamWorker, 0); (ReceiveLoop, 3); (ReceiveLoop, 2)] /\
  sends (fst demoRun) = [1; 0] /\
  gets (fst demoRun) = 4 /\
  snd demoRun = Continue.
Proof. vm_compute. done. Qed.


(** C9 for [session7]: 16 + 1472 + 0 bytes. *)
Lemma downstream_worker_allocates_one_buffer_witness :
  allocations (relayNatConnToServerConnGeneric session7
                 [Written; ReadError; ReadDeadlineExceeded])
    = [(Z.max (24 - 8) 0 + 1472 + Z.max (16 - 32) 0)%Z].
Proof.
  apply (downstream_worker_allocates_one_buffer session7
           [Written; ReadError; ReadDeadlineExceeded]); simpl; lia.
Defined.

End UDPSessionRelayProps.

(** * Further properties of the credential manager *)

Module CredExtra.
Import ss2022 Cred CredDemo CredProps.
Local Open Scope go_scope.

Section Extra.
Variable PSKHash : list byte -> Hash.
Variable NewServerUserCipherConfig :
  string -> list byte -> bool -> ServerUserCipherConfig + string.
Variable decode : string -> gmap string (list byte) + string.
Variable rangeOrder : gmap string (list byte) -> list (string * list byte).

Local Abbreviation AddCredential := (AddCredential PSKHash NewServerUserCipherConfig).
Local Abbreviation UpdateCredential := (UpdateCredential PSKHash NewServerUserCipherConfig).
Local Abbreviation LoadFromFile :=
  (LoadFromFile PSKHash NewServerUserCipherConfig decode rangeOrder).
Local Abbreviation RegisterServer :=
  (RegisterServer PSKHash NewServerUserCipherConfig decode rangeOrder).
Local Abbreviation run := (run PSKHash NewServerUserCipherConfig).
Local Abbreviation runs := (runs PSKHash NewServerUserCipherConfig).
Local Abbreviation buildMaps := (buildMaps PSKHash NewServerUserCipherConfig).

(** ** What the successful mutators have done *)

Lemma AddCredential_done (u : string) (k : list byte) (s s' : ManagedServer) :
  AddCredential u k s = Returned None s' ->
  exists g gl c,
    cachedCredMap s = Some g /\ g !! u = None /\
    cachedUserLookupMap s = Some gl /\
    NewServerUserCipherConfig u k (udp_attached s) = inl c /\
    cachedCredMap s' = Some (<[u := credentialOf PSKHash k]> g) /\
    cachedUserLookupMap s' = Some (<[PSKHash k := c]> gl) /\
    store_updated (fun m => map_set m (PSKHash k) c) (tcp s) (tcp s') /\
    store_updated (fun m => map_set m (PSKHash k) c) (udp s) (udp s') /\
    mu s = Unlocked /\ mu s' = Unlocked /\
    saveQueue s' = enqueued (saveQueue s) /\
    cachedContent s' = cachedContent s /\
    pskLength s' = pskLength s /\ path s' = path s.
Proof.
  destruct s. unfold Cred.AddCredential, store_updated, credentialOf. unfold_go.
  intros H. go_cases; eexists _, _, _; repeat split; eauto.
Qed.

Lemma UpdateCredential_done (u : string) (k : list byte) (s s' : ManagedServer) :
  UpdateCredential u k s = Returned None s' ->
  exists g gl uc c,
    cachedCredMap s = Some g /\ g !! u = Some uc /\ uPSK uc ≠ k /\
    cachedUserLookupMap s = Some gl /\
    NewServerUserCipherConfig u k (udp_attached s) = inl c /\
    cachedCredMap s' = Some (<[u := credentialOf PSKHash k]> g) /\
    cachedUserLookupMap s' = Some (<[PSKHash k := c]> (delete (uPSKHash uc) gl)) /\
    store_updated (fun m => map_set (map_del m (uPSKHash uc)) (PSKHash k) c)
      (tcp s) (tcp s') /\
    store_updated (fun m => map_set (map_del m (uPSKHash uc)) (PSKHash k) c)
      (udp s) (udp s') /\
    mu s = Unlocked /\ mu s' = Unlocked /\
    saveQueue s' = enqueued (saveQueue s) /\
    cachedContent s' = cachedContent s /\
    pskLength s' = pskLength s /\ path s' = path s.
Proof.
  destruct s. unfold Cred.UpdateCredential, store_updated, credentialOf. unfold_go.
  intros H. go_cases; eexists _, _, _, _; repeat split; eauto.
Qed.

Lemma DeleteCredential_done (u : string) (s s' : ManagedServer) :
  DeleteCredential u s = Returned None s' ->
  exists g uc,
    cachedCredMap s = Some g /\ g !! u = Some uc /\
    cachedCredMap s' = Some (delete u g) /\
    cachedUserLookupMap s' = map_del (cachedUserLookupMap s) (uPSKHash uc) /\
    store_updated (fun m => Some (map_del m (uPSKHash uc))) (tcp s) (tcp s') /\
    store_updated (fun m => Some (map_del m (uPSKHash uc))) (udp s) (udp s') /\
    mu s = Unlocked /\ mu s' = Unlocked /\
    saveQueue s' = enqueued (saveQueue s) /\
    cachedContent s' = cachedContent s /\
    pskLength s' = pskLength s /\ path s' = path s.
Proof.
  destruct s. unfold DeleteCredential, store_updated. unfold_go.
  intros H. go_cases; eexists _, _; repeat split; eauto.
Qed.

(** ** Reading and listing *)

(** X1.  With the mutex free, [Credentials] returns without changing the
    server, names no user twice, and lists a credential exactly when
    [GetCredential] finds that credential under its name. *)
Theorem Credentials_lists_what_GetCredential_finds
    (rangeCreds : gmap string cachedUserCredential ->
                  list (string * cachedUserCredential))
    (s : ManagedServer) :
  (forall m, rangeCreds m ≡ₚ map_to_list m) ->
  mu s = Unlocked ->
  exists ucs,
    Credentials rangeCreds s = Returned ucs s /\
    NoDup (Name <$> ucs) /\
    forall u k,
      {| Name := u; UPSK := k |} ∈ ucs <->
      GetCredential u s = Returned ({| Name := u; UPSK := k |}, true) s.
Proof.
  intros Hperm Hmu.
  assert (forall u k, GetCredential u s = Returned ({| Name := u; UPSK := k |}, true) s <->
            exists cc, map_get (cachedCredMap s) u = Some cc /\ uPSK cc = k) as Hget.
  { intros u k. rewrite (GetCredential_Unlocked u s Hmu).
    destruct (map_get (cachedCredMap s) u) as [cc|]; split.
    - intros [= <-]. eauto.
    - intros (? & [= <-] & <-). done.
    - intros [=].
    - intros (? & [=] & _). }
  destruct s as [? ? ? ? ? [g|] ? ? ?]; simpl in *; subst;
    unfold Credentials; unfold_go; simpl; eexists; (split; [reflexivity|]).
  - split.
    + rewrite <- list_fmap_compose.
      change (NoDup ((rangeCreds g).*1)). rewrite Hperm.
      apply NoDup_fst_map_to_list.
    + intros u k. rewrite Hget, list_elem_of_fmap. split.
      * intros ([u' cc] & [= -> ->] & Hin). rewrite Hperm in Hin.
        apply elem_of_map_to_list in Hin. eauto.
      * intros (cc & Hcc & <-). exists (u, cc). split; [done|].
        rewrite Hperm. by apply elem_of_map_to_list.
  - split; [constructor |]. intros u k. rewrite Hget. split.
    + intros Hin. by apply elem_of_nil in Hin.
    + intros (? & [=] & _).
Qed.

(** ** Loading *)

Lemma buildMaps_credMap (udpOn : bool) (expected : Z)
    (entries : list (string * list byte))
    (lm lm' : gmap Hash ServerUserCipherConfig)
    (cm cm' : gmap string cachedUserCredential) :
  NoDup entries.*1 ->
  buildMaps udpOn expected entries lm cm = inr (lm', cm') ->
  forall u,
    cm' !! u =
      match (list_to_map entries : gmap string (list byte)) !! u with
      | Some k => Some (credentialOf PSKHash k)
      | None => cm !! u
      end.
Proof.
  revert lm cm. induction entries as [|[u0 k0] rest IH]; intros lm cm Hnd; simpl.
  - intros [= <- <-] u. by rewrite lookup_empty.
  - case_decide; [done|].
    destruct (lm !! PSKHash k0); [done|].
    destruct NewServerUserCipherConfig as [c|]; [|done].
    intros Hb u. inversion Hnd as [|? ? Hnotin Hnd']; subst.
    rewrite (IH _ _ Hnd' Hb u).
    destruct (decide (u = u0)) as [->|Hne].
    + rewrite !lookup_insert_eq.
      rewrite (not_elem_of_list_to_map_1 rest u0 Hnotin). done.
    + rewrite !lookup_insert_ne by done. done.
Qed.

Lemma buildMaps_lookupMap (udpOn : bool) (expected : Z)
    (entries : list (string * list byte))
    (lm lm' : gmap Hash ServerUserCipherConfig)
    (cm cm' : gmap string cachedUserCredential) :
  buildMaps udpOn expected entries lm cm = inr (lm', cm') ->
  lm ⊆ lm' /\
  forall u k, (u, k) ∈ entries ->
    len k = expected /\
    exists c, NewServerUserCipherConfig u k udpOn = inl c /\
              lm' !! PSKHash k = Some c.
Proof.
  revert lm cm. induction entries as [|[u0 k0] rest IH]; intros lm cm; simpl.
  - intros [= <- <-]. split; [done|]. intros u k Hin. by apply elem_of_nil in Hin.
  - case_decide as Hlen; [done|].
    destruct (lm !! PSKHash k0) eqn:Hfresh; [done|].
    destruct NewServerUserCipherConfig as [c|] eqn:Hc; [|done].
    intros Hb. destruct (IH _ _ Hb) as [Hsub Hall].
    assert (lm' !! PSKHash k0 = Some c) as Hhead.
    { eapply lookup_weaken; [|exact Hsub]. apply lookup_insert_eq. }
    split.
    + etrans; [|exact Hsub]. by apply insert_subseteq.
    + intros u k Hin. apply elem_of_cons in Hin as [[= -> ->] | Hin].
      * split; [by destruct (decide (len k0 = expected)) | eauto].
      * by apply Hall.
Qed.

(** A [LoadFromFile] that does not take the unchanged-content exit and
    returns nil has decoded the file and built both maps from it. *)
Lemma LoadFromFile_rebuilt (fs : gmap string string) (s s' : ManagedServer)
    (content : string) :
  fs !! path s = Some content ->
  content ≠ cachedContent s ->
  LoadFromFile fs s = Returned None s' ->
  exists m lm cm,
    decode content = inl m /\
    buildMaps (udp_attached s) (pskLength s) (rangeOrder m) ∅ ∅ = inr (lm, cm) /\
    cachedContent s' = content /\
    cachedCredMap s' = Some cm /\
    cachedUserLookupMap s' = Some lm /\
    tcp s' = ReplaceUserLookupMap (Some lm) <$> tcp s /\
    udp s' = ReplaceUserLookupMap (Some lm) <$> udp s /\
    mu s' = Unlocked /\
    saveQueue s' = saveQueue s /\ pskLength s' = pskLength s /\ path s' = path s.
Proof.
  destruct s. unfold Cred.LoadFromFile, Cred.loadFromFile. unfold_go.
  intros Hfs Hne H. simpl in *. rewrite Hfs in H.
  go_cases; eexists _, _, _; repeat split; eauto.
Qed.

(** X2.  After a [LoadFromFile] that read changed content and returned
    nil, the mutex is free, the content is cached, and [GetCredential]
    answers from the decoded file: a user of the file is found with the
    uPSK the file gives, any other username is not found. *)
Theorem LoadFromFile_serves_the_file (fs : gmap string string) (s s' : ManagedServer)
    (content : string) (m : gmap string (list byte)) :
  (forall x, rangeOrder x ≡ₚ map_to_list x) ->
  fs !! path s = Some content ->
  content ≠ cachedContent s ->
  decode content = inl m ->
  LoadFromFile fs s = Returned None s' ->
  cachedContent s' = content /\
  forall u,
    GetCredential u s' =
      Returned
        match m !! u with
        | Some k => ({| Name := u; UPSK := k |}, true)
        | None => ({| Name := EmptyString; UPSK := [] |}, false)
        end s'.
Proof.
  intros Hperm Hfs Hne Hdec H.
  destruct (LoadFromFile_rebuilt fs s s' content Hfs Hne H)
    as (m' & lm & cm & Hdec' & Hb & Hcontent & Hcm & _ & _ & _ & Hmu & _).
  rewrite Hdec in Hdec'. injection Hdec' as <-.
  split; [done|]. intros u.
  rewrite (GetCredential_Unlocked u s' Hmu), Hcm. simpl.
  assert (NoDup (rangeOrder m).*1) as Hnd
    by (rewrite Hperm; apply NoDup_fst_map_to_list).
  rewrite (buildMaps_credMap _ _ _ _ _ _ _ Hnd Hb u).
  assert ((list_to_map (rangeOrder m) : gmap string (list byte)) = m) as ->.
  { rewrite (list_to_map_proper (rangeOrder m) (map_to_list m)).
    - apply list_to_map_to_list.
    - rewrite Hperm. apply NoDup_fst_map_to_list.
    - apply Hperm. }
  rewrite lookup_empty. by destruct (m !! u).
Qed.

(** X3.  After such a load every user of the file has a uPSK of the
    configured length and can be looked up by the hash of that uPSK: the
    cached lookup map and the map of each attached store hold, under
    [PSKHash k], the cipher configuration built for that user. *)
Theorem LoadFromFile_lookup_maps (fs : gmap string string) (s s' : ManagedServer)
    (content : string) (m : gmap string (list byte)) (u : string) (k : list byte) :
  (forall x, rangeOrder x ≡ₚ map_to_list x) ->
  fs !! path s = Some content ->
  content ≠ cachedContent s ->
  decode content = inl m ->
  LoadFromFile fs s = Returned None s' ->
  m !! u = Some k ->
  len k = pskLength s /\
  exists c,
    NewServerUserCipherConfig u k (udp_attached s) = inl c /\
    map_get (cachedUserLookupMap s') (PSKHash k) = Some c /\
    (forall st, tcp s' = Some st -> map_get (ulm st) (PSKHash k) = Some c) /\
    (forall st, udp s' = Some st -> map_get (ulm st) (PSKHash k) = Some c).
Proof.
  intros Hperm Hfs Hne Hdec H Hu.
  destruct (LoadFromFile_rebuilt fs s s' content Hfs Hne H)
    as (m' & lm & cm & Hdec' & Hb & _ & _ & Hlm & Htcp & Hudp & _).
  rewrite Hdec in Hdec'. injection Hdec' as <-.
  destruct (buildMaps_lookupMap _ _ _ _ _ _ _ Hb) as [_ Hall].
  destruct (Hall u k) as (Hlen & c & Hc & Hl).
  { rewrite Hperm. by apply elem_of_map_to_list. }
  split; [done|]. exists c. split; [done|]. rewrite Hlm. split; [done|].
  rewrite Htcp, Hudp. split; intros st Hst.
  - destruct (tcp s); simplify_eq/=. done.
  - destruct (udp s); simplify_eq/=. done.
Qed.

(** ** Saving and registering *)

Lemma saveToFile_saved (MarshalIndent : gmap string (list byte) -> string + string)
    (fs fs' : gmap string string) (s s1 : ManagedServer) :
  saveToFile MarshalIndent fs true s = Returned (None, fs') s1 ->
  exists b,
    MarshalIndent (match cachedCredMap s with Some g => uPSK <$> g | None => ∅ end)
      = inl b /\
    b ≠ EmptyString /\
    fs' = <[path s := b]> fs /\
    s1 = set_cachedContent b s.
Proof.
  unfold saveToFile. unfold_go.
  destruct (MarshalIndent _) as [b|]; [|done].
  case_decide; [done|]. intros [= <- <-]. eauto.
Qed.

(** X4.  A successful [saveToFile] writes the credential file and nothing
    else, keeps both cached maps, and caches what it wrote: a
    [LoadFromFile] that follows finds the content unchanged and returns
    nil with both cached maps as they were. *)
Theorem saveToFile_then_LoadFromFile_keeps_caches
    (MarshalIndent : gmap string (list byte) -> string + string)
    (fs fs' : gmap string string) (s s1 : ManagedServer) :
  mu s = Unlocked ->
  saveToFile MarshalIndent fs true s = Returned (None, fs') s1 ->
  fs' !! path s = Some (cachedContent s1) /\
  (forall p, p ≠ path s -> fs' !! p = fs !! p) /\
  cachedCredMap s1 = cachedCredMap s /\
  cachedUserLookupMap s1 = cachedUserLookupMap s /\
  exists s2,
    LoadFromFile fs' s1 = Returned None s2 /\
    cachedContent s2 = cachedContent s1 /\
    cachedCredMap s2 = cachedCredMap s /\
    cachedUserLookupMap s2 = cachedUserLookupMap s.
Proof.
  intros Hmu H. apply saveToFile_saved in H as (b & _ & _ & -> & ->).
  split; [by rewrite lookup_insert_eq|].
  split; [by intros p Hp; rewrite lookup_insert_ne|].
  split; [done|]. split; [done|].
  destruct s; simpl in *; subst.
  unfold Cred.LoadFromFile, Cred.loadFromFile. unfold_go. simpl.
  rewrite lookup_insert_eq. simpl. rewrite decide_True by done.
  go_cases; eexists; repeat split; eauto.
Qed.

Lemma loadFromFile_rebuilt (fs : gmap string string) (s s' : ManagedServer)
    (content : string) :
  fs !! path s = Some content ->
  content ≠ cachedContent s ->
  loadFromFile PSKHash NewServerUserCipherConfig decode rangeOrder fs s
    = Returned None s' ->
  exists m lm cm,
    decode content = inl m /\
    buildMaps (udp_attached s) (pskLength s) (rangeOrder m) ∅ ∅ = inr (lm, cm) /\
    cachedContent s' = content /\
    cachedCredMap s' = Some cm /\
    cachedUserLookupMap s' = Some lm /\
    tcp s' = tcp s /\ udp s' = udp s /\
    mu s' = Unlocked /\
    saveQueue s' = saveQueue s /\ pskLength s' = pskLength s /\ path s' = path s.
Proof.
  destruct s. unfold Cred.loadFromFile. unfold_go.
  intros Hfs Hne H. simpl in *. rewrite Hfs in H.
  go_cases; eexists _, _, _; repeat split; eauto.
Qed.

(** X5.  Credentials survive a restart: when [saveToFile] has written the
    cached credentials and the JSON decoder reads the written text back
    as the object that was marshalled, a [RegisterServer] on that file
    that succeeds registers a server whose [cachedCredMap] is the one
    that was saved. *)
Theorem saved_credentials_are_registered_again
    (MarshalIndent : gmap string (list byte) -> string + string)
    (fs fs' : gmap string string) (s s1 s2 : ManagedServer)
    (g : gmap string cachedUserCredential)
    (servers servers' : gmap string ManagedServer) (name : string) :
  (forall x, rangeOrder x ≡ₚ map_to_list x) ->
  cachedCredMap s = Some g ->
  (forall u uc, g !! u = Some uc -> uPSKHash uc = PSKHash (uPSK uc)) ->
  saveToFile MarshalIndent fs true s = Returned (None, fs') s1 ->
  decode (cachedContent s1) = inl (uPSK <$> g) ->
  RegisterServer servers name (pskLength s) (path s) fs' = Some (servers', inr s2) ->
  cachedCredMap s2 = Some g /\ servers' !! name = Some s2.
Proof.
  intros Hperm Hg Hwf Hsave Hdec Hreg.
  apply saveToFile_saved in Hsave as (b & _ & Hb & -> & ->). simpl in Hdec.
  unfold Cred.RegisterServer in Hreg.
  destruct (servers !! name); [done|].
  destruct (loadFromFile _ _ _ _ _ _) as [[e|] s3| |] eqn:Hload; simplify_eq.
  split; [|by rewrite lookup_insert_eq].
  apply (loadFromFile_rebuilt _ _ _ b) in Hload
    as (m & lm & cm & Hdec' & Hbuild & _ & Hcm & _); simpl.
  2: by rewrite lookup_insert_eq.
  2: done.
  rewrite Hdec in Hdec'. injection Hdec' as <-.
  rewrite Hcm. f_equal. apply map_eq. intros u.
  assert (NoDup (rangeOrder (uPSK <$> g)).*1) as Hnd
    by (rewrite Hperm; apply NoDup_fst_map_to_list).
  rewrite (buildMaps_credMap _ _ _ _ _ _ _ Hnd Hbuild u).
  assert ((list_to_map (rangeOrder (uPSK <$> g)) : gmap string (list byte))
          = uPSK <$> g) as ->.
  { rewrite (list_to_map_proper (rangeOrder (uPSK <$> g)) (map_to_list (uPSK <$> g))).
    - apply list_to_map_to_list.
    - done.
    - apply Hperm. }
  rewrite lookup_fmap, lookup_empty.
  destruct (g !! u) as [uc|] eqn:Hu; simpl; [|done].
  f_equal. unfold credentialOf. rewrite <- (Hwf u uc Hu). by destruct uc.
Qed.

(** X6.  [RegisterServer] always returns.  It never replaces a registered
    server and registers none whose credential file failed to load: on an
    error the [servers] map is unchanged, and the error is the one for a
    taken name exactly when the name is taken; on success the name was
    free and the only change is the new entry, a server without stores
    that has the given key length and path. *)
Theorem RegisterServer_registers_only_what_loaded
    (servers : gmap string ManagedServer) (name : string) (pskLength : Z)
    (path : string) (fs : gmap string string) :
  exists servers' r,
    RegisterServer servers name pskLength path fs = Some (servers', r) /\
    match r with
    | inl e =>
        servers' = servers /\
        (e = ErrAlreadyRegistered name <-> is_Some (servers !! name))
    | inr s =>
        servers !! name = None /\ servers' = <[name := s]> servers /\
        tcp s = None /\ udp s = None /\
        Cred.pskLength s = pskLength /\ Cred.path s = path
    end.
Proof.
  unfold Cred.RegisterServer.
  destruct (servers !! name) as [old|] eqn:Hname.
  { eexists _, _. split; [reflexivity|]. simpl. split; [done|]. split; eauto. }
  unfold Cred.loadFromFile, newServer. unfold_go. simpl.
  destruct (fs !! path) as [content|]; simpl.
  2:{ eexists _, _. split; [reflexivity|]. simpl. split; [done|].
      split; [done | by intros [? ?]]. }
  case_decide.
  { eexists _, _. split; [reflexivity|]. done. }
  destruct (decode content) as [m|]; simpl.
  2:{ eexists _, _. split; [reflexivity|]. simpl. split; [done|].
      split; [done | by intros [? ?]]. }
  destruct (Cred.buildMaps _ _ _ _ _ _ _) as [e|[lm cm]]; simpl.
  - eexists _, _. split; [reflexivity|]. simpl. split; [done|].
    split; [done | by intros [? ?]].
  - eexists _, _. split; [reflexivity|]. done.
Qed.

(** ** Composing the mutators *)

Lemma GetCredential_found (u : string) (s : ManagedServer) :
  mu s = Unlocked ->
  GetCredential u s =
    Returned
      match map_get (cachedCredMap s) u with
      | Some cc => ({| Name := u; UPSK := uPSK cc |}, true)
      | None => notFound
      end s.
Proof. apply GetCredential_Unlocked. Qed.

(** X7.  On a server whose stores are in step with the cached lookup map,
    adding a user whose uPSK hash is not yet in that map and deleting the
    user again gives back the state before the add: both caches and both
    stores are as they were, and the only trace is the pending save. *)
Theorem AddCredential_then_DeleteCredential_restores
    (u : string) (k : list byte) (s s1 : ManagedServer) :
  stores_synced s ->
  map_get (cachedUserLookupMap s) (PSKHash k) = None ->
  AddCredential u k s = Returned None s1 ->
  DeleteCredential u s1 = Returned None (set_saveQueue (enqueued (saveQueue s)) s).
Proof.
  intros [Ht Hu] Hfresh H.
  destruct (AddCredential_done u k s s1 H)
    as (g & gl & c & Hg & Hgu & Hgl & _ & Hg1 & Hgl1 & Hst & Hsu & Hmu & Hmu1
        & Hq & Hcc & Hpl & Hp).
  clear H.
  destruct s as [pl t ud p cc cm lm m q], s1 as [pl1 t1 ud1 p1 cc1 cm1 lm1 m1 q1].
  unfold store_updated, stores_synced, set_saveQueue in *. simpl in *. subst.
  simpl in Hfresh.
  assert (enqueued (enqueued q) = enqueued q) as Hqq by (by destruct q).
  destruct t as [[tm]|];
    [specialize (Ht _ eq_refl); simpl in Ht; subst tm;
     destruct Hst as (? & Heq & ->); simpl in Heq; injection Heq as <-|];
    (destruct ud as [[um]|];
       [specialize (Hu _ eq_refl); simpl in Hu; subst um;
        destruct Hsu as (? & Heq & ->); simpl in Heq; injection Heq as <-|]);
    simpl in *; subst; unfold DeleteCredential, enqueued; unfold_go; simpl;
    rewrite lookup_insert_eq; destruct q; simpl;
    rewrite ?(delete_insert_id gl) by done;
    rewrite ?(delete_insert_id g) by done;
    reflexivity.
Qed.

(** X8.  A successful [DeleteCredential] removes the user and nobody
    else: [GetCredential] no longer finds the user, and finds every other
    username exactly as before. *)
Theorem DeleteCredential_removes_only_that_user (u : string) (s s' : ManagedServer) :
  DeleteCredential u s = Returned None s' ->
  GetCredential u s' = Returned notFound s' /\
  forall v r, v ≠ u ->
    (GetCredential v s' = Returned r s' <-> GetCredential v s = Returned r s).
Proof.
  intros H.
  destruct (DeleteCredential_done u s s' H)
    as (g & uc & Hg & _ & Hg' & _ & _ & _ & Hmu & Hmu' & _).
  split.
  - rewrite (GetCredential_found u s' Hmu'), Hg'. simpl.
    by rewrite lookup_delete_eq.
  - intros v r Hv.
    rewrite (GetCredential_found v s' Hmu'), (GetCredential_found v s Hmu), Hg, Hg'.
    simpl. rewrite lookup_delete_ne by done.
    split; intros [= <-]; done.
Qed.

(** X9.  After a successful [UpdateCredential] the user is served with
    the new uPSK and every other user as before; the cached lookup map
    holds the new cipher configuration under the hash of the new uPSK,
    no longer holds the old hash unless it is also the new one, and is
    unchanged at every other hash. *)
Theorem UpdateCredential_replaces_the_uPSK
    (u : string) (k : list byte) (s s' : ManagedServer) (old : cachedUserCredential) :
  map_get (cachedCredMap s) u = Some old ->
  UpdateCredential u k s = Returned None s' ->
  GetCredential u s' = Returned ({| Name := u; UPSK := k |}, true) s' /\
  (forall v r, v ≠ u ->
     (GetCredential v s' = Returned r s' <-> GetCredential v s = Returned r s)) /\
  (exists c, NewServerUserCipherConfig u k (udp_attached s) = inl c /\
             map_get (cachedUserLookupMap s') (PSKHash k) = Some c) /\
  (uPSKHash old ≠ PSKHash k ->
     map_get (cachedUserLookupMap s') (uPSKHash old) = None) /\
  (forall h, h ≠ PSKHash k -> h ≠ uPSKHash old ->
     map_get (cachedUserLookupMap s') h = map_get (cachedUserLookupMap s) h).
Proof.
  intros Hold H.
  destruct (UpdateCredential_done u k s s' H)
    as (g & gl & uc & c & Hg & Hu & _ & Hgl & Hc & Hg' & Hgl' & _ & _ & Hmu & Hmu' & _).
  rewrite Hg in Hold. simpl in Hold. rewrite Hu in Hold. injection Hold as ->.
  split; [|split; [|split; [|split]]].
  - rewrite (GetCredential_found u s' Hmu'), Hg'. simpl.
    by rewrite lookup_insert_eq.
  - intros v r Hv.
    rewrite (GetCredential_found v s' Hmu'), (GetCredential_found v s Hmu), Hg, Hg'.
    simpl. rewrite lookup_insert_ne by done.
    split; intros [= <-]; done.
  - exists c. split; [done|]. rewrite Hgl'. simpl. by rewrite lookup_insert_eq.
  - intros Hne. rewrite Hgl'. simpl.
    rewrite lookup_insert_ne by done. by rewrite lookup_delete_eq.
  - intros h Hh1 Hh2. rewrite Hgl', Hgl. simpl.
    rewrite lookup_insert_ne by done. by rewrite lookup_delete_ne.
Qed.

(** X10.  [AddCredential] refuses a username that is taken: with the
    mutex free, a non-empty username that [GetCredential] finds and a
    uPSK of the configured length, it returns the user-exists error and
    leaves the server as it was. *)
Theorem AddCredential_existing_user_is_error
    (u : string) (k : list byte) (s : ManagedServer) (uc : UserCredential) :
  mu s = Unlocked ->
  u ≠ EmptyString ->
  len k = pskLength s ->
  GetCredential u s = Returned (uc, true) s ->
  AddCredential u k s = Returned (Some (ErrUserExists u)) s.
Proof.
  intros Hmu Hu Hlen. rewrite (GetCredential_found u s Hmu). unfold notFound.
  destruct (map_get (cachedCredMap s) u) eqn:Hget; intros Hfound; [|done].
  destruct s as [pl t ud p cc cm lm m q]. simpl in *. subst.
  unfold Cred.AddCredential. unfold_go. simpl.
  repeat case_decide; try done. simpl. by rewrite Hget.
Qed.

(** ** The stores and the save queue under any sequence of calls *)

Lemma run_done (c : call) (s s' : ManagedServer) :
  run c s = Returned None s' ->
  exists f,
    f (cachedUserLookupMap s) = Some (cachedUserLookupMap s') /\
    store_updated f (tcp s) (tcp s') /\
    store_updated f (udp s) (udp s') /\
    saveQueue s' = enqueued (saveQueue s) /\
    mu s' = Unlocked.
Proof.
  destruct c as [u k|u k|u]; simpl; intros H.
  - destruct (AddCredential_done u k s s' H)
      as (g & gl & c & _ & _ & Hgl & _ & _ & Hgl' & Ht & Hu & _ & Hmu & Hq & _).
    exists (fun m => map_set m (PSKHash k) c).
    rewrite Hgl', Hgl. simpl. eauto 10.
  - destruct (UpdateCredential_done u k s s' H)
      as (g & gl & uc & c & _ & _ & _ & Hgl & _ & _ & Hgl' & Ht & Hu & _ & Hmu & Hq & _).
    exists (fun m => map_set (map_del m (uPSKHash uc)) (PSKHash k) c).
    rewrite Hgl', Hgl. simpl. eauto 10.
  - destruct (DeleteCredential_done u s s' H)
      as (g & uc & _ & _ & _ & Hgl' & Ht & Hu & _ & Hmu & Hq & _).
    exists (fun m => Some (map_del m (uPSKHash uc))).
    rewrite Hgl'. eauto 10.
Qed.

Lemma run_stores_synced (c : call) (s s' : ManagedServer) (r : option error) :
  stores_synced s -> run c s = Returned r s' -> stores_synced s'.
Proof.
  intros [Ht Hu] H. destruct r as [e|].
  { by rewrite (run_error_state PSKHash NewServerUserCipherConfig c s s' e H). }
  destruct (run_done c s s' H) as (f & Hf & Hst & Hsu & _).
  unfold store_updated in *. split; intros st Hst'.
  - destruct (tcp s) as [c0|]; [|congruence].
    destruct Hst as (m & Hm & Heq). rewrite (Ht c0 eq_refl), Hf in Hm.
    rewrite Heq in Hst'. by simplify_eq.
  - destruct (udp s) as [c0|]; [|congruence].
    destruct Hsu as (m & Hm & Heq). rewrite (Hu c0 eq_refl), Hf in Hm.
    rewrite Heq in Hst'. by simplify_eq.
Qed.

Lemma runs_cons (c : call) (cs : list call) (s s' : ManagedServer)
    (rs : list (option error)) :
  runs (c :: cs) s = Returned rs s' ->
  exists r rest s1,
    rs = r :: rest /\ run c s = Returned r s1 /\ runs cs s1 = Returned rest s'.
Proof.
  simpl. unfold bind, ret.
  destruct (run c s) as [r s1| |]; [|done|done].
  destruct (runs cs s1) as [rest s2| |] eqn:Hrest; [|done|done].
  intros [= <- <-]. by eexists _, _, _.
Qed.

(** X11.  No sequence of [AddCredential], [UpdateCredential] and
    [DeleteCredential] calls, failed or successful, puts the attached
    stores out of step with the cached lookup map: when each store held
    that map before, each holds it after. *)
Theorem mutators_keep_stores_synced
    (cs : list call) (s s' : ManagedServer) (rs : list (option error)) :
  stores_synced s ->
  runs cs s = Returned rs s' ->
  stores_synced s'.
Proof.
  revert s rs. induction cs as [|c cs IH]; intros s rs Hs H.
  - simpl in H. unfold ret in H. by simplify_eq.
  - apply runs_cons in H as (r & rest & s1 & _ & Hrun & Hrest).
    eapply IH; [|exact Hrest]. by eapply run_stores_synced.
Qed.

(** X12.  [Start] always returns and brings both attached stores in step
    with the cached lookup map; the caches, the mutex and the save queue
    are as before. *)
Theorem Start_synchronises_stores (s : ManagedServer) :
  exists s0,
    Start s = Returned tt s0 /\
    stores_synced s0 /\
    s0 = set_udp (udp s0) (set_tcp (tcp s0) s) /\
    (is_Some (tcp s0) <-> is_Some (tcp s)) /\
    (is_Some (udp s0) <-> is_Some (udp s)).
Proof.
  destruct s as [pl [t|] [ud|] p cc cm lm m q];
    unfold Start, stores_synced; unfold_go; simpl;
    (eexists; split; [reflexivity|]); simpl;
    (split; [split; intros ? [= <-]; done|]);
    (split; [done|]); split; split; intros [? ?]; (done || eauto).
Qed.

(** X13.  The save queue coalesces: after any sequence of mutator calls
    that all return, the number of results is the number of calls, and
    the queue, which held at most one job, holds one job when some call
    succeeded and is unchanged when none did. *)
Theorem runs_leave_one_pending_save
    (cs : list call) (s s' : ManagedServer) (rs : list (option error)) :
  (saveQueue s <= 1)%nat ->
  runs cs s = Returned rs s' ->
  length rs = length cs /\
  saveQueue s' = if anySucceeded rs then 1%nat else saveQueue s.
Proof.
  revert s rs. induction cs as [|c cs IH]; intros s rs Hq H.
  - simpl in H. unfold ret in H. by simplify_eq.
  - apply runs_cons in H as (r & rest & s1 & -> & Hrun & Hrest).
    assert (saveQueue s1 = match r with
                           | None => 1%nat
                           | Some _ => saveQueue s
                           end) as Hq1.
    { destruct r as [e|].
      - by rewrite (run_error_state PSKHash NewServerUserCipherConfig c s s1 e Hrun).
      - destruct (run_done c s s1 Hrun) as (f & _ & _ & _ & -> & _).
        unfold enqueued. destruct (saveQueue s) as [|[|n]]; [done|done|lia]. }
    destruct (IH s1 rest) as [Hlen Hq']; [destruct r; lia | done |].
    split; [simpl; lia|]. rewrite Hq', Hq1. simpl.
    destruct r; simpl; [done|]. by destruct (anySucceeded rest).
Qed.

(** X14.  [RegisterServer] on a free name and a credential file whose
    content is the empty string takes the unchanged-content exit of
    [loadFromFile]: it succeeds and registers a server without
    credentials whose mutex is still held, so that [GetCredential] and
    [DeleteCredential] on the returned server do not return. *)
Theorem RegisterServer_empty_file_leaves_mu_locked
    (servers : gmap string ManagedServer) (name : string) (pskLength : Z)
    (path : string) (fs : gmap string string) :
  servers !! name = None ->
  fs !! path = Some EmptyString ->
  exists s,
    RegisterServer servers name pskLength path fs
      = Some (<[name := s]> servers, inr s) /\
    s = set_mu WriteLocked (newServer pskLength path) /\
    (forall u, GetCredential u s = Blocked s) /\
    (forall u, DeleteCredential u s = Blocked s).
Proof.
  intros Hname Hfs. eexists. split; [|split; [reflexivity|]].
  - unfold Cred.RegisterServer, Cred.loadFromFile, newServer. unfold_go.
    rewrite Hname. simpl. rewrite Hfs. simpl. reflexivity.
  - split; intros u; reflexivity.
Qed.

End Extra.

(** ** The properties at concrete inputs *)

Lemma demoRangeCreds_perm (m : gmap string cachedUserCredential) :
  demoRangeCreds m ≡ₚ map_to_list m.
Proof. reflexivity. Qed.

Lemma demoRange_perm (m : gmap string (list byte)) : demoRange m ≡ₚ map_to_list m.
Proof. reflexivity. Qed.

Lemma loaded_synced : stores_synced loaded.
Proof. split; intros c [= <-]; reflexivity. Qed.

Lemma fresh_loads_alice : demoLoad fsAlice fresh = Returned None loaded.
Proof. vm_compute. reflexivity. Qed.

Lemma loaded_saves :
  saveToFile demoMarshal fsBroken true loaded = Returned (None, fsAlice) loaded.
Proof. vm_compute. reflexivity. Qed.

Lemma alice_registers :
  demoRegister ∅ "ss" 16 "/etc/ss/upsks.json" fsAlice
    = Some ({[ "ss" := registered ]}, inr registered).
Proof. vm_compute. reflexivity. Qed.

Lemma loaded_adds_bob_keyB : demoAdd "bob" keyB loaded = Returned None withBobB.
Proof. vm_compute. reflexivity. Qed.

Lemma withBob_deletes_bob : DeleteCredential "bob" withBob = Returned None bobDeleted.
Proof. vm_compute. reflexivity. Qed.

Lemma loaded_updates_alice : demoUpdate "alice" keyB loaded = Returned None aliceUpdated.
Proof. vm_compute. reflexivity. Qed.

Lemma loaded_runs_burst :
  demoRuns burst loaded
    = Returned [None; Some (ErrNonexistentUser "nobody"); None] loadedPending.
Proof. vm_compute. reflexivity. Qed.

(** X1 at [loaded]. *)
Lemma Credentials_lists_what_GetCredential_finds_witness :
  exists ucs,
    Credentials demoRangeCreds loaded = Returned ucs loaded /\
    NoDup (Name <$> ucs) /\
    forall u k,
      {| Name := u; UPSK := k |} ∈ ucs <->
      GetCredential u loaded = Returned ({| Name := u; UPSK := k |}, true) loaded.
Proof.
  apply (Credentials_lists_what_GetCredential_finds demoRangeCreds loaded).
  - apply demoRangeCreds_perm.
  - reflexivity.
Defined.

(** X2 at [fresh] and [alice.json]. *)
Lemma LoadFromFile_serves_the_file_witness :
  demoLoad fsAlice fresh = Returned None loaded /\
  (cachedContent loaded = "alice.json" /\
   forall u,
     GetCredential u loaded =
       Returned
         match ({[ "alice" := keyA ]} : gmap string (list byte)) !! u with
         | Some k => ({| Name := u; UPSK := k |}, true)
         | None => ({| Name := EmptyString; UPSK := [] |}, false)
         end loaded).
Proof.
  split; [exact fresh_loads_alice |].
  apply (LoadFromFile_serves_the_file demoPSKHash demoCipherConfig demoDecode
           demoRange fsAlice fresh loaded "alice.json").
  - apply demoRange_perm.
  - vm_compute. reflexivity.
  - discriminate.
  - vm_compute. reflexivity.
  - exact fresh_loads_alice.
Defined.

(** X3 at [fresh] and [alice.json], for alice. *)
Lemma LoadFromFile_lookup_maps_witness :
  len keyA = pskLength fresh /\
  exists c,
    demoCipherConfig "alice" keyA (udp_attached fresh) = inl c /\
    map_get (cachedUserLookupMap loaded) (demoPSKHash keyA) = Some c /\
    (forall st, tcp loaded = Some st -> map_get (ulm st) (demoPSKHash keyA) = Some c) /\
    (forall st, udp loaded = Some st -> map_get (ulm st) (demoPSKHash keyA) = Some c).
Proof.
  apply (LoadFromFile_lookup_maps demoPSKHash demoCipherConfig demoDecode
           demoRange fsAlice fresh loaded "alice.json" {[ "alice" := keyA ]}).
  - apply demoRange_perm.
  - vm_compute. reflexivity.
  - discriminate.
  - vm_compute. reflexivity.
  - exact fresh_loads_alice.
  - vm_compute. reflexivity.
Defined.

(** X4 at [loaded], saved over the broken file. *)
Lemma saveToFile_then_LoadFromFile_keeps_caches_witness :
  saveToFile demoMarshal fsBroken true loaded = Returned (None, fsAlice) loaded /\
  (fsAlice !! path loaded = Some (cachedContent loaded) /\
   (forall p, p ≠ path loaded -> fsAlice !! p = fsBroken !! p) /\
   cachedCredMap loaded = cachedCredMap loaded /\
   cachedUserLookupMap loaded = cachedUserLookupMap loaded /\
   exists s2,
     demoLoad fsAlice loaded = Returned None s2 /\
     cachedContent s2 = cachedContent loaded /\
     cachedCredMap s2 = cachedCredMap loaded /\
     cachedUserLookupMap s2 = cachedUserLookupMap loaded).
Proof.
  split; [exact loaded_saves |].
  apply (saveToFile_then_LoadFromFile_keeps_caches demoPSKHash demoCipherConfig
           demoDecode demoRange demoMarshal fsBroken fsAlice loaded loaded).
  - reflexivity.
  - exact loaded_saves.
Defined.

(** X5 at [loaded]: saved, then registered under the name ss. *)
Lemma saved_credentials_are_registered_again_witness :
  saveToFile demoMarshal fsBroken true loaded = Returned (None, fsAlice) loaded /\
  demoRegister ∅ "ss" 16 "/etc/ss/upsks.json" fsAlice
    = Some ({[ "ss" := registered ]}, inr registered) /\
  (cachedCredMap registered = Some {[ "alice" := aliceCred ]} /\
   ({[ "ss" := registered ]} : gmap string ManagedServer) !! "ss" = Some registered).
Proof.
  split; [exact loaded_saves |].
  split; [exact alice_registers |].
  apply (saved_credentials_are_registered_again demoPSKHash demoCipherConfig
           demoDecode demoRange demoMarshal fsBroken fsAlice loaded loaded registered
           {[ "alice" := aliceCred ]} ∅ {[ "ss" := registered ]} "ss").
  - apply demoRange_perm.
  - reflexivity.
  - intros u uc Hu. apply lookup_singleton_Some in Hu as [_ <-]. reflexivity.
  - exact loaded_saves.
  - vm_compute. reflexivity.
  - exact alice_registers.
Defined.

(** X7 at [loaded]: bob is added with [keyB] and deleted again. *)
Lemma AddCredential_then_DeleteCredential_restores_witness :
  demoAdd "bob" keyB loaded = Returned None withBobB /\
  DeleteCredential "bob" withBobB = Returned None loadedPending.
Proof.
  split; [exact loaded_adds_bob_keyB |].
  apply (AddCredential_then_DeleteCredential_restores demoPSKHash demoCipherConfig
           "bob" keyB loaded withBobB).
  - apply loaded_synced.
  - vm_compute. reflexivity.
  - exact loaded_adds_bob_keyB.
Defined.

(** X8 at [withBob]: bob is deleted. *)
Lemma DeleteCredential_removes_only_that_user_witness :
  GetCredential "bob" bobDeleted = Returned notFound bobDeleted /\
  forall v r, v ≠ "bob" ->
    (GetCredential v bobDeleted = Returned r bobDeleted <->
     GetCredential v withBob = Returned r withBob).
Proof.
  apply (DeleteCredential_removes_only_that_user "bob" withBob bobDeleted).
  exact withBob_deletes_bob.
Defined.

(** X9 at [loaded]: alice changes from [keyA] to [keyB]. *)
Lemma UpdateCredential_replaces_the_uPSK_witness :
  GetCredential "alice" aliceUpdated
    = Returned ({| Name := "alice"; UPSK := keyB |}, true) aliceUpdated /\
  (forall v r, v ≠ "alice" ->
     (GetCredential v aliceUpdated = Returned r aliceUpdated <->
      GetCredential v loaded = Returned r loaded)) /\
  (exists c, demoCipherConfig "alice" keyB (udp_attached loaded) = inl c /\
             map_get (cachedUserLookupMap aliceUpdated) (demoPSKHash keyB) = Some c) /\
  (uPSKHash aliceCred ≠ demoPSKHash keyB ->
     map_get (cachedUserLookupMap aliceUpdated) (uPSKHash aliceCred) = None) /\
  (forall h, h ≠ demoPSKHash keyB -> h ≠ uPSKHash aliceCred ->
     map_get (cachedUserLookupMap aliceUpdated) h
       = map_get (cachedUserLookupMap loaded) h).
Proof.
  apply (UpdateCredential_replaces_the_uPSK demoPSKHash demoCipherConfig
           "alice" keyB loaded aliceUpdated aliceCred).
  - vm_compute. reflexivity.
  - exact loaded_updates_alice.
Defined.

(** X10 at [loaded]: alice is added a second time. *)
Lemma AddCredential_existing_user_is_error_witness :
  demoAdd "alice" keyB loaded = Returned (Some (ErrUserExists "alice")) loaded.
Proof.
  apply (AddCredential_existing_user_is_error demoPSKHash demoCipherConfig
           "alice" keyB loaded {| Name := "alice"; UPSK := keyA |}).
  - reflexivity.
  - discriminate.
  - vm_compute. reflexivity.
  - vm_compute. reflexivity.
Defined.

(** X11 at [loaded] and [burst]. *)
Lemma mutators_keep_stores_synced_witness :
  demoRuns burst loaded
    = Returned [None; Some (ErrNonexistentUser "nobody"); None] loadedPending /\
  stores_synced loadedPending.
Proof.
  split; [exact loaded_runs_burst |].
  apply (mutators_keep_stores_synced demoPSKHash demoCipherConfig burst loaded
           loadedPending [None; Some (ErrNonexistentUser "nobody"); None]).
  - apply loaded_synced.
  - exact loaded_runs_burst.
Defined.

(** X13 at [loaded] and [burst]: two successful calls, one pending save. *)
Lemma runs_leave_one_pending_save_witness :
  length [None; Some (ErrNonexistentUser "nobody"); None] = length burst /\
  saveQueue loadedPending = 1%nat.
Proof.
  apply (runs_leave_one_pending_save demoPSKHash demoCipherConfig burst loaded
           loadedPending [None; Some (ErrNonexistentUser "nobody"); None]).
  - vm_compute. lia.
  - exact loaded_runs_burst.
Defined.

(** X14 at the empty file. *)
Lemma RegisterServer_empty_file_leaves_mu_locked_witness :
  exists s,
    demoRegister ∅ "ss" 16 "/etc/ss/upsks.json" fsEmpty
      = Some (<["ss" := s]> ∅, inr s) /\
    s = registeredEmpty /\
    (forall u, GetCredential u s = Blocked s) /\
    (forall u, DeleteCredential u s = Blocked s).
Proof.
  apply (RegisterServer_empty_file_leaves_mu_locked demoPSKHash demoCipherConfig
           demoDecode demoRange ∅ "ss" 16 "/etc/ss/upsks.json" fsEmpty).
  - reflexivity.
  - vm_compute. reflexivity.
Defined.

End CredExtra.

(** * Further properties of the TCP relay *)

Module TCPRelayExtra.
Import TCPRelay TCPDemo TCPRelayProps.

Ltac handleConn_cases s cn :=
  destruct s as [? ? wait];
  destruct cn as [parse addr acc hold [[native dial]|] setd resetd];
  unfold handleConn, initialPayloadWait; simpl;
  destruct parse, addr; simpl;
  try (destruct acc as [rw a p| |]; simpl);
  try (destruct hold; simpl);
  try (destruct wait; simpl);
  try (destruct native; simpl);
  try (destruct (make_bytes _) as [buf|]; simpl);
  try (destruct setd; simpl);
  try (destruct (ReadZeroCopy _ _ _ _) as [b' pl|b'|]; simpl);
  try (destruct (slice _ _ _) as [p'|]; simpl);
  try (destruct resetd; simpl);
  try (destruct (dial _ _) eqn:Hdial; simpl).

(** X15.  Whatever happens, [handleConn] closes the client connection
    exactly once, as its last action; and it closes the remote connection
    exactly when a [Dial] returned one: there is at most one such [Dial],
    the two-way relay runs after it, and the remote connection is closed
    right after the relay, before the client connection. *)
Theorem handleConn_closes_what_it_opened (s : TCPRelay) (cn : conn) :
  exists evs,
    handleConn s cn = evs ++ [EvCloseClient] /\
    occurrences EvCloseClient evs = 0%nat /\
    occurrences EvCloseRemote evs = connected cn evs /\
    occurrences EvTwoWayRelay evs = connected cn evs /\
    (connected cn evs = 0%nat \/
     connected cn evs = 1%nat /\
     exists pre, evs = pre ++ [EvTwoWayRelay; EvCloseRemote] /\
                 occurrences EvTwoWayRelay pre = 0%nat /\
                 occurrences EvCloseRemote pre = 0%nat).
Proof.
  unfold handleConn. eexists. split; [reflexivity|].
  unfold connected.
  handleConn_cases s cn; unfold occurrences; simpl; rewrite ?Hdial; simpl;
    (split; [reflexivity|]); (split; [reflexivity|]); (split; [reflexivity|]);
    first
      [ left; reflexivity
      | right; split; [reflexivity|];
        first
          [ by exists [EvDial a p]
          | by eexists [_; _; _; _; EvDial a _] ] ].
Qed.

(** X16.  [handleConn] dials at most once, and never while the deadline
    of the initial-payload wait is still set on the client connection; it
    waits and allocates at most once, and a connection that was handed
    to the connection closer is never dialed for. *)
Theorem handleConn_dials_once_without_deadline (s : TCPRelay) (cn : conn) :
  dialsUnderDeadline false (handleConn s cn) = false /\
  (length (dialed (handleConn s cn)) <= 1)%nat /\
  (length (reads (handleConn s cn)) <= 1)%nat /\
  (length (allocated (handleConn s cn)) <= 1)%nat /\
  (occurrences EvConnCloserDo (handleConn s cn)
     + length (dialed (handleConn s cn)) <= 1)%nat.
Proof.
  handleConn_cases s cn; unfold occurrences; simpl; repeat split; lia.
Qed.

Lemma int_add_small (a b : Z) :
  - 2 ^ 63 <= a + b < 2 ^ 63 -> int_add a b = a + b.
Proof. apply wrap64_small. Qed.

(** X17.  When the wait times out, [Dial] does not get an empty payload:
    [payload] still is the slice that was allocated for the wait, so the
    remote connection is dialed with the whole wait buffer as the reader
    left it, [frontHeadroom + payloadBufSize + rearHeadroom] bytes, which
    are at least one. *)
Theorem handleConn_timeout_dials_with_the_wait_buffer
    (s : TCPRelay) (cn : conn) (c : TCPClient) (clientRW : ReadWriter)
    (targetAddr : Addr) (payload buf : list byte) :
  parseAddr_ok cn = true -> addrPort_ok cn = true ->
  accept cn = Accepted clientRW targetAddr payload ->
  getTCPClient cn = Some c ->
  waitForInitialPayload s = true -> NativeInitialPayload c = true ->
  setReadDeadline_ok cn = true -> resetReadDeadline_ok cn = true ->
  0 <= FrontHeadroom clientRW < 2 ^ 61 ->
  0 <= RearHeadroom clientRW < 2 ^ 61 ->
  0 <= MinPayloadBufferSizePerRead clientRW < 2 ^ 61 ->
  let n := FrontHeadroom clientRW + payloadBufSizeOf clientRW + RearHeadroom clientRW in
  ReadZeroCopy clientRW (repeat x00 (Z.to_nat n)) (FrontHeadroom clientRW)
    (payloadBufSizeOf clientRW) = ReadDeadlineExceeded buf ->
  len buf = n ->
  dialed (handleConn s cn) = [buf] /\ 0 < len buf /\
  reads (handleConn s cn) = [(n, FrontHeadroom clientRW, payloadBufSizeOf clientRW)].
Proof.
  intros Hp Ha Hacc Hc Hw Hn Hset Hreset Hf Hr Hm n Hread Hlen.
  assert (0 < payloadBufSizeOf clientRW < 2 ^ 61) as Hsize.
  { unfold payloadBufSizeOf, initialPayloadWaitBufferSize. case_decide; lia. }
  assert (len (repeat x00 (Z.to_nat n)) = n) as Hzeros.
  { unfold len. rewrite repeat_length. unfold n. lia. }
  split; [|split; [unfold n in *; lia|]];
    unfold handleConn, initialPayloadWait;
    rewrite Hp, Ha, Hacc, Hc, Hw, Hn, Hset, Hreset; simpl;
    rewrite (int_add_small (FrontHeadroom clientRW)) by lia;
    rewrite int_add_small by lia; fold n;
    unfold make_bytes; rewrite decide_True by (unfold n; lia);
    rewrite Hread, Hzeros; simpl;
    destruct (Dial c targetAddr _); reflexivity.
Qed.

(** X18.  When the wait reads [payloadLength] bytes, [Dial] gets exactly
    these: the part of the buffer that starts at the front headroom and
    is [payloadLength] bytes long, and nothing of what [Accept] returned. *)
Theorem handleConn_dials_with_the_bytes_read
    (s : TCPRelay) (cn : conn) (c : TCPClient) (clientRW : ReadWriter)
    (targetAddr : Addr) (payload buf : list byte) (payloadLength : Z) :
  parseAddr_ok cn = true -> addrPort_ok cn = true ->
  accept cn = Accepted clientRW targetAddr payload ->
  getTCPClient cn = Some c ->
  waitForInitialPayload s = true -> NativeInitialPayload c = true ->
  setReadDeadline_ok cn = true -> resetReadDeadline_ok cn = true ->
  0 <= FrontHeadroom clientRW < 2 ^ 61 ->
  0 <= RearHeadroom clientRW < 2 ^ 61 ->
  0 <= MinPayloadBufferSizePerRead clientRW < 2 ^ 61 ->
  let n := FrontHeadroom clientRW + payloadBufSizeOf clientRW + RearHeadroom clientRW in
  ReadZeroCopy clientRW (repeat x00 (Z.to_nat n)) (FrontHeadroom clientRW)
    (payloadBufSizeOf clientRW) = ReadOK buf payloadLength ->
  0 <= payloadLength ->
  FrontHeadroom clientRW + payloadLength <= len buf < 2 ^ 63 ->
  let read := take (Z.to_nat payloadLength) (drop (Z.to_nat (FrontHeadroom clientRW)) buf) in
  dialed (handleConn s cn) = [read] /\ len read = payloadLength.
Proof.
  intros Hp Ha Hacc Hc Hw Hn Hset Hreset Hf Hr Hm n Hread Hpl Hlen read.
  assert (0 < payloadBufSizeOf clientRW < 2 ^ 61) as Hsize.
  { unfold payloadBufSizeOf, initialPayloadWaitBufferSize. case_decide; lia. }
  split.
  - unfold handleConn, initialPayloadWait.
    rewrite Hp, Ha, Hacc, Hc, Hw, Hn, Hset, Hreset. simpl.
    rewrite (int_add_small (FrontHeadroom clientRW) (payloadBufSizeOf clientRW)) by lia.
    rewrite (int_add_small _ (RearHeadroom clientRW)) by lia. fold n.
    unfold make_bytes. rewrite decide_True by (unfold n; lia).
    rewrite Hread. simpl.
    rewrite int_add_small by lia.
    unfold slice. rewrite decide_True by lia.
    replace (FrontHeadroom clientRW + payloadLength - FrontHeadroom clientRW)
      with payloadLength by lia.
    fold read. simpl.
    destruct (Dial c targetAddr read); reflexivity.
  - unfold read, len in *. rewrite length_take, length_drop. lia.
Qed.

(** X17 at [connLate]: the byte that came too late and three zero
    bytes are dialed with. *)
Lemma handleConn_timeout_dials_with_the_wait_buffer_witness :
  dialed (handleConn relay connLate) = [[x68; x00; x00; x00]] /\
  0 < len [x68; x00; x00; x00] /\
  reads (handleConn relay connLate) = [(4, 0, 4)].
Proof.
  apply (handleConn_timeout_dials_with_the_wait_buffer relay connLate nativeClient
           lateReader "example.com:443" [] [x68; x00; x00; x00]);
    first [reflexivity | simpl; lia].
Defined.

(** X18 at [surfaced]: the two bytes read are dialed with. *)
Lemma handleConn_dials_with_the_bytes_read_witness :
  dialed (handleConn relay surfaced) = [[x68; x69]] /\ len [x68; x69] = 2.
Proof.
  apply (handleConn_dials_with_the_bytes_read relay surfaced nativeClient
           promptReader "example.com:443" [x01; x02; x03]
           ([x68; x69] ++ repeat x00 1278) 2).
  - reflexivity.
  - reflexivity.
  - reflexivity.
  - reflexivity.
  - reflexivity.
  - reflexivity.
  - reflexivity.
  - reflexivity.
  - simpl; lia.
  - simpl; lia.
  - simpl; lia.
  - vm_compute. reflexivity.
  - lia.
  - vm_compute. split; [discriminate | reflexivity].
Defined.

End TCPRelayExtra.

(** * Properties of packages [conn] and [direct] *)

Module ConnProps.
Import conn.

Lemma Z_of_byte_of_Z (x : Z) : Z_of_byte (byte_of_Z x) = Z.land x 255.
Proof.
  unfold Z_of_byte, byte_of_Z.
  assert (0 <= Z.land x 255 < 256) as Hr.
  { change 255 with (Z.ones 8). rewrite Z.land_ones by lia.
    apply Z.mod_pos_bound. lia. }
  destruct (Byte.of_N (Z.to_N (Z.land x 255))) as [b|] eqn:Hb.
  - apply Byte.to_of_N in Hb. rewrite Hb. lia.
  - apply Byte.of_N_None_iff in Hb. lia.
Qed.

Lemma portOf_portBytes (port : Z) :
  0 <= port < 2 ^ 16 -> portOf (portBytes port) = port.
Proof.
  intros Hp. unfold portOf, portBytes. simpl nth.
  rewrite !Z_of_byte_of_Z.
  change 255 with (Z.ones 8). rewrite !Z.land_ones by lia.
  rewrite Z.shiftr_div_pow2, Z.shiftl_mul_pow2 by lia.
  assert (0 <= port / 2 ^ 8 < 2 ^ 8) as Hq.
  { split; [apply Z.div_pos; lia | apply Z.div_lt_upper_bound; lia]. }
  rewrite (Z.mod_small (port / 2 ^ 8)) by lia.
  pose proof (Z.div_mod port (2 ^ 8) ltac:(lia)) as Hdm.
  pose proof (Z.mod_pos_bound port (2 ^ 8) ltac:(lia)) as Hm.
  rewrite (Z.mod_small (port / 2 ^ 8 * 2 ^ 8)) by lia.
  rewrite Z.mod_small by lia. lia.
Qed.

(** X19.  The conversions from a raw socket address undo the
    conversions to one: an address and a port that go through
    [AddrPortToSockaddrValue] and [SockaddrValueToAddrPort], or through
    [AddrPortToSockaddr] and [SockaddrToAddrPort], come out unchanged,
    except that an IPv6 address loses its zone and the zero address
    becomes the unspecified IPv6 address; and the value that
    [AddrPortToSockaddrValue] builds reads the same through a pointer. *)
Theorem sockaddr_round_trip
    (AF_INET AF_INET6 SizeofSockaddrInet4 SizeofSockaddrInet6 : Z)
    (ip : netip.Addr) (port : Z) :
  SizeofSockaddrInet4 ≠ SizeofSockaddrInet6 ->
  0 <= port < 2 ^ 16 ->
  let back : netip.AddrPort :=
    (match ip with
     | netip.AddrZero => netip.Addr6 (repeat x00 16) EmptyString
     | netip.Addr4 a => netip.Addr4 a
     | netip.Addr6 a _ => netip.Addr6 a EmptyString
     end, port) in
  let value :=
    AddrPortToSockaddrValue AF_INET AF_INET6 SizeofSockaddrInet4 SizeofSockaddrInet6
      (ip, port) in
  let pointer :=
    AddrPortToSockaddr AF_INET AF_INET6 SizeofSockaddrInet4 SizeofSockaddrInet6
      (ip, port) in
  SockaddrValueToAddrPort SizeofSockaddrInet4 SizeofSockaddrInet6
    (fst value) (snd value) = inl back /\
  SockaddrToAddrPort SizeofSockaddrInet4 SizeofSockaddrInet6
    (fst pointer) (snd pointer) = Some (inl back) /\
  SockaddrToAddrPort SizeofSockaddrInet4 SizeofSockaddrInet6
    (NameInet6 (fst value)) (snd value) = Some (inl back) /\
  snd value = snd pointer.
Proof.
  intros Hne Hport.
  unfold AddrPortToSockaddrValue, SockaddrValueToAddrPort, AddrPortToSockaddr,
    SockaddrToAddrPort, AddrPortToSockaddrInet4, AddrPortToSockaddrInet6.
  destruct ip as [|a|a zone]; simpl;
    rewrite (portOf_portBytes port Hport);
    repeat case_decide; done.
Qed.

Lemma land_lnot_pred_pow2 (x k : Z) :
  0 <= k -> Z.land x (Z.lnot (2 ^ k - 1)) = 2 ^ k * (x / 2 ^ k).
Proof.
  intros Hk.
  replace (2 ^ k - 1) with (Z.ones k) by (rewrite Z.ones_equiv; lia).
  rewrite <- Z.ldiff_land, Z.ldiff_ones_r by done.
  rewrite Z.shiftr_div_pow2, Z.shiftl_mul_pow2 by done. lia.
Qed.

(** X20.  [SocketControlMessageBufferSize] is the header size plus the
    size of [Inet6Pktinfo] rounded up to the pointer size: when the
    pointer size is a power of two, the part after the header is the
    least multiple of the pointer size that holds an [Inet6Pktinfo]. *)
Theorem SocketControlMessageBufferSize_is_aligned
    (SizeofCmsghdr SizeofInet6Pktinfo SizeofPtr k : Z) :
  0 <= k -> SizeofPtr = 2 ^ k ->
  let space :=
    SocketControlMessageBufferSize SizeofCmsghdr SizeofInet6Pktinfo SizeofPtr
      - SizeofCmsghdr in
  space mod SizeofPtr = 0 /\
  SizeofInet6Pktinfo <= space < SizeofInet6Pktinfo + SizeofPtr /\
  SizeofCmsghdr + SizeofInet6Pktinfo
    <= SocketControlMessageBufferSize SizeofCmsghdr SizeofInet6Pktinfo SizeofPtr.
Proof.
  intros Hk -> space.
  assert (space = 2 ^ k * ((SizeofInet6Pktinfo + 2 ^ k - 1) / 2 ^ k)) as Hs.
  { unfold space, SocketControlMessageBufferSize.
    rewrite land_lnot_pred_pow2 by done. lia. }
  assert (0 < 2 ^ k) as Hpos by (apply Z.pow_pos_nonneg; lia).
  pose proof (Z.div_mod (SizeofInet6Pktinfo + 2 ^ k - 1) (2 ^ k) ltac:(lia)) as Hdm.
  pose proof (Z.mod_pos_bound (SizeofInet6Pktinfo + 2 ^ k - 1) (2 ^ k) Hpos) as Hm.
  split; [|split].
  - rewrite Hs, Z.mul_comm. apply Z.mod_mul. lia.
  - lia.
  - unfold space in Hs. lia.
Qed.

(** ** [WriteMsgvec] *)

Lemma sentBy_nonneg (n processed : Z) (results : list sysResult) :
  kernelSane n processed results -> 0 <= sentBy results /\ 0 <= droppedBy results.
Proof.
  revert processed. induction results as [|[r0| |e] rest IH]; intros processed; simpl.
  - lia.
  - intros [Hr0 Hs]. specialize (IH _ Hs). lia.
  - intros Hs. specialize (IH _ Hs). lia.
  - intros Hs. specialize (IH _ Hs). lia.
Qed.

Lemma writeCallback_accounts (results : list sysResult) :
  forall (n processed : Z) (err : option writeError) (calls : list (Z * Z))
         (perr : option string),
  0 <= processed < n -> n < 2 ^ 62 ->
  kernelSane n processed results ->
  match writeCallback n processed err calls results perr with
  | WriteReturned err' _ =>
      exists used rest,
        results = used ++ rest /\
        (processed + sentBy used + droppedBy used = n \/
         rest = [] /\ is_Some perr /\
         processed + sentBy used + droppedBy used < n) /\
        (err' = None <->
         err = None /\ droppedBy used = 0 /\ processed + sentBy used = n)
  | WritePanicked _ => False
  | WriteWaiting _ =>
      perr = None /\ processed + sentBy results + droppedBy results < n
  end.
Proof.
  induction results as [|r rest IH]; intros n processed err calls perr Hp Hn Hsane.
  - simpl. destruct perr as [msg|].
    + exists [], []. simpl. split; [done|]. split.
      * right. split; [done|]. split; [eauto | lia].
      * destruct err as [e0|];
          (split; [intros [=] | intros (? & ? & ?); (done || lia)]).
    + split; [done | lia].
  - cbn [writeCallback]. rewrite decide_True by done.
    destruct r as [r0| |e]; cbn [kernelSane] in Hsane.
    + destruct Hsane as [Hr0 Hsane].
      assert (int_add processed r0 = processed + r0) as ->.
      { unfold int_add, wrap64. rewrite Z.mod_small by lia. lia. }
      case_decide as Hdone.
      * exists [SysSent r0], rest. simpl. split; [done|]. split; [left; lia|].
        split; [intros ->; repeat split; lia | by intros (-> & _)].
      * specialize (IH n (processed + r0) err
                      ((processed, int_sub n processed) :: calls) perr
                      ltac:(lia) Hn Hsane).
        destruct (writeCallback _ _ _ _ _ _) as [err' calls'|calls'|calls'].
        -- destruct IH as (used & rest' & -> & Hacc & Herr).
           exists (SysSent r0 :: used), rest'. simpl. split; [done|].
           split; [destruct Hacc as [?|(? & ? & ?)]; [left | right]; repeat split;
                   (done || lia)|].
           rewrite Herr. split; intros (? & ? & ?); repeat split; (done || lia).
        -- done.
        -- simpl. destruct IH. split; [done | lia].
    + specialize (IH n processed err ((processed, int_sub n processed) :: calls) perr
                    Hp Hn Hsane).
      destruct (writeCallback _ _ _ _ _ _) as [err' calls'|calls'|calls'].
      * destruct IH as (used & rest' & -> & Hacc & Herr).
        exists (SysAgain :: used), rest'. simpl. done.
      * done.
      * done.
    + assert (int_add processed 1 = processed + 1) as ->.
      { unfold int_add, wrap64. rewrite Z.mod_small by lia. lia. }
      case_decide as Hdone.
      * exists [SysErrno e], rest. simpl. split; [done|]. split; [left; lia|].
        split; [done | intros (_ & ? & _); lia].
      * specialize (IH n (processed + 1) (Some (ErrSendmmsg e))
                      ((processed, int_sub n processed) :: calls) perr
                      ltac:(lia) Hn Hsane).
        destruct (writeCallback _ _ _ _ _ _) as [err' calls'|calls'|calls'].
        -- destruct IH as (used & rest' & -> & Hacc & Herr).
           pose proof (sentBy_nonneg n (processed + 1) (used ++ rest') Hsane) as Hnn.
           exists (SysErrno e :: used), rest'. simpl. split; [done|].
           split; [destruct Hacc as [?|(? & ? & ?)]; [left | right]; repeat split;
                   (done || lia)|].
           rewrite Herr. split; [intros (? & _); done|].
           intros (_ & Hd & _).
           assert (0 <= droppedBy used); [|lia].
           clear -Hsane. revert Hsane. generalize (processed + 1).
           induction used as [|[r0| |e'] used IHu]; intros q; simpl; try lia.
           ++ intros [_ Hs]. by apply (IHu (q + r0)).
           ++ apply IHu.
           ++ intros Hs. specialize (IHu _ Hs). lia.
        -- done.
        -- simpl. destruct IH. split; [done | lia].
Qed.

Lemma writeCallback_calls (results : list sysResult) :
  forall (n processed : Z) (err : option writeError) (calls : list (Z * Z))
         (perr : option string),
  n < 2 ^ 62 ->
  Forall (fun c => 0 <= fst c < n /\ snd c = n - fst c) calls ->
  Forall (fun c => 0 <= fst c < n /\ snd c = n - fst c)
    (callsOf (writeCallback n processed err calls results perr)).
Proof.
  induction results as [|r rest IH]; intros n processed err calls perr Hn Hcalls.
  - simpl. by destruct perr.
  - cbn [writeCallback]. case_decide as Hp; [|done].
    assert (int_sub n processed = n - processed) as ->.
    { unfold int_sub, wrap64. rewrite Z.mod_small by lia. lia. }
    assert (Forall (fun c => 0 <= fst c < n /\ snd c = n - fst c)
              ((processed, n - processed) :: calls)) as Hcalls'.
    { constructor; [simpl; lia | done]. }
    destruct r as [r0| |e]; try case_decide; try done; by apply IH.
Qed.

(** X21.  [WriteMsgvec] on a non-empty [msgvec], with a kernel that on
    success reports between one and as many messages as it was passed:
    it never panics and never passes [sendmmsg] a range outside
    [msgvec]; it is left waiting only while fewer than all messages are
    done and the connection has not failed; and when it returns without
    the connection failing, every message was either sent or, one for
    each failed call, dropped.  It returns nil exactly when all messages
    were sent. *)
Theorem WriteMsgvec_sends_or_drops_every_message
    (n : Z) (results : list sysResult) (perr : option string) :
  0 < n < 2 ^ 62 ->
  kernelSane n 0 results ->
  Forall (fun c => 0 <= fst c < n /\ snd c = n - fst c)
    (callsOf (WriteMsgvec true n results perr)) /\
  match WriteMsgvec true n results perr with
  | WriteReturned err _ =>
      exists used rest,
        results = used ++ rest /\
        (sentBy used + droppedBy used = n \/
         rest = [] /\ is_Some perr /\ sentBy used + droppedBy used < n) /\
        (err = None <-> droppedBy used = 0 /\ sentBy used = n)
  | WritePanicked _ => False
  | WriteWaiting _ => perr = None /\ sentBy results + droppedBy results < n
  end.
Proof.
  intros Hn Hsane. unfold WriteMsgvec. split.
  - apply writeCallback_calls; [lia | constructor].
  - pose proof (writeCallback_accounts results n 0 None [] perr
                  ltac:(lia) ltac:(lia) Hsane) as H.
    destruct (writeCallback _ _ _ _ _ _) as [err' calls'|calls'|calls']; [|done|done].
    destruct H as (used & rest & -> & Hacc & Herr).
    exists used, rest. split; [done|]. split.
    + destruct Hacc as [?|(? & ? & ?)]; [left | right]; repeat split; (done || lia).
    + rewrite Herr. split; [intros (_ & ? & ?) | intros (? & ?)]; repeat split;
        (done || lia).
Qed.

(** On an empty [msgvec] the first call of the function that
    [WriteMsgvec] passes to [rawConn.Write] panics. *)
Lemma WriteMsgvec_empty_msgvec_panics
    (r : sysResult) (results : list sysResult) (perr : option string) :
  WriteMsgvec true 0 (r :: results) perr = WritePanicked [].
Proof. done. Qed.

(** X19 for 192.0.2.1:8080, with the sizes of Linux. *)
Lemma sockaddr_round_trip_witness :
  let back : netip.AddrPort := (netip.Addr4 [xc0; x00; x02; x01], 8080) in
  let value := AddrPortToSockaddrValue 2 10 16 28 (netip.Addr4 [xc0; x00; x02; x01], 8080) in
  let pointer := AddrPortToSockaddr 2 10 16 28 (netip.Addr4 [xc0; x00; x02; x01], 8080) in
  SockaddrValueToAddrPort 16 28 (fst value) (snd value) = inl back /\
  SockaddrToAddrPort 16 28 (fst pointer) (snd pointer) = Some (inl back) /\
  SockaddrToAddrPort 16 28 (NameInet6 (fst value)) (snd value) = Some (inl back) /\
  snd value = snd pointer.
Proof.
  apply (sockaddr_round_trip 2 10 16 28 (netip.Addr4 [xc0; x00; x02; x01]) 8080).
  - discriminate.
  - lia.
Defined.

(** X20 with the sizes of 64-bit Linux: 16 + 24 bytes. *)
Lemma SocketControlMessageBufferSize_is_aligned_witness :
  let space := SocketControlMessageBufferSize 16 20 8 - 16 in
  space mod 8 = 0 /\
  20 <= space < 20 + 8 /\
  16 + 20 <= SocketControlMessageBufferSize 16 20 8.
Proof.
  apply (SocketControlMessageBufferSize_is_aligned 16 20 8 3).
  - lia.
  - reflexivity.
Defined.

(** X21 for five messages: two are sent, the socket is not ready, the
    third message fails, the last two are sent. *)
Lemma WriteMsgvec_sends_or_drops_every_message_witness :
  Forall (fun c => 0 <= fst c < 5 /\ snd c = 5 - fst c)
    (callsOf (WriteMsgvec true 5 [SysSent 2; SysAgain; SysErrno 90; SysSent 2] None)) /\
  match WriteMsgvec true 5 [SysSent 2; SysAgain; SysErrno 90; SysSent 2] None with
  | WriteReturned err _ =>
      exists used rest,
        [SysSent 2; SysAgain; SysErrno 90; SysSent 2] = used ++ rest /\
        (sentBy used + droppedBy used = 5 \/
         rest = [] /\ is_Some (@None string) /\ sentBy used + droppedBy used < 5) /\
        (err = None <-> droppedBy used = 0 /\ sentBy used = 5)
  | WritePanicked _ => False
  | WriteWaiting _ =>
      @None string = None /\
      sentBy [SysSent 2; SysAgain; SysErrno 90; SysSent 2]
        + droppedBy [SysSent 2; SysAgain; SysErrno 90; SysSent 2] < 5
  end.
Proof.
  apply (WriteMsgvec_sends_or_drops_every_message 5
           [SysSent 2; SysAgain; SysErrno 90; SysSent 2] None).
  - lia.
  - simpl. lia.
Defined.

End ConnProps.

Module DirectProps.
Import direct.

(** X22.  [Socks5TCPClient.Dial] never hands the payload to the dialer,
    writes it at most once, whole, right after the handshake and only
    when it is not empty, and leaves no connection behind: the raw
    connection is still open when [Dial] returns exactly when [Dial]
    returns no error, and then both returned connections are set and a
    payload that is not empty has been written. *)
Theorem Socks5TCPClient_Dial_leaves_no_connection_behind
    (c : Socks5TCPClient) (env : dialEnv) (targetAddr : string) (payload : list byte) :
  let tr := fst (Socks5TCPClient_Dial c env targetAddr payload) in
  let r := snd (Socks5TCPClient_Dial c env targetAddr payload) in
  head tr = Some (DvDial "tcp" (s5address c) None) /\
  leftOpen env tr = negb (failed r) /\
  (failed r = false -> rawRW_set r = true /\ rw_set r = true) /\
  (writes tr = [] \/
   writes tr = [(payload, 0, len payload)] /\ payload ≠ [] /\
   exists post, tr = DvDial "tcp" (s5address c) None :: DvHandshake targetAddr
                       :: DvWriteZeroCopy payload 0 (len payload) :: post) /\
  (payload ≠ [] -> failed r = false -> writes tr = [(payload, 0, len payload)]).
Proof.
  unfold Socks5TCPClient_Dial, leftOpen, writes.
  assert (payload ≠ [] <-> len payload > 0) as Hlen.
  { destruct payload; unfold len; simpl; split; (done || lia). }
  destruct env as [[] [] ? []]; simpl; try case_decide; simpl;
    (split; [reflexivity|]); (split; [reflexivity|]); (split; [done|]);
    (split; [first [by left | right; split; [done|]; split; [by apply Hlen|]; eauto]
            | intros Hne Hok; first [done | by apply Hlen in Hne]]).
Qed.

(** X23.  [direct.TCPClient] reports native support for the initial
    payload exactly when its dialer was made with TFO enabled, and its
    [Dial] hands the payload to the dialer; [Socks5TCPClient] never
    reports it, whatever its dialer, and its [Dial] hands the dialer no
    payload; no server of the package reports it.  The dialers set
    [SO_MARK] exactly for a non-zero mark. *)
Theorem native_initial_payload_follows_the_dialer
    (name address targetAddr : string) (tfo : bool) (fwmark : Z)
    (env : dialEnv) (payload : list byte) :
  NativeInitialPayload (TCPClient_Info (NewTCPClient name tfo fwmark)) = tfo /\
  head (fst (TCPClient_Dial (NewTCPClient name tfo fwmark) env targetAddr payload))
    = Some (DvDial "tcp" targetAddr (Some payload)) /\
  NativeInitialPayload
    (Socks5TCPClient_Info (NewSocks5TCPClient name address tfo fwmark)) = false /\
  head (fst (Socks5TCPClient_Dial (NewSocks5TCPClient name address tfo fwmark)
               env targetAddr payload))
    = Some (DvDial "tcp" address None) /\
  serverNativeInitialPayload TCPServer_Info = false /\
  (conn.Control (dialer (NewTCPClient name tfo fwmark)) = None <-> fwmark = 0) /\
  (conn.lcControl (conn.NewListenConfig tfo fwmark) = None <-> fwmark = 0) /\
  conn.lcDisableTFO (conn.NewListenConfig tfo fwmark) = negb tfo.
Proof.
  unfold TCPClient_Dial, Socks5TCPClient_Dial. simpl.
  split; [by destruct tfo|].
  split; [by destruct (dial_ok env)|].
  split; [done|].
  split; [destruct (dial_ok env), (handshake_ok env), (write_ok env); simpl;
          repeat case_decide; done|].
  split; [done|].
  split; [|split; [|done]]; case_decide; split; intros; (done || lia).
Qed.

End DirectProps.

(** * Further properties of the UDP session relay *)

Module UDPSessionRelayExtra.
Import UDPSessionRelay UDPDemo UDPSessionRelayProps.

Lemma channel_ok_mono (capacity g g' : nat) (e : session) :
  (g <= g')%nat -> channel_ok capacity g e -> channel_ok capacity g' e.
Proof.
  intros Hg (Hlen & Hsorted & Hall). repeat split; [done | done |].
  eapply Forall_impl; [exact Hall|]. simpl. lia.
Qed.

Lemma in_arrival_order_snoc (l : list nat) (b : nat) :
  in_arrival_order l -> Forall (fun x => (x < b)%nat) l -> in_arrival_order (l ++ [b]).
Proof.
  intros Hsorted Hall i j x y Hij Hi Hj.
  destruct (decide (j < length l)%nat) as [Hin|Hout].
  - rewrite lookup_app_l in Hi by lia. rewrite lookup_app_l in Hj by lia.
    by apply (Hsorted i j).
  - rewrite lookup_app_r in Hj by lia.
    destruct (j - length l)%nat eqn:Hj0; [|done].
    injection Hj as <-.
    rewrite lookup_app_l in Hi by lia.
    rewrite Forall_lookup in Hall. by apply (Hall i).
Qed.

Lemma channel_ok_push (capacity g : nat) (e : session) (pkt : queuedPacket) :
  channel_ok capacity g e ->
  (length (natConnSendCh e) < capacity)%nat ->
  qp_bufp pkt = g ->
  channel_ok capacity (S g) (set_natConnSendCh (natConnSendCh e ++ [pkt]) e).
Proof.
  intros (Hlen & Hsorted & Hall) Hroom Hb. unfold channel_ok, borrows in *. simpl.
  rewrite length_app, fmap_app. simpl. repeat split.
  - lia.
  - apply in_arrival_order_snoc; [done|]. by rewrite Hb.
  - apply Forall_app. split.
    + eapply Forall_impl; [exact Hall|]. simpl. lia.
    + apply Forall_singleton. lia.
Qed.

Lemma channel_ok_pop (capacity g : nat) (e : session) (pkt : queuedPacket)
    (rest : list queuedPacket) :
  channel_ok capacity g e ->
  natConnSendCh e = pkt :: rest ->
  channel_ok capacity g (set_natConnSendCh rest e).
Proof.
  intros (Hlen & Hsorted & Hall) Hch. unfold channel_ok, borrows in *. simpl.
  rewrite Hch in *. simpl in *.
  apply Forall_cons in Hall as [_ Hall].
  repeat split; [lia | | done].
  intros i j x y Hij Hi Hj. apply (Hsorted (S i) (S j)); (done || lia).
Qed.

Section Channels.
Variable sendChannelCapacity : nat.
Variables IPv4HeaderLength IPv6HeaderLength UDPHeaderLength : Z.

Local Abbreviation trySend := (trySend sendChannelCapacity).
Local Abbreviation receiveIteration :=
  (receiveIteration sendChannelCapacity IPv4HeaderLength IPv6HeaderLength UDPHeaderLength).
Local Abbreviation exec :=
  (exec sendChannelCapacity IPv4HeaderLength IPv6HeaderLength UDPHeaderLength).
Local Abbreviation run :=
  (run sendChannelCapacity IPv4HeaderLength IPv6HeaderLength UDPHeaderLength).
Local Abbreviation channels_ok := (channels_ok sendChannelCapacity).
Local Abbreviation channel_ok := (channel_ok sendChannelCapacity).

Lemma trySend_channels_ok (idx : nat) (entry : session) (pkt : queuedPacket)
    (st st' : state) (c : control) (g : nat) :
  Forall (channel_ok g) (sessions st) ->
  channel_ok g entry ->
  gets st = S g -> qp_bufp pkt = g ->
  trySend idx entry pkt st = (st', c) ->
  channels_ok st'.
Proof.
  intros Hall He Hg Hb. unfold UDPSessionRelay.trySend, UDPSessionRelay.channels_ok.
  assert (Forall (channel_ok (S g)) (sessions st)) as Hall'.
  { eapply Forall_impl; [exact Hall|]. intros e. apply channel_ok_mono. lia. }
  destruct (sendChClosed entry); [intros [= <- <-]; by rewrite Hg|].
  case_decide; intros [= <- <-]; simpl; rewrite Hg; [|done].
  apply Forall_insert; [done|]. by apply channel_ok_push.
Qed.

Lemma receiveIteration_channels_ok (dg : datagram) (st st' : state) (c : control) :
  channels_ok st -> receiveIteration dg st = (st', c) -> channels_ok st'.
Proof.
  intros Hall. unfold UDPSessionRelay.receiveIteration, Get.
  assert (forall st1 c1,
            sessions st1 = sessions st -> gets st1 = S (gets st) ->
            (st1, c1) = (st', c) -> channels_ok st') as Hdrop.
  { intros st1 c1 Hs Hg [= <- <-]. unfold UDPSessionRelay.channels_ok.
    rewrite Hs, Hg. eapply Forall_impl; [exact Hall|].
    intros e. apply channel_ok_mono. lia. }
  repeat case_match; try (by apply Hdrop); simpl in *.
  all: try (intros [= <- <-]; eapply Hdrop; [| |reflexivity]; done).
  all: try match goal with H : sessions _ !! _ = Some _ |- _ =>
      pose proof (proj1 (Forall_lookup _ _) Hall _ _ H) end.
  all: apply (trySend_channels_ok _ _ _ _ _ _ (gets st)); try done; simpl.
  all: first
    [ by apply Forall_insert
    | apply Forall_app; (split; [done|]); apply Forall_singleton;
      repeat split; simpl; [lia | intros i j x y _ Hi; done | constructor]
    | repeat split; simpl; [lia | intros i j x y _ Hi; done | constructor] ].
Qed.

Lemma upstreamIteration_channels_ok (idx : nat) (fw : forwarding)
    (st st' : state) (c : control) :
  channels_ok st -> upstreamIteration idx fw st = (st', c) -> channels_ok st'.
Proof.
  intros Hall. unfold upstreamIteration.
  destruct (sessions st !! idx) as [entry|] eqn:He; [|by intros [= <- <-]].
  pose proof (proj1 (Forall_lookup _ _) Hall _ _ He) as Hentry.
  destruct (natConnSendCh entry) as [|pkt rest] eqn:Hch;
    [by destruct (sendChClosed entry); intros [= <- <-]|].
  pose proof (channel_ok_pop _ _ _ _ _ Hentry Hch) as Hpop.
  assert (Forall (channel_ok (gets st))
            (<[idx := set_natConnSendCh rest entry]> (sessions st))) as Hall1
    by (by apply Forall_insert).
  assert (Forall (channel_ok (gets st))
            (<[idx := set_cachedTargetAddr (qp_targetAddr pkt)
                        (set_natConnSendCh rest entry)]>
               (<[idx := set_natConnSendCh rest entry]> (sessions st)))) as Hall2
    by (by apply Forall_insert).
  repeat case_match; intros [= <- <-]; done.
Qed.

Lemma teardown_channels_ok (idx : nat) (st st' : state) (c : control) :
  channels_ok st -> teardown idx st = (st', c) -> channels_ok st'.
Proof.
  intros Hall. unfold teardown.
  destruct (sessions st !! idx) as [entry|] eqn:He; [|by intros [= <- <-]].
  pose proof (proj1 (Forall_lookup _ _) Hall _ _ He) as Hentry.
  destruct (sendChClosed entry); intros [= <- <-]; [done|].
  unfold UDPSessionRelay.channels_ok. simpl. by apply Forall_insert.
Qed.

Lemma run_channels_ok (acts : list action) (st st' : state) (c : control) :
  channels_ok st -> run acts st = (st', c) -> channels_ok st'.
Proof.
  revert st. induction acts as [|a rest IH]; intros st Hall; simpl.
  - by intros [= <- <-].
  - destruct (exec a st) as [st1 c1] eqn:Hex.
    assert (channels_ok st1) as Hall1.
    { destruct a; simpl in Hex.
      - by eapply receiveIteration_channels_ok.
      - by eapply upstreamIteration_channels_ok.
      - by eapply teardown_channels_ok. }
    destruct c1; [by apply IH | by apply IH | by intros [= <- <-]].
Qed.

(** X24.  In every state that the relay reaches, in every schedule of
    its goroutines, each send channel holds at most
    [sendChannelCapacity] packets, and holds them in the order in which
    the receive loop borrowed their buffers: the head, which the upstream
    worker takes next, is the oldest packet of the session. *)
Theorem send_channels_are_bounded_and_in_arrival_order
    (mtu : Z) (acts : list action) (st : state) (c : control)
    (idx : nat) (e : session) :
  run acts (init mtu) = (st, c) ->
  sessions st !! idx = Some e ->
  (length (natConnSendCh e) <= sendChannelCapacity)%nat /\
  in_arrival_order (borrows e) /\
  Forall (fun b => (b < gets st)%nat) (borrows e).
Proof.
  intros Hrun He.
  assert (channels_ok st) as Hall.
  { eapply run_channels_ok; [|exact Hrun]. constructor. }
  exact (proj1 (Forall_lookup _ _) Hall _ _ He).
Qed.

(** ** Datagrams that are dropped *)

(** X25.  A datagram that fails -- a read or flag error, no session
    information, an unpack failure, or a failing step of opening its
    session -- has no effect on the sessions: the table and every
    session are as before, no channel takes the buffer, and the receive
    loop returns it to the pool.  The loop logs a warning and goes on,
    unless the read found the server connection closed: then it ends,
    without a warning. *)
Theorem failed_datagram_changes_no_session
    (dg : datagram) (st st' : state) (c : control) :
  table_ok st ->
  fails dg st ->
  receiveIteration dg st = (st', c) ->
  table st' = table st /\ sessions st' = sessions st /\
  puts st' = (ReceiveLoop, gets st) :: puts st /\
  sends st' = sends st /\ gets st' = S (gets st) /\
  (read dg = ReadClosed /\ c = Break /\ warns st' = warns st \/
   read dg ≠ ReadClosed /\ c = Continue /\ (warns st < warns st')%nat).
Proof.
  intros Hok Hf Hrun.
  destruct (receiveIteration_outcome _ _ _ _ dg st st' c Hok Hrun)
    as [(_ & H) | [(Hnf & _) | (Hnf & _)]]; [exact H | done | done].
Qed.

(** ** A session from its first datagram to its workers *)

Lemma receiveIteration_opens (dg : datagram) (st : state) (k : N) (cl : UDPClient)
    (natPacker serverPacker : Packer) :
  opens k dg cl natPacker serverPacker ->
  table st !! k = None ->
  exists st' e,
    receiveIteration dg st = (st', Continue) /\
    table st' = <[k := length (sessions st)]> (table st) /\
    sessions st' = sessions st ++ [e] /\
    csid e = k /\ sendChClosed e = false /\
    natConnPacker e = natPacker /\ serverConnPacker e = serverPacker /\
    clientAddrPort e = dg_clientAddrPort dg /\
    maxClientPacketSize e =
      int_sub (int_sub (mtu st)
                 (if clientIs4 dg then IPv4HeaderLength else IPv6HeaderLength))
        UDPHeaderLength /\
    borrows e = (if decide (0 < sendChannelCapacity)%nat then [gets st] else []) /\
    gets st' = S (gets st) /\
    warns st' = (warns st + (if listenUDP_serr dg then 1 else 0)
                 + (if updateOobCache_ok dg then 0 else 1))%nat.
Proof.
  intros ((Hread & Hflags & Hk & Hunpack) & Hnew & Hcl & Hsess & Hpacker & Hlisten & Hdl)
    Hfresh.
  unfold UDPSessionRelay.receiveIteration, UDPSessionRelay.trySend, Get. simpl.
  rewrite Hread, Hflags, Hk, Hfresh, Hnew, Hunpack, Hcl, Hsess, Hpacker, Hlisten, Hdl.
  simpl. destruct (listenUDP_serr dg), (updateOobCache_ok dg); simpl.
  all: case_decide as Hroom; simpl in Hroom.
  all: eexists _, _; (split; [reflexivity|]); simpl; (split; [done|]).
  all: split;
    [ first [ rewrite insert_app_r_alt by done; rewrite Nat.sub_diag; reflexivity
            | reflexivity ] |].
  all: simpl; destruct (clientIs4 dg); repeat split; (done || lia).
Qed.

(** X26.  The size that the receive loop computes when it opens a
    session is the size of the buffer that the session's downstream
    worker allocates: for the first datagram of a session, opened
    without an error, the new session is registered under its ID, and
    its worker allocates one buffer of
    [frontHeadroom + (mtu - IP header - UDP header) + rearHeadroom]
    bytes, with the IPv4 header length for an IPv4 client and the IPv6
    header length otherwise. *)
Theorem new_session_sizes_the_downstream_buffer
    (dg : datagram) (st : state) (k : N) (cl : UDPClient)
    (natPacker serverPacker : Packer) (replies : list reply) :
  opens k dg cl natPacker serverPacker ->
  table st !! k = None ->
  0 <= FrontHeadroom serverPacker < 2 ^ 61 ->
  0 <= RearHeadroom serverPacker < 2 ^ 61 ->
  0 <= FrontHeadroom natPacker < 2 ^ 61 ->
  0 <= RearHeadroom natPacker < 2 ^ 61 ->
  let ipHeader := if clientIs4 dg then IPv4HeaderLength else IPv6HeaderLength in
  0 <= ipHeader < 2 ^ 61 -> 0 <= UDPHeaderLength < 2 ^ 61 ->
  ipHeader + UDPHeaderLength <= mtu st < 2 ^ 61 ->
  exists st' e,
    receiveIteration dg st = (st', Continue) /\
    table st' !! k = Some (length (sessions st)) /\
    sessions st' !! length (sessions st) = Some e /\
    maxClientPacketSize e = mtu st - ipHeader - UDPHeaderLength /\
    allocations (relayNatConnToServerConnGeneric e replies) =
      [Z.max (FrontHeadroom serverPacker - FrontHeadroom natPacker) 0
       + (mtu st - ipHeader - UDPHeaderLength)
       + Z.max (RearHeadroom serverPacker - RearHeadroom natPacker) 0].
Proof.
  intros Hopens Hfresh HsF HsR HcF HcR ipHeader Hip Hudp Hmtu.
  destruct (receiveIteration_opens dg st k cl natPacker serverPacker Hopens Hfresh)
    as (st' & e & Hrun & Htable & Hsessions & _ & _ & Hnat & Hserver & _ & Hmax & _).
  fold ipHeader in Hmax.
  assert (maxClientPacketSize e = mtu st - ipHeader - UDPHeaderLength) as Hsize.
  { rewrite Hmax. unfold int_sub. rewrite (wrap64_id (mtu st - ipHeader)) by lia.
    apply wrap64_id. lia. }
  exists st', e. split; [done|].
  split; [by rewrite Htable, lookup_insert_eq|].
  split; [by rewrite Hsessions, lookup_app_r, Nat.sub_diag|].
  split; [done|].
  unfold relayNatConnToServerConnGeneric. rewrite Hnat, Hserver, Hsize.
  set (fh := if decide (_ > _) then _ else 0).
  set (rh := if decide (_ > _) then _ else 0).
  assert (fh = Z.max (FrontHeadroom serverPacker - FrontHeadroom natPacker) 0) as ->.
  { unfold fh, int_sub. case_decide; [rewrite wrap64_id|]; lia. }
  assert (rh = Z.max (RearHeadroom serverPacker - RearHeadroom natPacker) 0) as ->.
  { unfold rh, int_sub. case_decide; [rewrite wrap64_id|]; lia. }
  set (frontHeadroom := Z.max (FrontHeadroom serverPacker - FrontHeadroom natPacker) 0).
  set (rearHeadroom := Z.max (RearHeadroom serverPacker - RearHeadroom natPacker) 0).
  set (size := mtu st - ipHeader - UDPHeaderLength).
  assert (0 <= frontHeadroom < 2 ^ 61) by (unfold frontHeadroom; lia).
  assert (0 <= rearHeadroom < 2 ^ 61) by (unfold rearHeadroom; lia).
  assert (0 <= size < 2 ^ 61) by (unfold size; lia).
  unfold int_add. rewrite (wrap64_id (frontHeadroom + size)) by lia.
  rewrite wrap64_id by lia.
  unfold make_bytes. rewrite decide_True by lia.
  unfold slice. rewrite decide_True by (unfold len; rewrite repeat_length; lia).
  unfold allocations. simpl. f_equal.
  apply downstreamLoop_allocates_nothing.
Qed.

(** ** A burst of datagrams for one session *)

Lemma receiveIteration_hit (dg : datagram) (st : state) (k : N) (idx : nat)
    (e : session) :
  arrives k dg ->
  table st !! k = Some idx ->
  sessions st !! idx = Some e ->
  sendChClosed e = false ->
  exists st' e',
    receiveIteration dg st = (st', Continue) /\
    table st' = table st /\
    sessions st' = <[idx := e']> (sessions st) /\
    sendChClosed e' = false /\ csid e' = csid e /\
    clientAddrPort e' = dg_clientAddrPort dg /\
    gets st' = S (gets st) /\
    warns st' = (warns st + (if updateOobCache_ok dg then 0 else 1))%nat /\
    ((length (natConnSendCh e) < sendChannelCapacity)%nat /\
     borrows e' = borrows e ++ [gets st] /\ puts st' = puts st
     \/
     (sendChannelCapacity <= length (natConnSendCh e))%nat /\
     borrows e' = borrows e /\ puts st' = (ReceiveLoop, gets st) :: puts st).
Proof.
  intros (Hread & Hflags & Hk & Hunpack) Htable He Hopen.
  assert (idx < length (sessions st))%nat as Hlt by (by eapply lookup_lt_Some).
  unfold UDPSessionRelay.receiveIteration, UDPSessionRelay.trySend, Get. simpl.
  rewrite Hread, Hflags, Hk, Htable, He, Hunpack. simpl. rewrite Hopen.
  destruct (updateOobCache_ok dg); (case_decide as Hroom; simpl in Hroom).
  all: eexists _, (set_natConnSendCh _ (set_clientAddrPort (dg_clientAddrPort dg) e)).
  all: (split; [reflexivity|]); simpl; (split; [done|]).
  all: split;
    [ first [ by rewrite list_insert_insert_eq
            | by destruct e ] |].
  all: do 4 (split; [done|]); (split; [lia|]).
  all: first [ left; split; [done|]; unfold borrows; simpl; by rewrite fmap_app
             | right; split; [lia|]; done ].
Qed.

(** X27.  A burst of datagrams for a session whose upstream worker does
    not run in between fills the send channel up to its capacity and no
    further: the channel takes the first datagrams, in order, as long as
    it has room; the buffer of every later one goes back to the pool from
    the receive loop, and the session stays open.  The loop logs no
    warning about the packets it drops; it logs one for each datagram
    whose out-of-band data could not be processed. *)
Theorem burst_fills_the_channel_then_drops (dgs : list datagram) :
  forall (st : state) (k : N) (idx : nat) (e : session),
  Forall (arrives k) dgs ->
  table st !! k = Some idx ->
  sessions st !! idx = Some e ->
  sendChClosed e = false ->
  (length (natConnSendCh e) <= sendChannelCapacity)%nat ->
  let room := (sendChannelCapacity - length (natConnSendCh e))%nat in
  exists st' e',
    run (Receive <$> dgs) st = (st', Continue) /\
    sessions st' !! idx = Some e' /\ sendChClosed e' = false /\
    borrows e' = borrows e ++ take room (seq (gets st) (length dgs)) /\
    puts st' = ((fun b => (ReceiveLoop, b)) <$>
                  rev (drop room (seq (gets st) (length dgs)))) ++ puts st /\
    warns st' = (warns st + oobFailures dgs)%nat /\ table st' = table st.
Proof.
  induction dgs as [|dg dgs IH]; intros st k idx e Hall Htable He Hopen Hlen room.
  - exists st, e. simpl. rewrite take_nil, drop_nil, app_nil_r.
    unfold oobFailures. simpl. rewrite Nat.add_0_r. done.
  - apply Forall_cons in Hall as [Hdg Hall].
    assert (idx < length (sessions st))%nat as Hlt by (by eapply lookup_lt_Some).
    destruct (receiveIteration_hit dg st k idx e Hdg Htable He Hopen)
      as (st1 & e1 & Hrun & Htable1 & Hsessions1 & Hopen1 & _ & _ & Hgets1 & Hwarns1
          & Hcase).
    assert (sessions st1 !! idx = Some e1) as He1
      by (by rewrite Hsessions1, list_lookup_insert_eq).
    assert (length (natConnSendCh e1) = length (borrows e1)) as Hl1
      by (unfold borrows; by rewrite length_fmap).
    assert (length (natConnSendCh e) = length (borrows e)) as Hl
      by (unfold borrows; by rewrite length_fmap).
    cbn [fmap list_fmap UDPSessionRelay.run UDPSessionRelay.exec].
    change (UDPSessionRelay.receiveIteration sendChannelCapacity IPv4HeaderLength
              IPv6HeaderLength UDPHeaderLength dg st)
      with (receiveIteration dg st).
    rewrite Hrun.
    unfold room in *. clear room. rewrite Hl in *.
    assert (oobFailures (dg :: dgs)
            = ((if updateOobCache_ok dg then 0 else 1) + oobFailures dgs)%nat) as Hoob.
    { unfold oobFailures. rewrite filter_cons.
      by destruct (updateOobCache_ok dg). }
    destruct Hcase as [(Hroom & Hb1 & Hputs1) | (Hfull & Hb1 & Hputs1)].
    + destruct (IH st1 k idx e1 Hall) as (st' & e' & Hrun' & He' & Hopen' & Hb' & Hputs'
                                          & Hwarns' & Htable');
        [by rewrite Htable1 | done | done
        | rewrite Hl1, Hb1, length_app; simpl; lia |].
      exists st', e'. split; [exact Hrun'|]. split; [done|]. split; [done|].
      rewrite Hl1, Hb1, length_app, Hgets1 in Hb', Hputs'. simpl in Hb', Hputs'.
      replace (sendChannelCapacity - length (borrows e))%nat
        with (S (sendChannelCapacity - (length (borrows e) + 1)))%nat by lia.
      simpl.
      split; [by rewrite Hb', <- app_assoc|].
      split; [by rewrite Hputs', Hputs1|].
      split; [rewrite Hwarns', Hwarns1, Hoob; lia|]. by rewrite Htable'.
    + destruct (IH st1 k idx e1 Hall) as (st' & e' & Hrun' & He' & Hopen' & Hb' & Hputs'
                                          & Hwarns' & Htable');
        [by rewrite Htable1 | done | done
        | rewrite Hl1, Hb1; lia |].
      exists st', e'. split; [exact Hrun'|]. split; [done|]. split; [done|].
      rewrite Hl1, Hb1, Hgets1 in Hb', Hputs'.
      replace (sendChannelCapacity - length (borrows e))%nat with 0%nat in * by lia.
      rewrite take_0 in *. rewrite drop_0 in *.
      split; [done|].
      split.
      { rewrite Hputs', Hputs1. simpl. rewrite fmap_app. simpl.
        by rewrite <- app_assoc. }
      split; [rewrite Hwarns', Hwarns1, Hoob; lia|]. by rewrite Htable'.
Qed.

(** ** The end of a session *)



(** X29.  The end of a session's downstream worker frees the session
    ID: the table entry is removed, every other entry stays, and the
    session object is left, closed, to its upstream worker.  A datagram
    of the same client session that arrives afterwards opens a new
    session in a new place and does not touch the closed one. *)
Theorem teardown_frees_the_session_id
    (st : state) (k : N) (idx : nat) (dg : datagram) (cl : UDPClient)
    (natPacker serverPacker : Packer) :
  table_ok st ->
  table st !! k = Some idx ->
  opens k dg cl natPacker serverPacker ->
  exists e st1 st2 e2,
    sessions st !! idx = Some e /\
    teardown idx st = (st1, Break) /\
    table st1 = delete k (table st) /\
    sessions st1 = <[idx := set_sendChClosed true e]> (sessions st) /\
    receiveIteration dg st1 = (st2, Continue) /\
    table st2 !! k = Some (length (sessions st)) /\
    length (sessions st) ≠ idx /\
    sessions st2 !! length (sessions st) = Some e2 /\
    sendChClosed e2 = false /\
    sessions st2 !! idx = Some (set_sendChClosed true e).
Proof.
  intros Hok Hk Hopens.
  destruct (Hok k idx Hk) as (e & He & Hopen & Hcsid).
  assert (idx < length (sessions st))%nat as Hlt by (by eapply lookup_lt_Some).
  set (st1 := set_table (delete k (table st))
                (set_sessions (<[idx := set_sendChClosed true e]> (sessions st)) st)).
  assert (teardown idx st = (st1, Break)) as Htd.
  { unfold teardown. rewrite He, Hopen, Hcsid. reflexivity. }
  destruct (receiveIteration_opens dg st1 k cl natPacker serverPacker Hopens)
    as (st2 & e2 & Hrun & Htable2 & Hsessions2 & _ & Hopen2 & _).
  { simpl. apply lookup_delete_eq. }
  simpl in Htable2, Hsessions2. rewrite length_insert in Htable2.
  exists e, st1, st2, e2.
  split; [done|]. split; [done|]. split; [done|]. split; [done|]. split; [done|].
  split; [by rewrite Htable2, lookup_insert_eq|].
  split; [lia|].
  split.
  { rewrite Hsessions2, lookup_app_r by (rewrite length_insert; lia).
    by rewrite length_insert, Nat.sub_diag. }
  split; [done|].
  rewrite Hsessions2, lookup_app_l by (rewrite length_insert; lia).
  by rewrite list_lookup_insert_eq.
Qed.

End Channels.

(** ** The downstream worker's loop *)

Lemma downstreamLoop_stops (frontHeadroom : Z) (packetBuf recvBuf : list byte)
    (pre post : list reply) (r : reply) :
  Forall (fun x => ends x = false) pre ->
  ends r = true ->
  downstreamLoop frontHeadroom packetBuf recvBuf (pre ++ r :: post)
    = downstreamLoop frontHeadroom packetBuf recvBuf (pre ++ [r]) /\
  readLengths (downstreamLoop frontHeadroom packetBuf recvBuf (pre ++ [r]))
    = repeat (len recvBuf) (S (length pre)).
Proof.
  intros Hpre Hr. induction pre as [|x pre IH].
  - destruct r; done.
  - apply Forall_cons in Hpre as [Hx Hpre]. destruct (IH Hpre) as [IH1 IH2].
    split.
    + destruct x; try done; simpl; by rewrite IH1.
    + destruct x; try done; unfold readLengths in *; simpl; f_equal; exact IH2.
Qed.

(** X30.  The downstream worker of a session ends its loop at the first
    read that runs into the deadline, or the first write on a closed
    server connection, and does nothing after it; until then it reads
    once for each reply, every time into the same part of its buffer,
    which is [maxClientPacketSize] bytes long. *)
Theorem downstream_worker_stops_at_the_first_end
    (entry : session) (pre post : list reply) (r : reply) :
  (0 <= FrontHeadroom (serverConnPacker entry) < 2 ^ 61)%Z ->
  (0 <= RearHeadroom (serverConnPacker entry) < 2 ^ 61)%Z ->
  (0 <= FrontHeadroom (natConnPacker entry) < 2 ^ 61)%Z ->
  (0 <= RearHeadroom (natConnPacker entry) < 2 ^ 61)%Z ->
  (0 <= maxClientPacketSize entry < 2 ^ 61)%Z ->
  Forall (fun x => ends x = false) pre ->
  ends r = true ->
  relayNatConnToServerConnGeneric entry (pre ++ r :: post)
    = relayNatConnToServerConnGeneric entry (pre ++ [r]) /\
  readLengths (relayNatConnToServerConnGeneric entry (pre ++ r :: post))
    = repeat (maxClientPacketSize entry) (S (length pre)).
Proof.
  intros HsF HsR HcF HcR Hmax Hpre Hr.
  unfold relayNatConnToServerConnGeneric.
  set (fh := if decide (_ > _)%Z then _ else 0%Z).
  set (rh := if decide (_ > _)%Z then _ else 0%Z).
  assert (0 <= fh < 2 ^ 61)%Z as Hfh.
  { unfold fh, int_sub. case_decide; [rewrite wrap64_id|]; lia. }
  assert (0 <= rh < 2 ^ 61)%Z as Hrh.
  { unfold rh, int_sub. case_decide; [rewrite wrap64_id|]; lia. }
  unfold int_add. rewrite (wrap64_id (fh + _)) by lia.
  rewrite wrap64_id by lia.
  unfold make_bytes. rewrite decide_True by lia.
  unfold slice. rewrite decide_True by (unfold len; rewrite repeat_length; lia).
  match goal with |- context [downstreamLoop ?f ?p ?b _] =>
    destruct (downstreamLoop_stops f p b pre post r Hpre Hr) as [H1 H2];
    assert (len b = maxClientPacketSize entry) as Hb
  end.
  { unfold len. rewrite length_take, length_drop, repeat_length. lia. }
  split; [by rewrite H1|].
  rewrite H1. unfold readLengths in *. simpl.
  etrans; [exact H2|]. by rewrite Hb.
Qed.

(** ** The properties at the relay of [UDPDemo] *)

Lemma datagramOf_opens (k : N) :
  opens k (datagramOf k) outbound outboundPacker serverPacker.
Proof. repeat split. Qed.

Lemma opened_session :
  sessions opened !! 0%nat = Some (set_natConnSendCh [packet 0%nat] session7).
Proof. vm_compute. reflexivity. Qed.

Lemma opened_table : table opened !! 7%N = Some 0%nat.
Proof. vm_compute. reflexivity. Qed.

Lemma opened_table_ok : table_ok opened.
Proof.
  apply (run_Inv capacity 20 40 8 [Receive (datagramOf 7)] (init 1500) opened Continue).
  - apply init_Inv.
  - vm_compute. reflexivity.
  - discriminate.
Qed.

Lemma filled_session :
  sessions filled !! 0%nat = Some (set_natConnSendCh [packet 0%nat; packet 1%nat] session7).
Proof. vm_compute. reflexivity. Qed.


(** X24 after the three arrivals: two packets in a channel for two. *)
Lemma send_channels_are_bounded_and_in_arrival_order_witness :
  (length [packet 0%nat; packet 1%nat] <= capacity)%nat /\
  in_arrival_order [0; 1]%nat /\
  Forall (fun b => (b < gets filled)%nat) [0; 1]%nat.
Proof.
  apply (send_channels_are_bounded_and_in_arrival_order capacity 20 40 8 1500
           arrivals filled (snd (relayRun arrivals (init 1500))) 0%nat
           (set_natConnSendCh [packet 0%nat; packet 1%nat] session7)).
  - vm_compute. reflexivity.
  - exact filled_session.
Defined.

(** X25 for the truncated datagram, at [opened]. *)
Lemma failed_datagram_changes_no_session_witness :
  let st' := fst (receiveIteration capacity 20 40 8 truncated opened) in
  table st' = table opened /\ sessions st' = sessions opened /\
  puts st' = (ReceiveLoop, gets opened) :: puts opened /\
  sends st' = sends opened /\ gets st' = S (gets opened) /\
  (read truncated = ReadClosed /\ Continue = Break /\ warns st' = warns opened \/
   read truncated ≠ ReadClosed /\ Continue = Continue /\
   (warns opened < warns st')%nat).
Proof.
  apply (failed_datagram_changes_no_session capacity 20 40 8 truncated opened
           (fst (receiveIteration capacity 20 40 8 truncated opened)) Continue).
  - exact opened_table_ok.
  - right; left. reflexivity.
  - vm_compute. reflexivity.
Defined.

(** X26 for the first datagram of session 7: 16 + 1472 + 0 bytes. *)
Lemma new_session_sizes_the_downstream_buffer_witness :
  exists st' e,
    receiveIteration capacity 20 40 8 (datagramOf 7) (init 1500) = (st', Continue) /\
    table st' !! 7%N = Some (length (sessions (init 1500))) /\
    sessions st' !! length (sessions (init 1500)) = Some e /\
    maxClientPacketSize e = 1500 - 20 - 8 /\
    allocations (relayNatConnToServerConnGeneric e [Written; ReadDeadlineExceeded]) =
      [Z.max (24 - 8) 0 + (1500 - 20 - 8) + Z.max (16 - 32) 0].
Proof.
  apply (new_session_sizes_the_downstream_buffer capacity 20 40 8 (datagramOf 7)
           (init 1500) 7%N outbound outboundPacker serverPacker
           [Written; ReadDeadlineExceeded]).
  - apply datagramOf_opens.
  - reflexivity.
  - simpl; lia.
  - simpl; lia.
  - simpl; lia.
  - simpl; lia.
  - simpl; lia.
  - lia.
  - simpl; lia.
Defined.

(** X27 at [opened]: of three more datagrams the channel takes one; the
    out-of-band data of the second cannot be processed. *)
Lemma burst_fills_the_channel_then_drops_witness :
  exists st' e',
    relayRun [Receive (datagramOf 7); Receive oobFailed; Receive (datagramOf 7)] opened
      = (st', Continue) /\
    sessions st' !! 0%nat = Some e' /\ sendChClosed e' = false /\
    borrows e' = [0; 1]%nat /\
    puts st' = [(ReceiveLoop, 3%nat); (ReceiveLoop, 2%nat)] /\
    warns st' = (0 + 1)%nat /\ table st' = table opened.
Proof.
  apply (burst_fills_the_channel_then_drops capacity 20 40 8
           [datagramOf 7; oobFailed; datagramOf 7] opened 7%N 0%nat
           (set_natConnSendCh [packet 0%nat] session7)).
  - repeat constructor.
  - exact opened_table.
  - exact opened_session.
  - reflexivity.
  - simpl. unfold capacity. lia.
Defined.


(** X29 at [opened]: session 7 ends and is opened again. *)
Lemma teardown_frees_the_session_id_witness :
  exists e st1 st2 e2,
    sessions opened !! 0%nat = Some e /\
    teardown 0%nat opened = (st1, Break) /\
    table st1 = delete 7%N (table opened) /\
    sessions st1 = <[0%nat := set_sendChClosed true e]> (sessions opened) /\
    receiveIteration capacity 20 40 8 (datagramOf 7) st1 = (st2, Continue) /\
    table st2 !! 7%N = Some (length (sessions opened)) /\
    length (sessions opened) ≠ 0%nat /\
    sessions st2 !! length (sessions opened) = Some e2 /\
    sendChClosed e2 = false /\
    sessions st2 !! 0%nat = Some (set_sendChClosed true e).
Proof.
  apply (teardown_frees_the_session_id capacity 20 40 8 opened 7%N 0%nat (datagramOf 7)
           outbound outboundPacker serverPacker).
  - exact opened_table_ok.
  - exact opened_table.
  - apply datagramOf_opens.
Defined.

(** X30 for [session7]: the third reply is the deadline. *)
Lemma downstream_worker_stops_at_the_first_end_witness :
  relayNatConnToServerConnGeneric session7
    ([Written; ReadError] ++ ReadDeadlineExceeded :: [Written])
    = relayNatConnToServerConnGeneric session7
        ([Written; ReadError] ++ [ReadDeadlineExceeded]) /\
  readLengths (relayNatConnToServerConnGeneric session7
                 ([Written; ReadError] ++ ReadDeadlineExceeded :: [Written]))
    = repeat (maxClientPacketSize session7) 3%nat.
Proof.
  apply (downstream_worker_stops_at_the_first_end session7 [Written; ReadError]
           [Written] ReadDeadlineExceeded).
  - simpl; lia.
  - simpl; lia.
  - simpl; lia.
  - simpl; lia.
  - simpl; lia.
  - repeat constructor.
  - reflexivity.
Defined.

End UDPSessionRelayExtra.
